(** * Verification of the research-agent orchestration core

    A shallow embedding of [backend/src/agent/utils.py] and of the graph nodes
    of [backend/src/agent/graph.py], with the properties the specification
    states about them.

    Conventions of the embedding:
    - a Python [str] is a [string], a text of characters among the first
      256 code points; [+:+] is concatenation;
    - a Python [int] is a [Z]; an index produced by [enumerate] is a [nat];
    - a Python [dict] used as a map is a [gmap]; a list is a [list];
    - a [raise] is the left injection of a sum whose right side is the
      returned value. *)

From Stdlib Require Import ZArith Ascii String List Sorted Lia.
From stdpp Require Import base option list gmap strings pretty.

Local Open Scope string_scope.

(** ** Python string primitives *)

Module Str.

(** The newline character of the f-strings. *)
Definition nl : string := String (ascii_of_nat 10) EmptyString.

(** [str(n)] for an [enumerate] index, [str(z)] for an int. *)
Definition of_nat (n : nat) : string := pretty n.
Definition of_Z (z : Z) : string := pretty z.

(** [sep.join(parts)]. *)
Fixpoint join (sep : string) (parts : list string) : string :=
  match parts with
  | [] => EmptyString
  | [p] => p
  | p :: rest => p +:+ sep +:+ join sep rest
  end.

(** [s.startswith(p)]. *)
Fixpoint startswith (p s : string) : bool :=
  match p, s with
  | EmptyString, _ => true
  | String a p', String b s' => if Ascii.eqb a b then startswith p' s' else false
  | String _ _, EmptyString => false
  end.

(** [p in s]: [p] occurs in [s] as a contiguous substring. *)
Fixpoint occurs (p s : string) : bool :=
  startswith p s ||
  match s with
  | EmptyString => false
  | String _ s' => occurs p s'
  end.

(** [s[:n]] and [s[n:]] for a natural [n] (both clamp at the end). *)
Fixpoint take (n : nat) (s : string) : string :=
  match n, s with
  | S n', String c s' => String c (take n' s')
  | _, _ => EmptyString
  end.

Fixpoint drop (n : nat) (s : string) : string :=
  match n, s with
  | S n', String _ s' => drop n' s'
  | _, _ => s
  end.

(** The offset Python computes for a slice bound [i] on a sequence of
    length [len]: a negative bound counts from the end, and both ends
    clamp. *)
Definition slice_bound (len : nat) (i : Z) : nat :=
  if (i <? 0)%Z then Z.to_nat (Z.max 0 (Z.of_nat len + i))
  else Nat.min (Z.to_nat i) len.

(** [s[:i]] and [s[i:]] for an int [i]. *)
Definition slice_to (s : string) (i : Z) : string :=
  take (slice_bound (String.length s) i) s.
Definition slice_from (s : string) (i : Z) : string :=
  drop (slice_bound (String.length s) i) s.

(** [s.replace(old, new)] for a non-empty [old]: the occurrences of [old]
    are found left to right without overlap.  [skip] counts the characters
    of a match that are still to be passed over. *)
Fixpoint replace_scan (old new : string) (skip : nat) (s : string) : string :=
  match s with
  | EmptyString => EmptyString
  | String c s' =>
      match skip with
      | S k => replace_scan old new k s'
      | O =>
          if startswith old s
          then new +:+ replace_scan old new (String.length old - 1) s'
          else String c (replace_scan old new 0 s')
      end
  end.

(** [s.replace("", new)]: [new] goes before every character and at the
    end. *)
Fixpoint intersperse (new : string) (s : string) : string :=
  match s with
  | EmptyString => new
  | String c s' => new +:+ String c (intersperse new s')
  end.

Definition replace (old new s : string) : string :=
  match old with
  | EmptyString => intersperse new s
  | String _ _ => replace_scan old new 0 s
  end.

(** Character classes: a decimal digit; a character a web marker is made
    of (a bracket or a digit).  A character of the embedding is one of the
    first 256 code points; among these the decimal digits, the characters
    that [\d] matches in a pattern, are 0 to 9.  A text with a digit of
    another script is outside the embedding. *)
Definition is_digit (c : ascii) : bool :=
  (48 <=? nat_of_ascii c)%nat && (nat_of_ascii c <=? 57)%nat.

Definition marker_char (c : ascii) : bool :=
  Ascii.eqb c "[" || Ascii.eqb c "]" || is_digit c.

(** [all(P(c) for c in s)]. *)
Fixpoint all_chars (P : ascii -> bool) (s : string) : bool :=
  match s with
  | EmptyString => true
  | String c s' => P c && all_chars P s'
  end.

(** Subsequence: the characters of the first string appear in the second
    in the same order. *)
Inductive subseq : string -> string -> Prop :=
| subseq_nil : subseq EmptyString EmptyString
| subseq_keep c s t : subseq s t -> subseq (String c s) (String c t)
| subseq_skip c s t : subseq s t -> subseq s (String c t).

End Str.

(** [enumerate(l)], starting from [i]. *)
Fixpoint enumerate_from {A : Type} (i : nat) (l : list A) : list (nat * A) :=
  match l with
  | [] => []
  | x :: l' => (i, x) :: enumerate_from (S i) l'
  end.

Definition enumerate {A : Type} (l : list A) : list (nat * A) := enumerate_from 0 l.

(** [range(start, start + n)] over the integers. *)
Fixpoint zseq (start : Z) (n : nat) : list Z :=
  match n with
  | O => []
  | S n' => start :: zseq (start + 1) n'
  end.

(** ** [agent/utils.py] *)

Module Utils.

(** The message classes of [AnyMessage]. *)
Inductive MessageKind : Type :=
| HumanMessage | AIMessage | SystemMessage | ToolMessage
| FunctionMessage | ChatMessage.

Record Message : Type := mkMessage { kind : MessageKind; content : string }.

(** One turn of the loop of [get_research_topic]. *)
Definition topic_step (research_topic : string) (message : Message) : string :=
  match kind message with
  | HumanMessage => research_topic +:+ "User: " +:+ content message +:+ Str.nl
  | AIMessage => research_topic +:+ "Assistant: " +:+ content message +:+ Str.nl
  | _ => research_topic
  end.

Definition get_research_topic (messages : list Message) : string :=
  match messages with
  | [m] => content m
  | _ => fold_left topic_step messages EmptyString
  end.

(** [parts[0] + parts[1] + ...]. *)
Fixpoint concat_lines (lines : list string) : string :=
  match lines with
  | [] => EmptyString
  | l :: rest => l +:+ concat_lines rest
  end.

(** The reading of the specification for a history that is not a single
    message: every message, in order, behind the prefix of its role. *)
Definition role_prefixed (role_prefix : MessageKind -> string) (messages : list Message)
    : string :=
  concat_lines (map (fun m => role_prefix (kind m) +:+ content m +:+ Str.nl) messages).

(** The prefixes the code writes. *)
Definition code_prefix (k : MessageKind) : string :=
  match k with
  | HumanMessage => "User: "
  | AIMessage => "Assistant: "
  | _ => EmptyString
  end.

(** What the code makes of one message of such a history: a line for a
    human or a model message, nothing for a message of another class. *)
Definition topic_line (m : Message) : string :=
  match kind m with
  | HumanMessage => "User: " +:+ content m +:+ Str.nl
  | AIMessage => "Assistant: " +:+ content m +:+ Str.nl
  | _ => EmptyString
  end.

Definition conversational (m : Message) : Prop :=
  kind m = HumanMessage \/ kind m = AIMessage.

(** A grounding chunk as [resolve_urls] reads it: [site.web.uri]. *)
Record Web : Type := mkWeb { uri : string }.
Record Site : Type := mkSite { web : Web }.

Definition url_prefix : string := "https://vertexaisearch.cloud.google.com/id/".

(** The f-string [f"{prefix}{id}-{idx}"]. *)
Definition short_url_of (id : Z) (idx : nat) : string :=
  url_prefix +:+ Str.of_Z id +:+ "-" +:+ Str.of_nat idx.

Definition resolve_step (id : Z) (resolved_map : gmap string string)
    (entry : nat * string) : gmap string string :=
  let '(idx, url) := entry in
  match resolved_map !! url with
  | None => <[url := short_url_of id idx]> resolved_map
  | Some _ => resolved_map
  end.

Definition resolve_urls (urls_to_resolve : list Site) (id : Z) : gmap string string :=
  let urls := map (fun site => uri (web site)) urls_to_resolve in
  fold_left (resolve_step id) (enumerate urls) ∅.

(** A citation as [get_citations] builds it.  [short_url] is what
    [resolved_urls_map.get(uri, None)] returned. *)
Record Segment : Type := mkSegment {
  seg_label : string;
  seg_short_url : option string;
  seg_value : string
}.

Record Citation : Type := mkCitation {
  start_index : Z;
  end_index : Z;
  segments : list Segment
}.

(** How an f-string renders an optional string: [None] prints as None. *)
Definition render_opt (o : option string) : string :=
  match o with Some s => s | None => "None" end.

(** The inner loop of [insert_citation_markers]. *)
Definition marker_to_insert (c : Citation) : string :=
  fold_left
    (fun acc segment =>
       acc +:+ " [" +:+ seg_label segment +:+ "](" +:+ render_opt (seg_short_url segment) +:+ ")")
    (segments c) EmptyString.

(** The sort key [(end_index, start_index)], compared as Python compares
    tuples. *)
Definition key_ltb (a b : Citation) : bool :=
  ((end_index a <? end_index b) ||
   ((end_index a =? end_index b) && (start_index a <? start_index b)))%Z.

(** [sorted(..., key=..., reverse=True)]: descending by key, and stable
    (citations with equal keys keep their order).  Insertion from the
    right puts a citation before the first one whose key is not larger. *)
Fixpoint insert_desc (c : Citation) (l : list Citation) : list Citation :=
  match l with
  | [] => [c]
  | d :: l' => if key_ltb c d then d :: insert_desc c l' else c :: d :: l'
  end.

Definition sorted_desc (l : list Citation) : list Citation :=
  fold_right insert_desc [] l.

(** [modified_text[:end_idx] + marker + modified_text[end_idx:]]. *)
Definition insert_step (modified_text : string) (citation_info : Citation) : string :=
  let end_idx := end_index citation_info in
  Str.slice_to modified_text end_idx +:+ marker_to_insert citation_info
    +:+ Str.slice_from modified_text end_idx.

Definition insert_citation_markers (text : string) (citations_list : list Citation) : string :=
  fold_left insert_step (sorted_desc citations_list) text.

(** A citation whose [end_index] lies within the text. *)
Definition in_range (text : string) (c : Citation) : Prop :=
  (0 <= end_index c <= Z.of_nat (String.length text))%Z.

(** [d] may come after [c] in the processing order. *)
Definition ends_no_later (c d : Citation) : Prop := (end_index d <= end_index c)%Z.

(** The reading of the specification: the markers of a citation are one
    markdown link for each of its segments, in their order, each behind a
    space; a short address that is [None] is written None. *)
Definition link_text (segment : Segment) : string :=
  " [" +:+ seg_label segment +:+ "]("
  +:+ (match seg_short_url segment with
       | Some short_url => short_url
       | None => "None"
       end)
  +:+ ")".

Definition citation_markers (c : Citation) : string :=
  concat_lines (map link_text (segments c)).

(** The reading of the specification: the text with, before the character
    at each position [p] (and at the end), the markers of the citations
    whose [end_index] is [p], in the order of [cits]. *)
Definition markers_at (cits : list Citation) (p : nat) : string :=
  fold_right (fun c acc => if (end_index c =? Z.of_nat p)%Z then citation_markers c +:+ acc else acc)
    EmptyString cits.

Fixpoint weave (cits : list Citation) (p : nat) (s : string) : string :=
  markers_at cits p +:+
  match s with
  | EmptyString => EmptyString
  | String c s' => String c (weave cits (S p) s')
  end.

Definition text_with_markers (text : string) (cits : list Citation) : string :=
  weave (rev (sorted_desc cits)) 0 text.

End Utils.

(** ** [agent/graph.py] *)

Module Graph.

Import Utils.

(** An exception, by its message. *)
Definition exn : Type := string.

(** The error monad of a [try] body. *)
Definition bind {A B : Type} (m : exn + A) (k : A -> exn + B) : exn + B :=
  match m with
  | inl e => inl e
  | inr a => k a
  end.

Notation "'let!' x ':=' m 'in' k" := (bind m (fun x => k))
  (at level 10, x name, m at level 100, k at level 200).

(** [d[key]] on a dict that may lack the key: [KeyError(key)], whose
    message is the quoted key. *)
Definition getitem {A : Type} (key : string) (o : option A) : exn + A :=
  match o with
  | Some a => inr a
  | None => inl ("'" +:+ key +:+ "'")
  end.

(** An entry of [sources_gathered]. *)
Record Source : Type := mkSource {
  value : string;
  short_url : string;
  label : string
}.

(** The payload of a [Send]: the state a research node receives. *)
Record WebSearchState : Type := mkWebSearchState {
  ws_search_query : string;
  ws_id : Z
}.

(** What a research node returns. *)
Record Update : Type := mkUpdate {
  upd_sources_gathered : list Source;
  upd_search_query : list string;
  upd_web_research_result : list string;
  upd_kb_search_status : option string;
  upd_kb_search_progress : option string
}.

(** *** [web_research] *)

(** An item of the search response; a field holds what
    [item.get(key, "")] returns, so a missing key is the empty string. *)
Record SearchItem : Type := mkSearchItem {
  snippet : string;
  link : string;
  title : string
}.

(** [f"[{idx}]"]. *)
Definition web_marker (idx : nat) : string := "[" +:+ Str.of_nat idx +:+ "]".

Definition web_label (idx : nat) (item : SearchItem) : string :=
  match title item with
  | EmptyString => "Source " +:+ Str.of_nat (idx + 1)
  | t => t
  end.

(** One turn of the loop over [enumerate(search_results)]. *)
Definition web_item_step (acc : list Source * string) (entry : nat * SearchItem)
    : list Source * string :=
  let '(sources_gathered, modified_text) := acc in
  let '(idx, item) := entry in
  match link item with
  | EmptyString => acc
  | lnk =>
      ((sources_gathered ++ [mkSource lnk (web_marker idx) (web_label idx item)])%list,
       Str.replace lnk (web_marker idx) modified_text)
  end.

(** A link that the substitution handles as meant: it has no opening
    bracket and does not begin with a character of a marker (so it is not
    empty). *)
Definition plain_link (l : string) : Prop :=
  Str.occurs "[" l = false /\
  match l with
  | EmptyString => False
  | String c _ => Str.marker_char c = false
  end.

(** A text in which every opening bracket begins the marker of one of the
    sources. *)
Inductive closed (sources : list Source) : string -> Prop :=
| closed_end : closed sources EmptyString
| closed_char c s :
    c <> "["%char -> closed sources s -> closed sources (String c s)
| closed_marker e s :
    e ∈ sources -> closed sources s -> closed sources (short_url e +:+ s).

(** Sources whose short identifiers are web markers. *)
Definition web_marked (srcs : list Source) : Prop :=
  forall e, e ∈ srcs -> exists idx, short_url e = web_marker idx.

(** A result list whose links, where there is one, are plain. *)
Definition links_plain (items : list SearchItem) : Prop :=
  forall item, item ∈ items -> link item <> EmptyString -> plain_link (link item).

(** The entries the loop appends, read off the result list. *)
Definition web_sources_from (i : nat) (search_results : list SearchItem) : list Source :=
  flat_map
    (fun '(idx, item) =>
       match link item with
       | EmptyString => []
       | lnk => [mkSource lnk (web_marker idx) (web_label idx item)]
       end)
    (enumerate_from i search_results).

Definition web_snippets (search_results : list SearchItem) : string :=
  Str.join Str.nl (map snippet search_results).

(** The reading of the specification: a text in which, source by source in
    the order of the list, every occurrence of the source's raw link is
    replaced by the source's short identifier. *)
Definition substitute_markers (sources : list Source) (text : string) : string :=
  fold_left (fun t e => Str.replace (value e) (short_url e) t) sources text.

(** The reading of the specification: the source list read backwards, the
    raw link of each source put back for its short identifier, the last
    source first. *)
Definition expand_markers (sources : list Source) (text : string) : string :=
  fold_right (fun e t => Str.replace (short_url e) (value e) t) text sources.

Definition web_process (search_results : list SearchItem) : list Source * string :=
  fold_left web_item_step (enumerate search_results) ([], web_snippets search_results).

(** The search client is a parameter: for a task it either raises
    ([inl], any exception inside the [try]) or returns the response's
    items ([response.get("items", [])]).  The [except] clause logs and
    re-raises. *)
Definition web_research (search : WebSearchState -> exn + list SearchItem)
    (state : WebSearchState) : exn + Update :=
  match search state with
  | inl e => inl e
  | inr search_results =>
      let '(sources_gathered, modified_text) := web_process search_results in
      inr {| upd_sources_gathered := sources_gathered;
             upd_search_query := [ws_search_query state];
             upd_web_research_result := [modified_text];
             upd_kb_search_status := None;
             upd_kb_search_progress := None |}
  end.

(** *** [knowledge_base_research] *)

(** An element of the [documents] of the vector store's answer.  A field
    is [None] when the dict lacks the key.
    - [doc_score]: for a number, the text that [f"{score:.3f}"] prints;
      for another value (a string, null, a list), the exception that the
      format raises; and for an element that is no dict at all, the
      exception of the subscript [doc['score']], the first thing the loop
      does with an element;
    - [doc_source], [doc_id]: the text that an f-string prints for the
      value;
    - [doc_content]: a string; or, for a value that is no string, the
      exception that its slice or the [replace] raises (the f-string
      before them prints any value);
    - [doc_metadata]: a dict, with the string under its ["filename"] key
      when it has the key; or, for a value without a [get] method (null, a
      string, a list), the [AttributeError]. *)
Record Document : Type := mkDocument {
  doc_score : option (exn + string);
  doc_source : option string;
  doc_content : option (exn + string);
  doc_id : option string;
  doc_metadata : option (exn + option string)
}.

(** [doc.get('metadata', {}).get('filename')] for metadata that are a
    dict, or are not there. *)
Definition doc_filename (doc : Document) : option string :=
  match doc_metadata doc with
  | Some (inr filename) => filename
  | _ => None
  end.

(** The dict [query_documents] returns: with an ["error"] key (and its
    ["timeout"] flag), or with the documents. *)
Inductive QueryResult : Type :=
| QueryError (error : string) (timeout : bool)
| QueryDocuments (documents : list Document).

(** What the knowledge base does for a task: the tunnel cannot be
    established, or the query raises or returns. *)
Inductive KbOutcome : Type :=
| TunnelFailed
| Queried (result : exn + QueryResult).

(** [f"[KB-{idx + 1}]"]. *)
Definition kb_marker (idx : nat) : string := "[KB-" +:+ Str.of_nat (idx + 1) +:+ "]".

(** One turn of the loop over [enumerate(documents)], in the order in
    which the body reads the document: the score and its format, the
    source, the content for the f-string, then for the label the [get] of
    the metadata and [doc['id']] (the default of the second [get] is
    evaluated before the lookup, so the id is read whether or not the file
    name is there), and last the content as a string. *)
Definition kb_doc_step (acc : exn + (string * list Source)) (entry : nat * Document)
    : exn + (string * list Source) :=
  let '(idx, doc) := entry in
  let! st := acc in
  let '(formatted_content, sources_gathered) := st in
  let! score := getitem "score" (doc_score doc) in
  let! score := score in
  let formatted_content :=
    formatted_content +:+ "Document " +:+ Str.of_nat (idx + 1)
      +:+ " (Score: " +:+ score +:+ "):" +:+ Str.nl in
  let! source := getitem "source" (doc_source doc) in
  let formatted_content := formatted_content +:+ "Source: " +:+ source +:+ Str.nl in
  let! content := getitem "content" (doc_content doc) in
  let! filename := default (inr None) (doc_metadata doc) in
  let! id := getitem "id" (doc_id doc) in
  let! content := content in
  let formatted_content :=
    formatted_content +:+ "Content: " +:+ content +:+ Str.nl +:+ Str.nl in
  let source_entry :=
    mkSource source (kb_marker idx) (default ("doc_" +:+ id) filename) in
  inr (Str.replace content (Str.take 200 content +:+ "... " +:+ kb_marker idx) formatted_content,
       (sources_gathered ++ [source_entry])%list).

Definition kb_header (documents : list Document) : string :=
  "Knowledge Base Search Results (Found " +:+ Str.of_nat (length documents)
    +:+ " documents):" +:+ Str.nl +:+ Str.nl.

Definition kb_process (documents : list Document) : exn + (string * list Source) :=
  fold_left kb_doc_step (enumerate documents) (inr (kb_header documents, [])).

(** The early returns and the [except] clause: no sources, one text. *)
Definition kb_placeholder (state : WebSearchState) (text status progress : string) : Update :=
  {| upd_sources_gathered := [];
     upd_search_query := [ws_search_query state];
     upd_web_research_result := [text];
     upd_kb_search_status := Some status;
     upd_kb_search_progress := Some progress |}.

Definition kb_exception (state : WebSearchState) (e : exn) : Update :=
  kb_placeholder state ("Knowledge base search error: " +:+ e) "error" e.

Definition knowledge_base_research (kb : WebSearchState -> KbOutcome)
    (state : WebSearchState) : Update :=
  match kb state with
  | TunnelFailed =>
      kb_placeholder state "SSH tunnel connection failed" "failed"
        "SSH tunnel connection failed"
  | Queried (inl e) => kb_exception state e
  | Queried (inr (QueryError error true)) =>
      kb_placeholder state "Vector database search timed out after 30 seconds"
        "timeout" error
  | Queried (inr (QueryError error false)) =>
      kb_placeholder state ("Knowledge base search error: " +:+ error) "error" error
  | Queried (inr (QueryDocuments [])) =>
      kb_placeholder state "No relevant documents found in knowledge base for this query."
        "completed" "Search completed - no relevant documents found"
  | Queried (inr (QueryDocuments documents)) =>
      match kb_process documents with
      | inl e => kb_exception state e
      | inr (formatted_content, sources_gathered) =>
          {| upd_sources_gathered := sources_gathered;
             upd_search_query := [ws_search_query state];
             upd_web_research_result := [formatted_content];
             upd_kb_search_status := Some "completed";
             upd_kb_search_progress :=
               Some ("Successfully found " +:+ Str.of_nat (length documents)
                       +:+ " relevant documents") |}
      end
  end.

(** The ways a knowledge-base retrieval fails: no tunnel, an exception,
    an error answer (a timeout or another error), or documents that the
    formatting loop cannot read. *)
Definition kb_failed (o : KbOutcome) : Prop :=
  match o with
  | TunnelFailed => True
  | Queried (inl _) => True
  | Queried (inr (QueryError _ _)) => True
  | Queried (inr (QueryDocuments documents)) => exists e, kb_process documents = inl e
  end.

(** *** The nodes of the loop *)

(** [agent/configuration.py] is not among the sources; its two fields
    are parameters. *)
Record Configuration : Type := mkConfiguration {
  number_of_initial_queries : Z;
  cfg_max_research_loops : Z
}.

(** The structured output of the reflection model. *)
Record Reflection : Type := mkReflection {
  r_is_sufficient : bool;
  r_knowledge_gap : string;
  r_follow_up_queries : list string
}.

(** The external collaborators.  A language-model call raises or
    returns; the reflection model is also told which call this is. *)
Record Oracles : Type := mkOracles {
  search : WebSearchState -> exn + list SearchItem;
  kb : WebSearchState -> KbOutcome;
  query_writer : string -> Z -> exn + list string;
  reflector : Z -> string -> string -> exn + Reflection;
  answerer : string -> string -> exn + string
}.

(** The keys of the graph state the nodes read and write.  A key that
    [state.get] may find missing is an [option]. *)
Record OverallState : Type := mkOverallState {
  messages : list Message;
  search_query : list string;
  web_research_result : list string;
  sources_gathered : list Source;
  initial_search_query_count : option Z;
  max_research_loops : option Z;
  research_loop_count : option Z
}.

(** What [reflection] returns: its five keys. *)
Record ReflectionState : Type := mkReflectionState {
  is_sufficient : bool;
  knowledge_gap : string;
  follow_up_queries : list string;
  rs_research_loop_count : Z;
  number_of_ran_queries : Z
}.

Inductive Node : Type := WebResearchNode | KnowledgeBaseResearchNode.

(** [Send(node, {"search_query": q, "id": n})]. *)
Record Send : Type := mkSend { target : Node; arg : WebSearchState }.

Definition send_id (s : Send) : Z := ws_id (arg s).

Definition generate_query (w : Oracles) (cfg : Configuration) (state : OverallState)
    : exn + list string :=
  let count := default (number_of_initial_queries cfg) (initial_search_query_count state) in
  query_writer w (get_research_topic (messages state)) count.

(** The two [Send]s of one turn of the fan-out loops; [base] is the id of
    the first. *)
Definition send_pair (base : Z) (q : string) : list Send :=
  [mkSend WebResearchNode (mkWebSearchState q base);
   mkSend KnowledgeBaseResearchNode (mkWebSearchState q (base + 1))].

Definition continue_to_web_research (query_list : list string) : list Send :=
  flat_map (fun '(idx, search_query) => send_pair (Z.of_nat idx * 2) search_query)
    (enumerate query_list).

Definition reflection (w : Oracles) (state : OverallState) : exn + ReflectionState :=
  let count := (default 0 (research_loop_count state) + 1)%Z in
  let! result :=
    reflector w count (get_research_topic (messages state))
      (Str.join (Str.nl +:+ Str.nl +:+ "---" +:+ Str.nl +:+ Str.nl) (web_research_result state)) in
  inr {| is_sufficient := r_is_sufficient result;
         knowledge_gap := r_knowledge_gap result;
         follow_up_queries := r_follow_up_queries result;
         rs_research_loop_count := count;
         number_of_ran_queries := Z.of_nat (length (search_query state)) |}.

(** What the router returns: the name of the final node, or the list of
    tasks to spawn. *)
Inductive Route : Type :=
| FinalizeAnswer
| Dispatch (research_nodes : list Send).

(** The router.  [max_research_loops] is what
    [state.get("max_research_loops")] finds in the state that the graph
    hands to the router: [None] when the key is missing or null.
    [reflection] does not return this key, and what else that state holds
    lies with [agent/state.py], which is not among the sources: it is a
    parameter. *)
Definition evaluate_research (cfg : Configuration) (max_research_loops : option Z)
    (state : ReflectionState) : Route :=
  let max_research_loops :=
    match max_research_loops with
    | Some m => m
    | None => cfg_max_research_loops cfg
    end in
  if is_sufficient state || (max_research_loops <=? rs_research_loop_count state)%Z
  then FinalizeAnswer
  else
    Dispatch
      (flat_map
         (fun '(idx, follow_up_query) =>
            send_pair (number_of_ran_queries state + Z.of_nat idx * 2) follow_up_query)
         (enumerate (follow_up_queries state))).

(** *** The graph *)

(** Modelled from the spec: the reducers of [agent/state.py], which is not
    among the sources.  The queries, the findings and the sources are
    append-only sequences, so a node's update is appended to each. *)
Definition apply_update (state : OverallState) (u : Update) : OverallState :=
  {| messages := messages state;
     search_query := (search_query state ++ upd_search_query u)%list;
     web_research_result := (web_research_result state ++ upd_web_research_result u)%list;
     sources_gathered := (sources_gathered state ++ upd_sources_gathered u)%list;
     initial_search_query_count := initial_search_query_count state;
     max_research_loops := max_research_loops state;
     research_loop_count := research_loop_count state |}.

(** The counter that [reflection] returns replaces the state's. *)
Definition apply_reflection (state : OverallState) (r : ReflectionState) : OverallState :=
  {| messages := messages state;
     search_query := search_query state;
     web_research_result := web_research_result state;
     sources_gathered := sources_gathered state;
     initial_search_query_count := initial_search_query_count state;
     max_research_loops := max_research_loops state;
     research_loop_count := Some (rs_research_loop_count r) |}.

(** What [finalize_answer] returns: the answer as a message, and the
    sources as the state holds them. *)
Record Answer : Type := mkAnswer {
  ans_messages : list Message;
  ans_sources_gathered : list Source
}.

Definition finalize_answer (w : Oracles) (state : OverallState) : exn + Answer :=
  let! result :=
    answerer w (get_research_topic (messages state))
      (Str.join (Str.nl +:+ "---" +:+ Str.nl +:+ Str.nl) (web_research_result state)) in
  inr {| ans_messages := [mkMessage AIMessage result];
         ans_sources_gathered := sources_gathered state |}.

(** Modelled from the spec: the same append-only reducers take the
    answer into the state the graph ends with. *)
Definition apply_answer (state : OverallState) (a : Answer) : OverallState :=
  {| messages := (messages state ++ ans_messages a)%list;
     search_query := search_query state;
     web_research_result := web_research_result state;
     sources_gathered := (sources_gathered state ++ ans_sources_gathered a)%list;
     initial_search_query_count := initial_search_query_count state;
     max_research_loops := max_research_loops state;
     research_loop_count := research_loop_count state |}.

Definition run_task (w : Oracles) (s : Send) : exn + Update :=
  match target s with
  | WebResearchNode => web_research (search w) (arg s)
  | KnowledgeBaseResearchNode => inr (knowledge_base_research (kb w) (arg s))
  end.

(** The tasks of a round, in the order of their [Send]s; an exception in
    one of them fails the round. *)
Fixpoint run_tasks (w : Oracles) (sends : list Send) : exn + list Update :=
  match sends with
  | [] => inr []
  | s :: rest =>
      let! u := run_task w s in
      let! us := run_tasks w rest in
      inr (u :: us)
  end.

(** Modelled from the spec: [agent/state.py], which says what state the
    graph hands to the router, is not among the sources.  The spec has the
    router compare the counter with the maxRounds that the run was given:
    a run that was given one under the key [max_research_loops] of its
    state has the router find it there.  For a run whose state lacks the
    key the router finds none whatever it is handed, and the budget is
    that of the configuration. *)
Definition handed_max_research_loops (state : OverallState) : option Z :=
  max_research_loops state.

(** What an observer of a run sees. *)
Inductive Event : Type :=
| Spawned (s : Send)
| Reflected (research_loop_count : Z)
| Finalized.

(** How a run ends: [finalize_answer] ran and the graph reached its end,
    with the state it ends in and what [finalize_answer] returned;
    an exception left a node; the router returned no task, so the graph
    had nothing left to run and [finalize_answer] never ran; or the
    model's fuel ran out. *)
Inductive Outcome : Type :=
| Finished (state : OverallState) (answer : Answer)
| Raised (e : exn)
| Halted (state : OverallState)
| OutOfFuel.

(** The budget in force in a state, and the counter as [reflection]
    reads it. *)
Definition budget_of (cfg : Configuration) (state : OverallState) : Z :=
  default (cfg_max_research_loops cfg) (max_research_loops state).

Definition count_of (state : OverallState) : Z :=
  default 0%Z (research_loop_count state).

(** The events of a round up to its reflection call. *)
Definition round_events (state1 : OverallState) (sends : list Send) : list Event :=
  (map Spawned sends ++ [Reflected (default 0%Z (research_loop_count state1) + 1)%Z])%list.

(** The edges of the graph from a fan-out on: the research nodes, then
    [reflection], then the router, then [finalize_answer] or the next
    fan-out. *)
Fixpoint research_loop (w : Oracles) (cfg : Configuration) (fuel : nat)
    (state : OverallState) (sends : list Send) : Outcome * list Event :=
  match sends with
  | [] => (Halted state, [])
  | _ :: _ =>
      match fuel with
      | O => (OutOfFuel, [])
      | S fuel' =>
          match run_tasks w sends with
          | inl e => (Raised e, map Spawned sends)
          | inr updates =>
              let state1 := fold_left apply_update updates state in
              let called := round_events state1 sends in
              match reflection w state1 with
              | inl e => (Raised e, called)
              | inr r =>
                  let state2 := apply_reflection state1 r in
                  match evaluate_research cfg (handed_max_research_loops state1) r with
                  | FinalizeAnswer =>
                      match finalize_answer w state2 with
                      | inl e => (Raised e, (called ++ [Finalized])%list)
                      | inr answer =>
                          (Finished (apply_answer state2 answer) answer,
                           (called ++ [Finalized])%list)
                      end
                  | Dispatch research_nodes =>
                      let '(outcome, events) :=
                        research_loop w cfg fuel' state2 research_nodes in
                      (outcome, (called ++ events)%list)
                  end
              end
          end
      end
  end.

(** The same loop as a relation between a fan-out and the way the run
    ends, one rule per path through a round. *)
Inductive loop_run (w : Oracles) (cfg : Configuration)
    : OverallState -> list Send -> Outcome -> list Event -> Prop :=
| loop_halt state :
    loop_run w cfg state [] (Halted state) []
| loop_task_raises state sends e :
    sends <> [] ->
    run_tasks w sends = inl e ->
    loop_run w cfg state sends (Raised e) (map Spawned sends)
| loop_reflection_raises state sends updates e :
    sends <> [] ->
    run_tasks w sends = inr updates ->
    reflection w (fold_left apply_update updates state) = inl e ->
    loop_run w cfg state sends (Raised e)
      (round_events (fold_left apply_update updates state) sends)
| loop_finalize_raises state sends updates r e :
    sends <> [] ->
    run_tasks w sends = inr updates ->
    reflection w (fold_left apply_update updates state) = inr r ->
    evaluate_research cfg
      (handed_max_research_loops (fold_left apply_update updates state)) r = FinalizeAnswer ->
    finalize_answer w (apply_reflection (fold_left apply_update updates state) r) = inl e ->
    loop_run w cfg state sends (Raised e)
      (round_events (fold_left apply_update updates state) sends ++ [Finalized])
| loop_finishes state sends updates r answer :
    sends <> [] ->
    run_tasks w sends = inr updates ->
    reflection w (fold_left apply_update updates state) = inr r ->
    evaluate_research cfg
      (handed_max_research_loops (fold_left apply_update updates state)) r = FinalizeAnswer ->
    finalize_answer w (apply_reflection (fold_left apply_update updates state) r) = inr answer ->
    loop_run w cfg state sends
      (Finished (apply_answer (apply_reflection (fold_left apply_update updates state) r) answer)
         answer)
      (round_events (fold_left apply_update updates state) sends ++ [Finalized])
| loop_continues state sends updates r research_nodes outcome events :
    sends <> [] ->
    run_tasks w sends = inr updates ->
    reflection w (fold_left apply_update updates state) = inr r ->
    evaluate_research cfg
      (handed_max_research_loops (fold_left apply_update updates state)) r
    = Dispatch research_nodes ->
    loop_run w cfg (apply_reflection (fold_left apply_update updates state) r)
      research_nodes outcome events ->
    loop_run w cfg state sends outcome
      (round_events (fold_left apply_update updates state) sends ++ events).

(** The state a run starts from: the conversation and the two optional
    overrides. *)
Definition initial_state (msgs : list Message) (count max_loops : option Z) : OverallState :=
  {| messages := msgs;
     search_query := [];
     web_research_result := [];
     sources_gathered := [];
     initial_search_query_count := count;
     max_research_loops := max_loops;
     research_loop_count := None |}.

(** The rounds a run can need: one, or as many as the budget. *)
Definition round_budget (cfg : Configuration) (state : OverallState) : nat :=
  S (Z.to_nat (default (cfg_max_research_loops cfg) (max_research_loops state))).

(** The graph from its entry point. *)
Definition run (w : Oracles) (cfg : Configuration) (state : OverallState)
    : Outcome * list Event :=
  match generate_query w cfg state with
  | inl e => (Raised e, [])
  | inr query_list =>
      research_loop w cfg (round_budget cfg state) state
        (continue_to_web_research query_list)
  end.

(** Readings of a trace. *)
Definition spawned_ids (events : list Event) : list Z :=
  flat_map (fun ev => match ev with Spawned s => [send_id s] | _ => [] end) events.

Definition reflected_counts (events : list Event) : list Z :=
  flat_map (fun ev => match ev with Reflected n => [n] | _ => [] end) events.

Definition finalizations (events : list Event) : nat :=
  length (List.filter (fun ev => match ev with Finalized => true | _ => false end) events).

End Graph.

(** ** The scenario of the specification *)

Module Scenario.

Import Utils Graph.

Definition topic : string := "what is X".
Definition q1 : string := "X definition".
Definition q2 : string := "X history".
Definition u1 : string := "https://u1.example/x".
Definition u2 : string := "https://u2.example/x".
Definition u3 : string := "https://u3.example/x".

(** A result whose snippet quotes its own address. *)
Definition hit (url : string) : SearchItem :=
  mkSearchItem ("X, see " +:+ url) url EmptyString.

(** The web search answers the first query with [r1], any other with
    [r2]. *)
Definition search_with (r1 r2 : list SearchItem) (st : WebSearchState)
    : exn + list SearchItem :=
  if String.eqb (ws_search_query st) q1 then inr r1 else inr r2.

Definition search_down (st : WebSearchState) : exn + list SearchItem :=
  inl "Search failed: quota exceeded".

Definition kb_timeout (st : WebSearchState) : KbOutcome :=
  Queried (inr (QueryError "Request timeout" true)).

(** A world: the two backends and the verdict the reflection model gives
    at every call.  The query writer returns the two queries. *)
Definition world (web : WebSearchState -> exn + list SearchItem)
    (base : WebSearchState -> KbOutcome) (verdict : Reflection) : Oracles :=
  {| search := web;
     kb := base;
     query_writer := fun _ _ => inr [q1; q2];
     reflector := fun _ _ _ => inr verdict;
     answerer := fun _ _ => inr "X is what the sources say." |}.

Definition start : OverallState :=
  initial_state [mkMessage HumanMessage topic] None None.

(** [initialQueryCount=2], and the round budget. *)
Definition config (max_rounds : Z) : Configuration := mkConfiguration 2 max_rounds.

(** The verdict that asks for more and names no query. *)
Definition stuck : Reflection := mkReflection false "nothing found" [].

(** The sources a run ends with: those [finalize_answer] returns, or
    those of the state in which the run halts. *)
Definition final_sources (r : Outcome * list Event) : list Source :=
  match r.1 with
  | Finished _ answer => ans_sources_gathered answer
  | Halted st => sources_gathered st
  | _ => []
  end.

Definition final_findings (r : Outcome * list Event) : list string :=
  match r.1 with
  | Finished st _ | Halted st => web_research_result st
  | _ => []
  end.

Definition finished (r : Outcome * list Event) : bool :=
  match r.1 with
  | Finished _ _ => true
  | _ => false
  end.

Definition halted (r : Outcome * list Event) : bool :=
  match r.1 with
  | Halted _ => true
  | _ => false
  end.

(** The reading of the specification: a registry gives a canonical value
    one short identifier. *)
Definition one_short_id_per_value (reg : list (string * string)) : Prop :=
  forall v s1 s2, (v, s1) ∈ reg -> (v, s2) ∈ reg -> s1 = s2.

Definition kb_timeout_text : string :=
  "Vector database search timed out after 30 seconds".

(** The verdict that asks for one more query. *)
Definition more : Reflection := mkReflection false "history of X" ["X origins"].

(** The scenario's world. *)
Definition scenario_world (verdict : Reflection) : Oracles :=
  world (search_with [hit u1; hit u2] [hit u1; hit u3]) kb_timeout verdict.

(** The pairs [(value, short_url)] of a source list. *)
Definition registry (sources : list Source) : list (string * string) :=
  map (fun s => (value s, short_url s)) sources.

(** The short identifiers in use, each once. *)
Definition short_ids (sources : list Source) : list string :=
  remove_dups (map short_url sources).

End Scenario.

(** ** More string primitives *)

Module Text.

(** [s.find(p)] as an option: the index of the first occurrence. *)
Fixpoint find (p s : string) : option nat :=
  if Str.startswith p s then Some 0
  else
    match s with
    | EmptyString => None
    | String _ s' => S <$> find p s'
    end.

(** [s.find(p)] as Python returns it: -1 when [p] does not occur. *)
Definition find_index (p s : string) : Z :=
  match find p s with
  | Some k => Z.of_nat k
  | None => (-1)%Z
  end.

(** [c in s] for a character. *)
Fixpoint has_char (c : ascii) (s : string) : bool :=
  match s with
  | EmptyString => false
  | String x s' => Ascii.eqb x c || has_char c s'
  end.

(** [s.split(c)[0]]: the text before the first [c] (all of [s] when there
    is none). *)
Fixpoint before_first (c : ascii) (s : string) : string :=
  match s with
  | EmptyString => EmptyString
  | String x s' => if Ascii.eqb x c then EmptyString else String x (before_first c s')
  end.

(** [s.rsplit(c, 1)[0]]: the text before the last [c] (all of [s] when
    there is none). *)
Fixpoint before_last (c : ascii) (s : string) : string :=
  match s with
  | EmptyString => EmptyString
  | String x s' =>
      if has_char c s' then String x (before_last c s')
      else if Ascii.eqb x c then EmptyString
      else s
  end.

(** [s[s.rfind(c) + 1:]]: the text after the last [c] (all of [s] when
    there is none). *)
Fixpoint after_last (c : ascii) (s : string) : string :=
  match s with
  | EmptyString => EmptyString
  | String x s' =>
      if has_char c s' then after_last c s'
      else if Ascii.eqb x c then s'
      else s
  end.

(** The longest prefix of characters that satisfy [P], and the rest. *)
Fixpoint span (P : ascii -> bool) (s : string) : string * string :=
  match s with
  | EmptyString => (EmptyString, EmptyString)
  | String x s' =>
      if P x then let '(a, b) := span P s' in (String x a, b)
      else (EmptyString, s)
  end.

(** The first [Some] that [f] gives on [s], on [s] without its first
    character, and so on down to the empty string: a leftmost search. *)
Fixpoint first_match {A : Type} (f : string -> option A) (s : string) : option A :=
  match f s with
  | Some a => Some a
  | None =>
      match s with
      | EmptyString => None
      | String _ s' => first_match f s'
      end
  end.

(** [c.isascii()]. *)
Definition is_ascii (c : ascii) : bool := (nat_of_ascii c <? 128)%nat.

(** Where [$] matches: at the end, or before a newline that ends the
    string. *)
Definition at_end (s : string) : bool :=
  String.eqb s EmptyString || String.eqb s Str.nl.

End Text.

(** ** [agent/utils.py]: reports and references *)

Module Report.

(** A source as the report functions read it: a dict whose keys may be
    missing ([source.get(key, default)]). *)
Record SourceDict : Type := mkSourceDict {
  d_value : option string;
  d_short_url : option string;
  d_label : option string
}.

(** The dict that [web_research] and [knowledge_base_research] build. *)
Definition of_source (s : Graph.Source) : SourceDict :=
  {| d_value := Some (Graph.value s);
     d_short_url := Some (Graph.short_url s);
     d_label := Some (Graph.label s) |}.

(** [source.get(key, "")]. *)
Definition get (field : option string) : string := default EmptyString field.

(** [bool(s)] for a string. *)
Definition nonempty (s : string) : bool :=
  match s with
  | EmptyString => false
  | String _ _ => true
  end.

Definition is_kb (source : SourceDict) : bool :=
  Str.startswith "[KB-" (get (d_short_url source)).

(** The description of one source in [format_research_citations]. *)
Definition source_desc (source : SourceDict) : string :=
  let value := get (d_value source) in
  let label := get (d_label source) in
  if is_kb source then
    if nonempty label && negb (Str.startswith "doc_" label) then
      let filename := if Text.has_char "." label then Text.before_last "." label else label in
      "Knowledge Base Document: " +:+ filename
    else "Knowledge Base: " +:+ value
  else if nonempty label then "Web Source: " +:+ label
  else "Web Source: " +:+ value.

Definition citations_header : string :=
  Str.nl +:+ Str.nl +:+ "Available Sources for Citation:" +:+ Str.nl.

Definition citations_footer : string :=
  Str.nl +:+ "Please use [#N] notation to cite sources in your response." +:+ Str.nl.

(** One turn of the loop over [enumerate(sources_gathered, 1)]; [idx]
    counts from 0 here. *)
Definition citation_line (formatted_sources : string) (entry : nat * SourceDict) : string :=
  let '(idx, source) := entry in
  formatted_sources +:+ "[#" +:+ Str.of_nat (idx + 1) +:+ "] " +:+ source_desc source +:+ Str.nl.

Definition format_research_citations (sources_gathered : list SourceDict) : string :=
  match sources_gathered with
  | [] => EmptyString
  | _ =>
      fold_left citation_line (enumerate sources_gathered) citations_header
        +:+ citations_footer
  end.

(** The regular expression [_(\d+)_auto_\d+\.md$] tried at the start of
    [t]; the result is its group.  A run of digits is followed in the
    pattern by a character that is no digit, so only the longest run can
    match.  [\d] is a Unicode decimal digit; over the characters of the
    embedding, the first 256 code points, these are 0 to 9
    ([Str.is_digit]), so the definition follows the code on the texts made
    of such characters, the ASCII ones among them. *)
Definition match_auto (t : string) : option string :=
  match t with
  | EmptyString => None
  | String c t1 =>
      if Ascii.eqb c "_" then
        let '(id, r1) := Text.span Str.is_digit t1 in
        if nonempty id && Str.startswith "_auto_" r1 then
          let '(n, r2) := Text.span Str.is_digit (Str.drop 6 r1) in
          if nonempty n && Str.startswith ".md" r2 && Text.at_end (Str.drop 3 r2)
          then Some id
          else None
        else None
      else None
  end.

(** The fallback [_(\d+)\.md$], in the same way and on the same texts. *)
Definition match_plain (t : string) : option string :=
  match t with
  | EmptyString => None
  | String c t1 =>
      if Ascii.eqb c "_" then
        let '(id, r1) := Text.span Str.is_digit t1 in
        if nonempty id && Str.startswith ".md" r1 && Text.at_end (Str.drop 3 r1)
        then Some id
        else None
      else None
  end.

(** [re.search] is the leftmost match; [os.path.basename] is the text
    after the last slash. *)
Definition extract_pubmed_id_from_kb_path (kb_path : string) : string :=
  let filename := Text.after_last "/" kb_path in
  match Text.first_match match_auto filename with
  | Some id => id
  | None =>
      match Text.first_match match_plain filename with
      | Some id => id
      | None => EmptyString
      end
  end.

Definition pubmed_url (pubmed_id : string) : string :=
  "https://pubmed.ncbi.nlm.nih.gov/" +:+ pubmed_id +:+ "/".

Definition format_kb_reference (kb_path label : string) : string :=
  let pubmed_id := extract_pubmed_id_from_kb_path kb_path in
  if nonempty pubmed_id then pubmed_url pubmed_id else kb_path.

(** The text of one reference; [idx] counts from 0 here. *)
Definition reference_text (idx : nat) (source : SourceDict) : string :=
  let value := get (d_value source) in
  let label := get (d_label source) in
  if is_kb source
  then "[" +:+ Str.of_nat (idx + 1) +:+ "] " +:+ format_kb_reference value label
  else "[" +:+ Str.of_nat (idx + 1) +:+ "] " +:+ value.

Definition references_header : string :=
  Str.nl +:+ Str.nl +:+ "## References" +:+ Str.nl +:+ Str.nl.

Definition references (sources_gathered : list SourceDict) : list string :=
  map (fun '(idx, source) => reference_text idx source) (enumerate sources_gathered).

Definition create_references_section (sources_gathered : list SourceDict) : string :=
  match sources_gathered with
  | [] => EmptyString
  | _ => references_header +:+ Str.join (Str.nl +:+ Str.nl) (references sources_gathered)
  end.

End Report.

(** ** [agent/utils.py]: content for the prompt *)

Module Prompt.

Import Report.

(** [sorted(items, key=key)]: ascending by key, and stable.  Insertion
    from the right puts an item before the first one whose key is not
    smaller. *)
Fixpoint insert_by {A : Type} (key : A -> Z) (x : A) (l : list A) : list A :=
  match l with
  | [] => [x]
  | y :: l' => if (key y <? key x)%Z then y :: insert_by key x l' else x :: y :: l'
  end.

Definition sorted_by {A : Type} (key : A -> Z) (l : list A) : list A :=
  fold_right (insert_by key) [] l.

(** [0 <= idx < len(sources_gathered)]. *)
Definition index_ok (sources_gathered : list SourceDict) (idx : Z) : bool :=
  (0 <=? idx)%Z && (idx <? Z.of_nat (length sources_gathered))%Z.

(** [source.get("short_url", f"[{idx}]")]. *)
Definition marker_of (source : SourceDict) (idx : Z) : string :=
  default ("[" +:+ Str.of_Z idx +:+ "]") (d_short_url source).

(** [bool(l)] for a list. *)
Definition nonempty_list {A : Type} (l : list A) : bool :=
  match l with
  | [] => false
  | _ :: _ => true
  end.

(** One turn of the loop of [create_traced_content_segments] over the
    sorted items of the mapping.  The lookup of the source cannot fail
    where it stands: the index has been checked. *)
Definition trace_step (sources_gathered : list SourceDict) (acc : string * string)
    (item : string * Z) : string * string :=
  let '(traced_content, remaining_content) := acc in
  let '(snippet, source_idx) := item in
  if Str.occurs snippet remaining_content && index_ok sources_gathered source_idx then
    match sources_gathered !! Z.to_nat source_idx with
    | Some source =>
        let snippet_start := Text.find_index snippet remaining_content in
        let traced_content :=
          if (0 <? snippet_start)%Z
          then traced_content +:+ Str.slice_to remaining_content snippet_start
          else traced_content in
        let source_marker := marker_of source source_idx in
        (traced_content +:+ snippet +:+ " " +:+ source_marker,
         Str.slice_from remaining_content
           (snippet_start + Z.of_nat (String.length snippet)))
    | None => acc
    end
  else acc.

(** The mapping is a dict: its items come in insertion order, as a list of
    pairs. *)
Definition create_traced_content_segments (content : string)
    (source_mapping : list (string * Z)) (sources_gathered : list SourceDict) : string :=
  if negb (nonempty content) || negb (nonempty_list source_mapping)
     || negb (nonempty_list sources_gathered)
  then content
  else
    let sorted_mappings :=
      sorted_by (fun x : string * Z => Text.find_index x.1 content) source_mapping in
    let '(traced_content, remaining_content) :=
      fold_left (trace_step sources_gathered) sorted_mappings (EmptyString, content) in
    traced_content +:+ remaining_content.

(** A content segment: a dict whose keys may be missing. *)
Record ContentSegment : Type := mkContentSegment {
  cs_content : option string;
  cs_source_indices : option (list Z)
}.

(** The inner loop of [prepare_content_with_citations]. *)
Definition marker_step (sources_gathered : list SourceDict) (citation_markers : list string)
    (idx : Z) : list string :=
  if index_ok sources_gathered idx then
    match sources_gathered !! Z.to_nat idx with
    | Some source => (citation_markers ++ [marker_of source idx])%list
    | None => citation_markers
    end
  else citation_markers.

(** One turn of its outer loop. *)
Definition prepare_step (sources_gathered : list SourceDict) (formatted_content : string)
    (segment : ContentSegment) : string :=
  let content := get (cs_content segment) in
  let source_indices := default [] (cs_source_indices segment) in
  if nonempty content then
    let formatted_content := formatted_content +:+ content in
    let formatted_content :=
      if nonempty_list source_indices then
        let citation_markers := fold_left (marker_step sources_gathered) source_indices [] in
        if nonempty_list citation_markers
        then formatted_content +:+ " " +:+ Str.join EmptyString citation_markers
        else formatted_content
      else formatted_content in
    formatted_content +:+ Str.nl +:+ Str.nl
  else formatted_content.

Definition prepare_content_with_citations (content_segments : list ContentSegment)
    (sources_gathered : list SourceDict) : string :=
  if negb (nonempty_list content_segments) || negb (nonempty_list sources_gathered)
  then EmptyString
  else fold_left (prepare_step sources_gathered) content_segments EmptyString.

Definition summary_separator : string :=
  Str.nl +:+ Str.nl +:+ "---RESEARCH SUMMARY---" +:+ Str.nl +:+ Str.nl.

(** The triple-quoted text of [enhance_research_summaries_with_citations]. *)
Definition citation_guidance : string :=
  Str.nl +:+ Str.nl +:+ "IMPORTANT CITATION GUIDANCE:" +:+ Str.nl
  +:+ "- The above summaries contain citation markers like [0], [1], [KB-1], [KB-2], etc." +:+ Str.nl
  +:+ "- When writing your response, you MUST preserve these exact citation markers" +:+ Str.nl
  +:+ "- Each citation marker corresponds to a specific source listed in "
  +:+ String (ascii_of_nat 34) "Available Sources for Citation" +:+ String (ascii_of_nat 34) EmptyString +:+ Str.nl
  +:+ "- Place citations immediately after the relevant claim or fact" +:+ Str.nl
  +:+ "- Do not invent new citation numbers - only use existing ones from the summaries" +:+ Str.nl
  +:+ "- If you reference information that doesn't have a citation marker in the summaries, try to identify which source it likely came from based on the source descriptions above"
  +:+ Str.nl.

Definition enhance_research_summaries_with_citations (summaries : list string)
    (sources_gathered : list SourceDict) : string :=
  match summaries with
  | [] => EmptyString
  | _ =>
      let combined_summaries := Str.join summary_separator summaries in
      let source_mapping := format_research_citations sources_gathered in
      if nonempty source_mapping
      then combined_summaries +:+ Str.nl +:+ Str.nl +:+ source_mapping +:+ citation_guidance
      else combined_summaries
  end.

End Prompt.

(** ** [agent/utils.py]: citations from grounding metadata *)

Module Grounding.

(** An attribute of an object of the response, as the code tests it:
    absent ([hasattr] is false), [None], or a value. *)
Inductive Attr (A : Type) : Type :=
| Missing : Attr A
| IsNone : Attr A
| Has (a : A) : Attr A.

Arguments Missing {A}.
Arguments IsNone {A}.
Arguments Has {A} a.

(** The exceptions that reading a response raises. *)
Inductive PyError : Type := AttributeError | IndexError | TypeError.

Definition bind {A B : Type} (m : PyError + A) (k : A -> PyError + B) : PyError + B :=
  match m with
  | inl e => inl e
  | inr a => k a
  end.

Notation "'let?' x ':=' m 'in' k" := (bind m (fun x => k))
  (at level 10, x name, m at level 100, k at level 200).

Record WebInfo : Type := mkWebInfo { w_uri : Attr string; w_title : Attr string }.
Record Chunk : Type := mkChunk { c_web : Attr WebInfo }.
Record SegmentInfo : Type := mkSegmentInfo { s_start_index : Attr Z; s_end_index : Attr Z }.
Record Support : Type := mkSupport {
  segment : Attr SegmentInfo;
  grounding_chunk_indices : Attr (list Z)
}.
Record GroundingMetadata : Type := mkGroundingMetadata {
  grounding_supports : Attr (list Support);
  grounding_chunks : Attr (list Chunk)
}.
Record Candidate : Type := mkCandidate { grounding_metadata : Attr GroundingMetadata }.
Record Response : Type := mkResponse { candidates : Attr (list Candidate) }.

(** An entry of a citation's ["segments"]; [None] is a possible value of
    ["short_url"] and of ["value"]. *)
Record Link : Type := mkLink {
  l_label : string;
  l_short_url : option string;
  l_value : option string
}.

Record Citation : Type := mkCitation {
  cit_start_index : Z;
  cit_end_index : Z;
  cit_segments : list Link
}.

(** [obj.attr]: [AttributeError] when the object has no such attribute;
    [None] is a value. *)
Definition getattr {A : Type} (a : Attr A) : PyError + option A :=
  match a with
  | Missing => inl AttributeError
  | IsNone => inr None
  | Has x => inr (Some x)
  end.

(** [l[i]]: a negative index counts from the end. *)
Definition index {A : Type} (l : list A) (i : Z) : PyError + A :=
  let j := if (i <? 0)%Z then (Z.of_nat (length l) + i)%Z else i in
  if (j <? 0)%Z then inl IndexError
  else
    match l !! Z.to_nat j with
    | Some x => inr x
    | None => inl IndexError
    end.

(** The body of the [try]: the link of the chunk at [ind].  The keys of
    the map are strings, so [None] is not one of them. *)
Definition chunk_link (md : GroundingMetadata) (resolved_urls_map : gmap string string)
    (ind : Z) : PyError + Link :=
  let? chunks := getattr (grounding_chunks md) in
  match chunks with
  | None => inl TypeError
  | Some chunks =>
      let? chunk := index chunks ind in
      let? web := getattr (c_web chunk) in
      match web with
      | None => inl AttributeError
      | Some web =>
          let? uri := getattr (w_uri web) in
          let resolved_url := uri ≫= (fun u => resolved_urls_map !! u) in
          let? title := getattr (w_title web) in
          match title with
          | None => inl AttributeError
          | Some title =>
              if Text.has_char "." title
              then inr (mkLink (Text.before_first "." title) resolved_url uri)
              else inl IndexError
          end
      end
  end.

(** One turn of the inner loop: [except (IndexError, AttributeError,
    NameError): pass]. *)
Definition link_step (md : GroundingMetadata) (resolved_urls_map : gmap string string)
    (acc : PyError + list Link) (ind : Z) : PyError + list Link :=
  let? links := acc in
  match chunk_link md resolved_urls_map ind with
  | inr link => inr (links ++ [link])%list
  | inl TypeError => inl TypeError
  | inl _ => inr links
  end.

(** One turn of the loop over the supports. *)
Definition support_step (md : GroundingMetadata) (resolved_urls_map : gmap string string)
    (acc : PyError + list Citation) (support : Support) : PyError + list Citation :=
  let? citations := acc in
  match segment support with
  | Missing | IsNone => inr citations
  | Has seg =>
      let? start := getattr (s_start_index seg) in
      let start_index := default 0%Z start in
      let? end_index := getattr (s_end_index seg) in
      match end_index with
      | None => inr citations
      | Some end_index =>
          let? links :=
            match grounding_chunk_indices support with
            | Has (ind :: inds) =>
                fold_left (link_step md resolved_urls_map) (ind :: inds) (inr [])
            | _ => inr []
            end in
          inr (citations ++ [mkCitation start_index end_index links])%list
      end
  end.

(** [response] is [None] or a response object. *)
Definition get_citations (response : option Response)
    (resolved_urls_map : gmap string string) : PyError + list Citation :=
  match response with
  | None => inr []
  | Some response =>
      let? candidates := getattr (candidates response) in
      match candidates with
      | None | Some [] => inr []
      | Some (candidate :: _) =>
          match grounding_metadata candidate with
          | Missing | IsNone => inr []
          | Has md =>
              match grounding_supports md with
              | Missing => inr []
              | IsNone => inl TypeError
              | Has supports =>
                  fold_left (support_step md resolved_urls_map) supports (inr [])
              end
          end
      end
  end.

End Grounding.

(** ** [agent/utils.py]: validation of the citations of a text *)

Module Validate.

Import Report.

(** The regular expression [\[(?:KB-\d+|\d+|#\d+)\]] tried at the start
    of [t]: the text it matches.  The three alternatives begin with
    different characters, and a run of digits is followed in the pattern by
    a closing bracket, so only the longest run can match.  As for the
    patterns of [Report], [\d] is read over the characters of the
    embedding, where the decimal digits are 0 to 9. *)
Definition match_citation (t : string) : option string :=
  match t with
  | EmptyString => None
  | String c t1 =>
      if Ascii.eqb c "[" then
        let '(prefix, t2) :=
          if Str.startswith "KB-" t1 then ("KB-", Str.drop 3 t1)
          else if Str.startswith "#" t1 then ("#", Str.drop 1 t1)
          else (EmptyString, t1) in
        let '(digits, t3) := Text.span Str.is_digit t2 in
        if nonempty digits && Str.startswith "]" t3
        then Some ("[" +:+ prefix +:+ digits +:+ "]")
        else None
      else None
  end.

(** [re.findall]: the matches from left to right, without overlap.
    [skip] counts the characters of a match that are still to be passed
    over. *)
Fixpoint findall_scan (skip : nat) (s : string) : list string :=
  match s with
  | EmptyString => []
  | String _ s' =>
      match skip with
      | S k => findall_scan k s'
      | O =>
          match match_citation s with
          | Some m => m :: findall_scan (String.length m - 1) s'
          | None => findall_scan 0 s'
          end
      end
  end.

Definition findall (content : string) : list string := findall_scan 0 content.

(** One turn of the loop that collects the markers of the sources. *)
Definition available_step (available_markers : gset string) (source : SourceDict)
    : gset string :=
  let marker := get (d_short_url source) in
  if nonempty marker then {[ marker ]} ∪ available_markers else available_markers.

(** One turn of the loop that sorts the citations found. *)
Definition validate_step (available_markers : gset string)
    (acc : list string * list string) (citation : string) : list string * list string :=
  let '(valid_citations, invalid_citations) := acc in
  if bool_decide (citation ∈ available_markers)
  then ((valid_citations ++ [citation])%list, invalid_citations)
  else (valid_citations, (invalid_citations ++ [citation])%list).

(** The dict that is returned.  [missing_sources] is a list made by
    iterating over a set: it has each of its elements once, in an order
    that the language does not fix, and is a set here.
    [citation_coverage] is the quotient of the two numbers of the pair, or
    0 when the second is 0. *)
Record Validation : Type := mkValidation {
  valid_citations : list string;
  invalid_citations : list string;
  missing_sources : gset string;
  citation_coverage : nat * nat
}.

Definition validate_citations_in_content (content : string)
    (sources_gathered : list SourceDict) : Validation :=
  let found_citations := findall content in
  let available_markers := fold_left available_step sources_gathered ∅ in
  let '(valid_citations, invalid_citations) :=
    fold_left (validate_step available_markers) found_citations ([], []) in
  let cited_markers : gset string := list_to_set found_citations in
  let missing_sources := filter (fun marker => marker ∉ cited_markers) available_markers in
  mkValidation valid_citations invalid_citations missing_sources
    (length valid_citations, size available_markers).

End Validate.

(** ** Readings used by the properties of the covered code *)

Module Extra.

(** The characters the loop of [insert_citation_markers] adds. *)
Definition markers_length (cits : list Utils.Citation) : nat :=
  fold_right (fun c n => String.length (Utils.marker_to_insert c) + n) 0 cits.

(** A document that the formatting loop of [knowledge_base_research]
    can read: it has the keys [score], [source], [content] and [id], its
    score is a number, its content is a string, and its metadata, when it
    has any, are a dict. *)
Definition readable (d : Graph.Document) : Prop :=
  (exists score, Graph.doc_score d = Some (inr score)) /\
  is_Some (Graph.doc_source d) /\
  (exists content, Graph.doc_content d = Some (inr content)) /\
  is_Some (Graph.doc_id d) /\
  (forall e, Graph.doc_metadata d <> Some (inl e)).

(** [s.endswith(p)], to say which file names the first pattern of
    [extract_pubmed_id_from_kb_path] leaves to the second. *)
Definition ends_with (p s : string) : bool :=
  (String.length p <=? String.length s)%nat &&
  String.eqb (Str.drop (String.length s - String.length p) s) p.

(** What the loop of [create_traced_content_segments] keeps true of its
    two variables: the content is a part already consumed followed by what
    remains, and the consumed part is a subsequence of the traced text. *)
Definition traced (content : string) (acc : string * string) : Prop :=
  exists consumed : string,
    content = consumed +:+ acc.2 /\ Str.subseq consumed acc.1.

(** A mapping item that the loop of [create_traced_content_segments]
    passes over on the whole content. *)
Definition idle (content : string) (sources_gathered : list Report.SourceDict)
    (item : string * Z) : Prop :=
  Str.occurs item.1 content = false \/ Prompt.index_ok sources_gathered item.2 = false.

(** A content segment without the indices that are not those of a
    source. *)
Definition with_valid_indices (sources_gathered : list Report.SourceDict)
    (segment : Prompt.ContentSegment) : Prompt.ContentSegment :=
  Prompt.mkContentSegment (Prompt.cs_content segment)
    (List.filter (Prompt.index_ok sources_gathered) <$> Prompt.cs_source_indices segment).

(** A source with a marker of the research nodes: [[i]] of [web_research]
    or [[KB-i]] of [knowledge_base_research]. *)
Definition research_marked (source : Report.SourceDict) : Prop :=
  exists i : nat,
    Report.d_short_url source = Some (Graph.web_marker i) \/
    Report.d_short_url source = Some (Graph.kb_marker i).

(** A grounding chunk that [resolve_urls] reads as the site: it has a
    [web] whose [uri] is the address of the site. *)
Definition reads_as (chunk : Grounding.Chunk) (site : Utils.Site) : Prop :=
  exists w : Grounding.WebInfo,
    Grounding.c_web chunk = Grounding.Has w /\
    Grounding.w_uri w = Grounding.Has (Utils.uri (Utils.web site)).

(** The indices that [get_citations] takes from a support, when it takes
    the support: one with a segment whose [end_index] is not [None]. *)
Definition span_of (support : Grounding.Support) : option (Z * Z) :=
  match Grounding.segment support with
  | Grounding.Has seg =>
      match Grounding.s_end_index seg with
      | Grounding.Has e =>
          Some (match Grounding.s_start_index seg with
                | Grounding.Has b => b
                | _ => 0%Z
                end, e)
      | _ => None
      end
  | _ => None
  end.

(** A support whose segment, if it has one, has both index attributes
    (their value may be [None]). *)
Definition has_indices (support : Grounding.Support) : Prop :=
  forall seg : Grounding.SegmentInfo,
    Grounding.segment support = Grounding.Has seg ->
    Grounding.s_start_index seg <> Grounding.Missing /\
    Grounding.s_end_index seg <> Grounding.Missing.

(** A chunk whose title, if it can be read, has no dot. *)
Definition dotless (chunk : Grounding.Chunk) : Prop :=
  forall (w : Grounding.WebInfo) (title : string),
    Grounding.c_web chunk = Grounding.Has w ->
    Grounding.w_title w = Grounding.Has title ->
    Text.has_char "." title = false.

End Extra.

(** ** A sample response with grounding metadata *)

Module Sample.

Import Grounding.

Definition sites : list Utils.Site :=
  [Utils.mkSite (Utils.mkWeb "https://a.example/x");
   Utils.mkSite (Utils.mkWeb "https://b.example/y");
   Utils.mkSite (Utils.mkWeb "https://a.example/x")].

Definition chunk (uri title : string) : Chunk :=
  mkChunk (Has (mkWebInfo (Has uri) (Has title))).

Definition chunks : list Chunk :=
  [chunk "https://a.example/x" "a.example";
   chunk "https://b.example/y" "b.example";
   chunk "https://a.example/x" "a.example"].

(** The same chunks with titles that have no dot. *)
Definition plain_chunks : list Chunk :=
  [chunk "https://a.example/x" "Example A";
   chunk "https://b.example/y" "Example B"].

Definition supports : list Support :=
  [mkSupport (Has (mkSegmentInfo IsNone (Has 5%Z))) (Has [2%Z; 9%Z; 1%Z]);
   mkSupport IsNone (Has [0%Z]);
   mkSupport (Has (mkSegmentInfo (Has 6%Z) IsNone)) (Has [0%Z]);
   mkSupport (Has (mkSegmentInfo (Has 6%Z) (Has 11%Z))) IsNone].

Definition metadata (chunks : list Chunk) : GroundingMetadata :=
  mkGroundingMetadata (Has supports) (Has chunks).

Definition response (chunks : list Chunk) : Response :=
  mkResponse (Has [mkCandidate (Has (metadata chunks))]).

End Sample.

(** * Properties *)

(** ** Strings *)

Section StringFacts.

Lemma str_app_nil_l (s : string) : EmptyString +:+ s = s.
Proof. reflexivity. Qed.

Lemma str_app_cons (c : ascii) (s t : string) : String c s +:+ t = String c (s +:+ t).
Proof. reflexivity. Qed.

Lemma str_app_empty_r (s : string) : s +:+ EmptyString = s.
Proof. induction s as [|c s IH]; [done|]. by rewrite str_app_cons, IH. Qed.

Lemma str_app_assoc (a b c : string) : (a +:+ b) +:+ c = a +:+ (b +:+ c).
Proof. induction a as [|x a IH]; [done|]. by rewrite !str_app_cons, IH. Qed.

Lemma str_app_length (a b : string) :
  String.length (a +:+ b) = String.length a + String.length b.
Proof. induction a as [|x a IH]; [done|]. rewrite str_app_cons. simpl. by rewrite IH. Qed.

Lemma str_app_inv_tail (x : string) :
  forall s t : string, s +:+ x = t +:+ x -> s = t.
Proof.
  intros s t H.
  assert (Hlen : String.length s = String.length t).
  { apply (f_equal String.length) in H. rewrite !str_app_length in H. lia. }
  revert t H Hlen.
  induction s as [|c s IH]; intros [|d t] H Hlen; try done.
  rewrite !str_app_cons in H. injection H as -> H. f_equal. apply IH; [done|].
  simpl in Hlen. lia.
Qed.

End StringFacts.

(** ** [get_research_topic] *)

Section ResearchTopic.

Import Utils.

Lemma topic_step_line (acc : string) (m : Message) :
  topic_step acc m = acc +:+ topic_line m.
Proof.
  unfold topic_step, topic_line. destruct (kind m); by rewrite ?str_app_empty_r.
Qed.

Lemma topic_fold (messages : list Message) :
  forall acc : string,
    fold_left topic_step messages acc = acc +:+ concat_lines (map topic_line messages).
Proof.
  induction messages as [|m ms IH]; intros acc; simpl.
  - by rewrite str_app_empty_r.
  - by rewrite IH, topic_step_line, str_app_assoc.
Qed.

Lemma topic_line_conversational (m : Message) :
  conversational m -> topic_line m = code_prefix (kind m) +:+ content m +:+ Str.nl.
Proof. unfold topic_line, conversational. by intros [-> | ->]. Qed.

End ResearchTopic.

(** C8, as the code has it.  A history of exactly one message gives that
    message's content.  Any other history gives the concatenation, in
    chronological order, of one line per human message (prefix [User: ]) and
    per model message (prefix [Assistant: ]); a message of another class
    contributes nothing.  When every message is a human or a model message
    this is the role-prefixed concatenation of all the messages. *)
Theorem get_research_topic_policy (messages : list Utils.Message) :
  (forall m : Utils.Message, messages = [m] ->
     Utils.get_research_topic messages = Utils.content m) /\
  (length messages ≠ 1 ->
     Utils.get_research_topic messages =
     Utils.concat_lines (map Utils.topic_line messages)) /\
  (length messages ≠ 1 -> Forall Utils.conversational messages ->
     Utils.get_research_topic messages =
     Utils.role_prefixed Utils.code_prefix messages).
Proof.
  assert (Hmulti : length messages ≠ 1 ->
            Utils.get_research_topic messages =
            Utils.concat_lines (map Utils.topic_line messages)).
  { intros Hlen. destruct messages as [|m [|m' ms]]; [done|done|].
    unfold Utils.get_research_topic. by rewrite topic_fold. }
  split; [|split]; [|exact Hmulti|].
  - by intros m ->.
  - intros Hlen Hall. rewrite (Hmulti Hlen). unfold Utils.role_prefixed. f_equal.
    clear Hlen Hmulti. induction Hall as [|m ms Hm _ IH]; simpl; [done|].
    by rewrite IH, topic_line_conversational.
Qed.

Lemma get_research_topic_policy_witness :
  let history :=
    [Utils.mkMessage Utils.HumanMessage "What is X?";
     Utils.mkMessage Utils.AIMessage "X is a letter.";
     Utils.mkMessage Utils.HumanMessage "And Y?"] in
  Utils.get_research_topic [Utils.mkMessage Utils.HumanMessage "What is X?"] = "What is X?" /\
  Utils.get_research_topic history = Utils.role_prefixed Utils.code_prefix history.
Proof.
  intros history. split.
  - destruct (get_research_topic_policy [Utils.mkMessage Utils.HumanMessage "What is X?"])
      as (Hsingle & _ & _).
    by apply (Hsingle (Utils.mkMessage Utils.HumanMessage "What is X?")).
  - destruct (get_research_topic_policy history) as (_ & _ & Hmulti).
    apply Hmulti; [simpl; lia|].
    repeat constructor; unfold Utils.conversational; simpl; tauto.
Defined.

(** C8 fails as stated: a history of a system message and a human message
    is not a single message, and its topic is not the role-prefixed
    concatenation of its messages, whatever prefix each role is given: the
    system message is left out. *)
Lemma get_research_topic_skips_system_message :
  let history :=
    [Utils.mkMessage Utils.SystemMessage "You are a careful research assistant.";
     Utils.mkMessage Utils.HumanMessage "What is X?"] in
  Utils.get_research_topic history = "User: What is X?" +:+ Str.nl /\
  ~ (exists role_prefix : Utils.MessageKind -> string,
       Utils.get_research_topic history = Utils.role_prefixed role_prefix history).
Proof.
  split; [reflexivity|].
  intros [role_prefix H]. apply (f_equal String.length) in H.
  unfold Utils.role_prefixed in H. simpl in H.
  rewrite !str_app_length in H. simpl in H. lia.
Qed.

(** ** [resolve_urls] *)

Section ResolveUrls.

Import Utils.

Variable id : Z.

Lemma short_url_of_inj (i j : nat) : short_url_of id i = short_url_of id j -> i = j.
Proof.
  unfold short_url_of, Str.of_nat. intros H.
  do 3 apply String.app_inj in H.
  by apply pretty_nat_inj in H.
Qed.

(** The short address spells the id out: two ids give one index two
    different short addresses. *)
Lemma short_url_of_id (other : Z) (i : nat) : short_url_of other i = short_url_of id i -> other = id.
Proof.
  unfold short_url_of, Str.of_Z. intros H.
  apply String.app_inj in H. rewrite <- !str_app_assoc in H.
  apply str_app_inv_tail, str_app_inv_tail in H.
  by apply pretty_Z_inj in H.
Qed.

(** The loop, from any index and any map: an address already in the map
    keeps its entry; another gets the index of its first occurrence. *)
Lemma resolve_fold_lookup (urls : list string) :
  forall (i : nat) (m0 : gmap string string) (u : string),
    fold_left (resolve_step id) (enumerate_from i urls) m0 !! u =
    match m0 !! u with
    | Some s => Some s
    | None => (fun hit : nat * string => short_url_of id (i + hit.1)) <$> list_find (fun x => x = u) urls
    end.
Proof.
  induction urls as [|url urls IH]; intros i m0 u; simpl.
  - by destruct (m0 !! u).
  - rewrite IH. unfold resolve_step.
    destruct (decide (url = u)) as [->|Hne].
    + destruct (m0 !! u) eqn:Hu; simpl.
      * by rewrite Hu.
      * rewrite lookup_insert_eq. by replace (i + 0) with i by lia.
    + assert (Hsame : (match m0 !! url with
                       | Some _ => m0
                       | None => <[url:=short_url_of id i]> m0
                       end) !! u = m0 !! u).
      { destruct (m0 !! url); [done|]. by rewrite lookup_insert_ne. }
      rewrite Hsame. destruct (m0 !! u); [done|].
      destruct (list_find (fun x => x = u) urls) as [[k x]|]; simpl; [|done].
      do 2 f_equal. lia.
Qed.

Lemma resolve_urls_lookup (sites : list Site) (u : string) :
  resolve_urls sites id !! u =
  (fun hit : nat * string => short_url_of id hit.1)
    <$> list_find (fun x => x = u) (map (fun site => uri (web site)) sites).
Proof.
  unfold resolve_urls, enumerate. rewrite resolve_fold_lookup, lookup_empty.
  by destruct (list_find _ _).
Qed.

End ResolveUrls.

(** C10.  The map that [resolve_urls] returns has exactly the addresses of
    the input as keys; each address is mapped to the short address
    [https://vertexaisearch.cloud.google.com/id/<id>-<idx>], with the id
    that was given and the index of the first occurrence of the address;
    two different addresses never get the same short address; and the
    short address of an address tells the id: under another id the
    address gets another one. *)
Theorem resolve_urls_first_occurrence (sites : list Utils.Site) (id : Z) :
  let urls := map (fun site => Utils.uri (Utils.web site)) sites in
  (forall u : string, is_Some (Utils.resolve_urls sites id !! u) <-> u ∈ urls) /\
  (forall (u : string) (idx : nat),
      urls !! idx = Some u ->
      (forall j : nat, j < idx -> urls !! j ≠ Some u) ->
      Utils.resolve_urls sites id !! u
      = Some ("https://vertexaisearch.cloud.google.com/id/" +:+ Str.of_Z id +:+ "-"
              +:+ Str.of_nat idx)) /\
  (forall u1 u2 s1 s2 : string,
      u1 ≠ u2 ->
      Utils.resolve_urls sites id !! u1 = Some s1 ->
      Utils.resolve_urls sites id !! u2 = Some s2 ->
      s1 ≠ s2) /\
  (forall (other : Z) (u s : string),
      Utils.resolve_urls sites id !! u = Some s ->
      Utils.resolve_urls sites other !! u = Some s ->
      other = id).
Proof.
  intros urls. split; [|split; [|split]].
  - intros u. rewrite resolve_urls_lookup. fold urls. split.
    + intros [s Hs]. apply fmap_Some in Hs as ([k x] & Hfind & _).
      apply list_find_Some in Hfind as (Hk & -> & _).
      by eapply list_elem_of_lookup_2.
    + intros Hin.
      destruct (list_find_elem_of (fun x => x = u) urls u Hin eq_refl) as [hit Hhit].
      rewrite Hhit. by eexists.
  - intros u idx Hidx Hfirst. rewrite resolve_urls_lookup. fold urls.
    assert (Hfind : list_find (fun x => x = u) urls = Some (idx, u)).
    { apply list_find_Some. split; [done|]. split; [done|].
      intros j y Hj Hlt ->. by apply (Hfirst j). }
    by rewrite Hfind.
  - intros u1 u2 s1 s2 Hne H1 H2 Heq. subst s2.
    rewrite resolve_urls_lookup in H1, H2. fold urls in H1, H2.
    apply fmap_Some in H1 as ([k1 x1] & Hf1 & ->).
    apply fmap_Some in H2 as ([k2 x2] & Hf2 & E).
    apply short_url_of_inj in E. simpl in E. subst k2.
    apply list_find_Some in Hf1 as (Hk1 & -> & _).
    apply list_find_Some in Hf2 as (Hk2 & -> & _).
    congruence.
  - intros other u s H1 H2.
    rewrite resolve_urls_lookup in H1, H2. fold urls in H1, H2.
    apply fmap_Some in H1 as ([k1 x1] & Hf1 & ->).
    apply fmap_Some in H2 as ([k2 x2] & Hf2 & E).
    rewrite Hf1 in Hf2. injection Hf2 as <- <-. simpl in E.
    symmetry in E. by apply short_url_of_id in E.
Qed.

Lemma resolve_urls_first_occurrence_witness :
  let sites :=
    [Utils.mkSite (Utils.mkWeb "https://a.example"); Utils.mkSite (Utils.mkWeb "https://b.example");
     Utils.mkSite (Utils.mkWeb "https://a.example")] in
  is_Some (Utils.resolve_urls sites 7 !! "https://a.example") /\
  Utils.resolve_urls sites 7 !! "https://a.example"
  = Some "https://vertexaisearch.cloud.google.com/id/7-0" /\
  Utils.resolve_urls sites 7 !! "https://b.example"
  = Some "https://vertexaisearch.cloud.google.com/id/7-1" /\
  Utils.resolve_urls sites (-12) !! "https://b.example"
  = Some "https://vertexaisearch.cloud.google.com/id/-12-1" /\
  Utils.resolve_urls sites 7 !! "https://c.example" = None /\
  (forall s1 s2,
     Utils.resolve_urls sites 7 !! "https://a.example" = Some s1 ->
     Utils.resolve_urls sites 7 !! "https://b.example" = Some s2 ->
     s1 <> s2) /\
  (forall s,
     Utils.resolve_urls sites 7 !! "https://b.example" = Some s ->
     Utils.resolve_urls sites 8 !! "https://b.example" <> Some s).
Proof.
  intros sites.
  destruct (resolve_urls_first_occurrence sites 7) as (Hkeys & Hfirst & Hdistinct & Hid).
  destruct (resolve_urls_first_occurrence sites (-12)) as (_ & Hfirst' & _).
  split; [|split; [|split; [|split; [|split; [|split]]]]].
  - apply Hkeys. by left.
  - by rewrite (Hfirst "https://a.example" 0 eq_refl); [|lia].
  - rewrite (Hfirst "https://b.example" 1 eq_refl); [done|].
    intros [|[|j]] Hj; [done|lia|lia].
  - rewrite (Hfirst' "https://b.example" 1 eq_refl); [done|].
    intros [|[|j]] Hj; [done|lia|lia].
  - apply eq_None_not_Some. intros Hsome. apply Hkeys in Hsome.
    by repeat (apply elem_of_cons in Hsome as [Hsome|Hsome]; [done|]); apply elem_of_nil in Hsome.
  - intros s1 s2. by apply Hdistinct.
  - intros s H7 H8. by pose proof (Hid 8%Z _ _ H7 H8).
Defined.

(** ** The loop *)

Section Loop.

Import Utils Graph.

Variable w : Oracles.
Variable cfg : Configuration.

Lemma zseq_length (n : nat) : forall a : Z, length (zseq a n) = n.
Proof. induction n as [|n IH]; intros a; simpl; by rewrite ?IH. Qed.

Lemma zseq_app (n m : nat) :
  forall a : Z, zseq a (n + m) = (zseq a n ++ zseq (a + Z.of_nat n) m)%list.
Proof.
  induction n as [|n IH]; intros a; simpl.
  - f_equal. lia.
  - rewrite IH. do 3 f_equal. lia.
Qed.

Lemma zseq_bounds (n : nat) :
  forall a x : Z, x ∈ zseq a n -> (a <= x < a + Z.of_nat n)%Z.
Proof.
  induction n as [|n IH]; intros a x Hx; simpl in Hx.
  - by apply elem_of_nil in Hx.
  - apply elem_of_cons in Hx as [-> | Hx]; [lia|]. apply IH in Hx. lia.
Qed.

Lemma zseq_NoDup (n : nat) : forall a : Z, NoDup (zseq a n).
Proof.
  induction n as [|n IH]; intros a; simpl; constructor; [|apply IH].
  intros Hin. apply zseq_bounds in Hin. lia.
Qed.

(** *** Fan-out *)

Lemma fan_out_ids (base : Z) (qs : list string) :
  forall i : nat,
    map send_id
      (flat_map (fun '(idx, q) => send_pair (base + Z.of_nat idx * 2) q) (enumerate_from i qs))
    = zseq (base + Z.of_nat i * 2) (2 * length qs).
Proof.
  induction qs as [|q qs IH]; intros i; [done|].
  cbn [enumerate_from flat_map length]. rewrite map_app, IH.
  replace (2 * S (length qs)) with (2 + 2 * length qs) by lia.
  rewrite zseq_app. cbn [app]. do 2 f_equal. lia.
Qed.

Lemma continue_to_web_research_ids (qs : list string) :
  map send_id (continue_to_web_research qs) = zseq 0 (2 * length qs).
Proof.
  exact (fan_out_ids 0 qs 0).
Qed.

Lemma evaluate_research_ids (o : option Z) (r : ReflectionState) (sends : list Send) :
  evaluate_research cfg o r = Dispatch sends ->
  map send_id sends = zseq (number_of_ran_queries r) (2 * length (follow_up_queries r)).
Proof.
  unfold evaluate_research.
  destruct (is_sufficient r || _); [done|]. intros [= <-].
  unfold enumerate. rewrite fan_out_ids. f_equal. lia.
Qed.

(** *** Tasks and updates *)

Lemma web_research_search_query (st : WebSearchState) (u : Update) :
  web_research (search w) st = inr u -> upd_search_query u = [ws_search_query st].
Proof.
  unfold web_research. destruct (search w st); [done|].
  destruct (web_process _). by intros [= <-].
Qed.

Lemma knowledge_base_research_search_query (st : WebSearchState) :
  upd_search_query (knowledge_base_research (kb w) st) = [ws_search_query st].
Proof.
  unfold knowledge_base_research.
  destruct (kb w st) as [|[e|[err [|]|[|d docs]]]]; try done.
  by destruct (kb_process _) as [e|[text srcs]].
Qed.

Lemma run_tasks_shape (sends : list Send) :
  forall us : list Update,
    run_tasks w sends = inr us ->
    length us = length sends /\ Forall (fun u => length (upd_search_query u) = 1) us.
Proof.
  induction sends as [|s sends IH]; intros us; simpl.
  - by intros [= <-].
  - unfold bind. destruct (run_task w s) as [e|u] eqn:Hu; [done|].
    destruct (run_tasks w sends) as [e|us'] eqn:Hus; [done|].
    intros [= <-]. destruct (IH us' eq_refl) as [Hlen Hall].
    split; [simpl; by rewrite Hlen|]. constructor; [|done].
    unfold run_task in Hu. destruct (target s).
    + by rewrite (web_research_search_query _ _ Hu).
    + injection Hu as <-. by rewrite knowledge_base_research_search_query.
Qed.

Lemma fold_apply_update_frame (us : list Update) :
  forall st : OverallState,
    let st' := fold_left apply_update us st in
    research_loop_count st' = research_loop_count st /\
    max_research_loops st' = max_research_loops st /\
    messages st' = messages st.
Proof.
  induction us as [|u us IH]; intros st; simpl; [done|].
  destruct (IH (apply_update st u)) as (H1 & H2 & H3). by rewrite H1, H2, H3.
Qed.

Lemma fold_apply_update_queries (us : list Update) :
  forall st : OverallState,
    Forall (fun u => length (upd_search_query u) = 1) us ->
    length (search_query (fold_left apply_update us st))
    = length (search_query st) + length us.
Proof.
  induction us as [|u us IH]; intros st Hall; simpl; [lia|].
  inversion Hall as [|? ? Hu Hus]; subst.
  rewrite (IH _ Hus). simpl. rewrite length_app, Hu. lia.
Qed.

(** *** Traces *)

Lemma spawned_ids_app (a b : list Event) :
  spawned_ids (a ++ b) = (spawned_ids a ++ spawned_ids b)%list.
Proof. unfold spawned_ids. by rewrite flat_map_app. Qed.

Lemma spawned_ids_spawned (sends : list Send) :
  spawned_ids (map Spawned sends) = map send_id sends.
Proof. induction sends as [|s sends IH]; simpl; by rewrite ?IH. Qed.

Lemma reflected_counts_app (a b : list Event) :
  reflected_counts (a ++ b) = (reflected_counts a ++ reflected_counts b)%list.
Proof. unfold reflected_counts. by rewrite flat_map_app. Qed.

Lemma reflected_counts_spawned (sends : list Send) :
  reflected_counts (map Spawned sends) = [].
Proof. induction sends as [|s sends IH]; simpl; by rewrite ?IH. Qed.

Lemma finalizations_app (a b : list Event) :
  finalizations (a ++ b) = finalizations a + finalizations b.
Proof. unfold finalizations. by rewrite List.filter_app, length_app. Qed.

Lemma finalizations_spawned (sends : list Send) :
  finalizations (map Spawned sends) = 0.
Proof. induction sends as [|s sends IH]; simpl; by rewrite ?IH. Qed.

End Loop.

Section LoopRuns.

Import Utils Graph.

Variable w : Oracles.
Variable cfg : Configuration.

(** One round of the function, for a fan-out that is not empty. *)
Lemma research_loop_round (fuel : nat) (st : OverallState) (sends : list Send) :
  sends <> [] ->
  research_loop w cfg (S fuel) st sends =
  match run_tasks w sends with
  | inl e => (Raised e, map Spawned sends)
  | inr updates =>
      let state1 := fold_left apply_update updates st in
      match reflection w state1 with
      | inl e => (Raised e, round_events state1 sends)
      | inr r =>
          match evaluate_research cfg (handed_max_research_loops state1) r with
          | FinalizeAnswer =>
              match finalize_answer w (apply_reflection state1 r) with
              | inl e => (Raised e, (round_events state1 sends ++ [Finalized])%list)
              | inr answer =>
                  (Finished (apply_answer (apply_reflection state1 r) answer) answer,
                   (round_events state1 sends ++ [Finalized])%list)
              end
          | Dispatch research_nodes =>
              let '(outcome, events) :=
                research_loop w cfg fuel (apply_reflection state1 r) research_nodes in
              (outcome, (round_events state1 sends ++ events)%list)
          end
      end
  end.
Proof. destruct sends; [done|reflexivity]. Qed.

(** The function follows the relation whenever its fuel lasts. *)
Lemma research_loop_sound (fuel : nat) :
  forall (st : OverallState) (sends : list Send) (o : Outcome) (evs : list Event),
    research_loop w cfg fuel st sends = (o, evs) ->
    o <> OutOfFuel ->
    loop_run w cfg st sends o evs.
Proof.
  induction fuel as [|fuel IH]; intros st sends o evs Hrun Hfuel.
  - destruct sends; simpl in Hrun; injection Hrun as <- <-; [constructor|done].
  - destruct (decide (sends = [])) as [->|Hne]; [injection Hrun as <- <-; constructor|].
    rewrite (research_loop_round _ _ _ Hne) in Hrun.
    destruct (run_tasks w sends) as [e|us] eqn:Htasks.
    { injection Hrun as <- <-. by constructor. }
    cbv zeta in Hrun.
    destruct (reflection w (fold_left apply_update us st)) as [e|r] eqn:Hrefl.
    { injection Hrun as <- <-. by eapply loop_reflection_raises. }
    destruct (evaluate_research cfg _ r) as [|sends'] eqn:Heval.
    + destruct (finalize_answer w _) as [e|st3] eqn:Hfin; injection Hrun as <- <-.
      * by eapply loop_finalize_raises.
      * by eapply loop_finishes.
    + destruct (research_loop w cfg fuel _ sends') as [o' evs'] eqn:Hrec.
      injection Hrun as <- <-.
      eapply loop_continues; eauto.
Qed.

Lemma reflection_inv (st : OverallState) (r : ReflectionState) :
  reflection w st = inr r ->
  rs_research_loop_count r = (count_of st + 1)%Z /\
  number_of_ran_queries r = Z.of_nat (length (search_query st)).
Proof.
  unfold reflection, bind. destruct (reflector w _ _ _); [done|]. by intros [= <-].
Qed.

Lemma evaluate_research_finalize (o : option Z) (r : ReflectionState) :
  evaluate_research cfg o r = FinalizeAnswer <->
  is_sufficient r = true \/
  (match o with Some m => m | None => cfg_max_research_loops cfg end
   <= rs_research_loop_count r)%Z.
Proof.
  unfold evaluate_research. cbv zeta.
  destruct (is_sufficient r); simpl; [by intuition|].
  destruct (Z.leb_spec (match o with Some m => m | None => cfg_max_research_loops cfg end)
              (rs_research_loop_count r));
    split; intros H'; try done; [by right|destruct H' as [?|?]; [done|lia]].
Qed.

(** The router on the state of a run: the budget is the one in force. *)
Lemma evaluate_research_budget (st : OverallState) (r : ReflectionState) :
  evaluate_research cfg (handed_max_research_loops st) r = FinalizeAnswer <->
  is_sufficient r = true \/ (budget_of cfg st <= rs_research_loop_count r)%Z.
Proof.
  rewrite evaluate_research_finalize. unfold handed_max_research_loops, budget_of.
  by destruct (max_research_loops st).
Qed.

Lemma reflected_counts_round (st1 : OverallState) (sends : list Send) :
  reflected_counts (round_events st1 sends) = [(count_of st1 + 1)%Z].
Proof.
  unfold round_events. by rewrite reflected_counts_app, reflected_counts_spawned.
Qed.

Lemma spawned_ids_round (st1 : OverallState) (sends : list Send) :
  spawned_ids (round_events st1 sends) = map send_id sends.
Proof.
  unfold round_events. rewrite spawned_ids_app, spawned_ids_spawned. apply app_nil_r.
Qed.

Lemma finalizations_round (st1 : OverallState) (sends : list Send) :
  finalizations (round_events st1 sends) = 0.
Proof.
  unfold round_events. by rewrite finalizations_app, finalizations_spawned.
Qed.

(** The state after the tasks of a round. *)
Lemma round_state (st : OverallState) (sends : list Send) (us : list Update) :
  run_tasks w sends = inr us ->
  let st1 := fold_left apply_update us st in
  count_of st1 = count_of st /\ budget_of cfg st1 = budget_of cfg st /\
  length (search_query st1) = length (search_query st) + length sends.
Proof.
  intros Htasks. destruct (run_tasks_shape w _ _ Htasks) as [Hlen Hall].
  destruct (fold_apply_update_frame us st) as (Hc & Hm & _).
  unfold count_of, budget_of. rewrite Hc, Hm.
  by rewrite (fold_apply_update_queries _ _ Hall), Hlen.
Qed.

(** The ordinals of a run continue those of the queries already made. *)
Lemma loop_run_ids (st : OverallState) (sends : list Send) (o : Outcome) (evs : list Event) :
  loop_run w cfg st sends o evs ->
  map send_id sends = zseq (Z.of_nat (length (search_query st))) (length sends) ->
  spawned_ids evs = zseq (Z.of_nat (length (search_query st))) (length (spawned_ids evs)).
Proof.
  induction 1 as [st|st sends e Hne Htasks|st sends us e Hne Htasks Hrefl
                 |st sends us r e Hne Htasks Hrefl Heval Hfin
                 |st sends us r st3 Hne Htasks Hrefl Heval Hfin
                 |st sends us r sends' o evs Hne Htasks Hrefl Heval Hrun IH];
    intros Hids.
  - done.
  - by rewrite spawned_ids_spawned, length_map.
  - by rewrite spawned_ids_round, length_map.
  - rewrite spawned_ids_app, spawned_ids_round. simpl. by rewrite app_nil_r, length_map.
  - rewrite spawned_ids_app, spawned_ids_round. simpl. by rewrite app_nil_r, length_map.
  - destruct (round_state st _ _ Htasks) as (_ & _ & Hlen).
    destruct (reflection_inv _ _ Hrefl) as (_ & Hran).
    pose proof (evaluate_research_ids cfg _ _ _ Heval) as Hids'.
    rewrite Hran in Hids'.
    assert (Hlen' : length sends' = 2 * length (follow_up_queries r)).
    { by rewrite <- (length_map send_id), Hids', zseq_length. }
    rewrite <- Hlen' in Hids'. simpl in IH. specialize (IH Hids').
    rewrite spawned_ids_app, spawned_ids_round, length_app, length_map, zseq_app.
    rewrite <- Hids. f_equal. rewrite IH at 1. f_equal. rewrite Hlen. lia.
Qed.

(** The counter at the [n]-th reflection call of a run is [n] more than
    at its start, and the state at the end holds the last one. *)
Lemma loop_run_counts (st : OverallState) (sends : list Send) (o : Outcome) (evs : list Event) :
  loop_run w cfg st sends o evs ->
  reflected_counts evs = zseq (count_of st + 1) (length (reflected_counts evs)) /\
  (forall (st' : OverallState) (a : Answer), o = Finished st' a \/ o = Halted st' ->
     count_of st' = (count_of st + Z.of_nat (length (reflected_counts evs)))%Z).
Proof.
  induction 1 as [st|st sends e Hne Htasks|st sends us e Hne Htasks Hrefl
                 |st sends us r e Hne Htasks Hrefl Heval Hfin
                 |st sends us r answer Hne Htasks Hrefl Heval Hfin
                 |st sends us r sends' o evs Hne Htasks Hrefl Heval Hrun IH].
  - split; [done|]. intros st' a [[=]|[= <-]]. simpl. lia.
  - rewrite reflected_counts_spawned. split; [done|]. by intros st' a [?|?].
  - destruct (round_state st _ _ Htasks) as (Hc & _ & _).
    rewrite reflected_counts_round, Hc. split; [done|]. by intros st' a [?|?].
  - destruct (round_state st _ _ Htasks) as (Hc & _ & _).
    rewrite reflected_counts_app, reflected_counts_round, Hc.
    split; [done|]. by intros st' a [?|?].
  - destruct (round_state st _ _ Htasks) as (Hc & _ & _).
    destruct (reflection_inv _ _ Hrefl) as (Hcount & _).
    rewrite reflected_counts_app, reflected_counts_round, Hc.
    split; [done|]. intros st' a [[= <- _]|?]; [|done].
    unfold count_of at 1. simpl. rewrite Hcount, Hc. lia.
  - destruct (round_state st _ _ Htasks) as (Hc & _ & _).
    destruct (reflection_inv _ _ Hrefl) as (Hcount & _).
    destruct IH as [IHc IHst].
    assert (Hc2 : count_of (apply_reflection (fold_left apply_update us st) r)
                  = (count_of st + 1)%Z).
    { unfold count_of at 1. simpl. by rewrite Hcount, Hc. }
    rewrite Hc2 in IHc, IHst.
    rewrite reflected_counts_app, reflected_counts_round, Hc. split.
    + simpl. f_equal. exact IHc.
    + intros st' a Ho. rewrite (IHst st' a Ho). simpl length. lia.
Qed.

(** A run that finishes went through [finalize_answer] once, as its
    last step; a run that halts never did. *)
Lemma loop_run_finalizations (st : OverallState) (sends : list Send) (o : Outcome)
    (evs : list Event) :
  loop_run w cfg st sends o evs ->
  (forall st' a, o = Finished st' a -> finalizations evs = 1) /\
  (forall st', o = Halted st' -> finalizations evs = 0).
Proof.
  induction 1 as [st|st sends e Hne Htasks|st sends us e Hne Htasks Hrefl
                 |st sends us r e Hne Htasks Hrefl Heval Hfin
                 |st sends us r answer Hne Htasks Hrefl Heval Hfin
                 |st sends us r sends' o evs Hne Htasks Hrefl Heval Hrun IH];
    try (split; intros; by simplify_eq).
  - split; [|by intros]. intros st' a _.
    by rewrite finalizations_app, finalizations_round.
  - destruct IH as [IHf IHh].
    split; intros; rewrite finalizations_app, finalizations_round; simpl; eauto.
Qed.

(** A round that is followed by another leaves room in the budget. *)
Lemma dispatch_below_budget (st : OverallState) (r : ReflectionState) (sends' : list Send) :
  reflection w st = inr r ->
  evaluate_research cfg (handed_max_research_loops st) r = Dispatch sends' ->
  (count_of st + 1 < budget_of cfg st)%Z.
Proof.
  intros Hrefl Heval. destruct (reflection_inv _ _ Hrefl) as (Hc & _).
  destruct (Z.lt_ge_cases (count_of st + 1) (budget_of cfg st)) as [?|Hge]; [done|].
  assert (Hfin : evaluate_research cfg (handed_max_research_loops st) r = FinalizeAnswer).
  { apply evaluate_research_budget. right. lia. }
  congruence.
Qed.

Lemma apply_reflection_inv (st : OverallState) (r : ReflectionState) :
  reflection w st = inr r ->
  count_of (apply_reflection st r) = (count_of st + 1)%Z /\
  budget_of cfg (apply_reflection st r) = budget_of cfg st.
Proof.
  intros Hrefl. destruct (reflection_inv _ _ Hrefl) as (Hc & _).
  unfold count_of at 1. simpl. by rewrite Hc.
Qed.

(** The rounds of a run: one, or no more than the budget left. *)
Lemma loop_run_rounds (st : OverallState) (sends : list Send) (o : Outcome) (evs : list Event) :
  loop_run w cfg st sends o evs ->
  (Z.of_nat (length (reflected_counts evs)) <= Z.max 1 (budget_of cfg st - count_of st))%Z.
Proof.
  induction 1 as [st|st sends e Hne Htasks|st sends us e Hne Htasks Hrefl
                 |st sends us r e Hne Htasks Hrefl Heval Hfin
                 |st sends us r st3 Hne Htasks Hrefl Heval Hfin
                 |st sends us r sends' o evs Hne Htasks Hrefl Heval Hrun IH];
    rewrite ?reflected_counts_app, ?reflected_counts_round, ?reflected_counts_spawned;
    simpl; try lia.
  destruct (round_state st _ _ Htasks) as (Hc & Hm & _).
  destruct (apply_reflection_inv _ _ Hrefl) as (Hc2 & Hm2).
  pose proof (dispatch_below_budget _ _ _ Hrefl Heval) as Hlt.
  rewrite Hc2, Hm2, Hc, Hm in IH. rewrite Hc, Hm in Hlt. lia.
Qed.

(** Enough fuel: the function never runs out when it has a unit of fuel
    for each round the budget allows. *)
Lemma research_loop_fuel (fuel : nat) :
  forall (st : OverallState) (sends : list Send),
    1 <= fuel ->
    Z.to_nat (budget_of cfg st - count_of st) <= fuel ->
    (research_loop w cfg fuel st sends).1 <> OutOfFuel.
Proof.
  induction fuel as [|fuel IH]; intros st sends Hpos Hfuel; [lia|].
  destruct (decide (sends = [])) as [->|Hne]; [done|].
  rewrite (research_loop_round _ _ _ Hne).
  destruct (run_tasks w sends) as [e|us] eqn:Htasks; [done|]. cbv zeta.
  destruct (reflection w (fold_left apply_update us st)) as [e|r] eqn:Hrefl; [done|].
  destruct (evaluate_research cfg _ r) as [|sends'] eqn:Heval.
  { by destruct (finalize_answer w _). }
  destruct (round_state st _ _ Htasks) as (Hc & Hm & _).
  destruct (apply_reflection_inv _ _ Hrefl) as (Hc2 & Hm2).
  pose proof (dispatch_below_budget _ _ _ Hrefl Heval) as Hlt.
  specialize (IH (apply_reflection (fold_left apply_update us st) r) sends').
  destruct (research_loop w cfg fuel _ sends') as [o' evs']. simpl in *.
  apply IH; rewrite ?Hc2, ?Hm2, ?Hc, ?Hm; rewrite Hc, Hm in Hlt; lia.
Qed.

(** *** Whole runs *)

(** A run from the entry point never runs out of fuel, so it is a run of
    the relation. *)
Lemma run_loop_run (msgs : list Message) (count max_loops : option Z)
    (qs : list string) (o : Outcome) (evs : list Event) :
  let st := initial_state msgs count max_loops in
  generate_query w cfg st = inr qs ->
  run w cfg st = (o, evs) ->
  loop_run w cfg st (continue_to_web_research qs) o evs.
Proof.
  intros st Hq Hrun. unfold run in Hrun. rewrite Hq in Hrun.
  apply (research_loop_sound _ _ _ _ _ Hrun).
  pose proof (research_loop_fuel (round_budget cfg st) st (continue_to_web_research qs)) as Hf.
  rewrite Hrun in Hf. apply Hf; unfold round_budget; fold (budget_of cfg st).
  - lia.
  - change (count_of st) with 0%Z. lia.
Qed.

(** Tasks whose searches return all return. *)
Lemma run_tasks_total (sends : list Send) :
  (forall s, s ∈ sends -> target s = WebResearchNode ->
             exists items, search w (arg s) = inr items) ->
  exists us, run_tasks w sends = inr us.
Proof.
  induction sends as [|s sends IH]; intros Hok; simpl; [by eexists|].
  destruct IH as [us Hus].
  { intros s' Hs'. apply Hok. by right. }
  rewrite Hus. unfold bind, run_task.
  destruct (target s) eqn:Ht; [|by eexists].
  destruct (Hok s (list_elem_of_here _ _) Ht) as [items Hitems].
  unfold web_research. rewrite Hitems. destruct (web_process items). by eexists.
Qed.

End LoopRuns.

(** ** Claims about the loop *)

(** C4.  [reflection] adds exactly one to the counter before it calls the
    model, so the counter at the n-th reflection call of a run is n and a
    run that finishes after N rounds holds N.  The router goes to
    [finalize_answer] exactly when the verdict is sufficient or the
    incremented counter has reached maxRounds: the [max_research_loops]
    that the router finds in its state or, when it finds none, that of the
    configuration.  A run that is given its maxRounds by the configuration
    therefore makes no more rounds than maxRounds, and at least the one
    whose counter the router sees: with maxRounds zero a run that finishes
    has made exactly one round, and a run whose query list is not empty and
    whose collaborators all return does finish. *)
Theorem round_counter_and_stop_rule (w : Graph.Oracles) (cfg : Graph.Configuration) :
  (forall st r,
     Graph.reflection w st = inr r ->
     Graph.rs_research_loop_count r = (Graph.count_of st + 1)%Z) /\
  (forall msgs count max_loops o evs,
     Graph.run w cfg (Graph.initial_state msgs count max_loops) = (o, evs) ->
     Graph.reflected_counts evs = zseq 1 (length (Graph.reflected_counts evs)) /\
     (forall st' a, o = Graph.Finished st' a ->
        Graph.count_of st' = Z.of_nat (length (Graph.reflected_counts evs)))) /\
  (forall found r,
     Graph.evaluate_research cfg found r = Graph.FinalizeAnswer <->
     Graph.is_sufficient r = true \/
     (match found with
      | Some max_rounds => max_rounds
      | None => Graph.cfg_max_research_loops cfg
      end <= Graph.rs_research_loop_count r)%Z) /\
  (forall msgs count o evs,
     Graph.run w cfg (Graph.initial_state msgs count None) = (o, evs) ->
     (Z.of_nat (length (Graph.reflected_counts evs))
      <= Z.max 1 (Graph.cfg_max_research_loops cfg))%Z) /\
  (forall msgs count o evs,
     Graph.cfg_max_research_loops cfg = 0%Z ->
     Graph.run w cfg (Graph.initial_state msgs count None) = (o, evs) ->
     (forall st' a, o = Graph.Finished st' a ->
        Graph.reflected_counts evs = [1%Z] /\ Graph.finalizations evs = 1) /\
     (forall qs,
        Graph.generate_query w cfg (Graph.initial_state msgs count None) = inr qs ->
        qs <> [] ->
        (forall a, exists items, Graph.search w a = inr items) ->
        (forall n t s, exists v, Graph.reflector w n t s = inr v) ->
        (forall t s, exists a, Graph.answerer w t s = inr a) ->
        exists st' a, o = Graph.Finished st' a)).
Proof.
  assert (Hbudget_of : forall msgs count,
            Graph.budget_of cfg (Graph.initial_state msgs count None)
            = Graph.cfg_max_research_loops cfg) by done.
  split; [|split; [|split; [|split]]].
  - intros st r Hrefl. by destruct (reflection_inv w _ _ Hrefl).
  - intros msgs count max_loops o evs Hrun.
    destruct (Graph.generate_query w cfg (Graph.initial_state msgs count max_loops))
      as [e|qs] eqn:Hq.
    { unfold Graph.run in Hrun. rewrite Hq in Hrun. injection Hrun as <- <-. by split. }
    pose proof (run_loop_run w cfg _ _ _ _ _ _ Hq Hrun) as Hloop.
    destruct (loop_run_counts w cfg _ _ _ _ Hloop) as [Hcounts Hend].
    split; [exact Hcounts|]. intros st' a ->. rewrite (Hend st' a); [|by left]. done.
  - apply evaluate_research_finalize.
  - intros msgs count o evs Hrun. rewrite <- (Hbudget_of msgs count).
    set (st := Graph.initial_state msgs count None) in *.
    destruct (Graph.generate_query w cfg st) as [e|qs] eqn:Hq.
    { unfold Graph.run in Hrun. rewrite Hq in Hrun. injection Hrun as <- <-. simpl. lia. }
    pose proof (run_loop_run w cfg _ _ _ _ _ _ Hq Hrun) as Hloop. fold st in Hloop.
    pose proof (loop_run_rounds w cfg _ _ _ _ Hloop) as Hrounds.
    change (Graph.count_of st) with 0%Z in Hrounds. by rewrite Z.sub_0_r in Hrounds.
  - intros msgs count o evs Hbudget Hrun.
    rewrite <- (Hbudget_of msgs count) in Hbudget.
    set (st := Graph.initial_state msgs count None) in *.
    destruct (Graph.generate_query w cfg st) as [e|qs] eqn:Hq.
    { unfold Graph.run in Hrun. rewrite Hq in Hrun. injection Hrun as <- <-. by split. }
    pose proof (run_loop_run w cfg _ _ _ _ _ _ Hq Hrun) as Hloop. fold st in Hloop.
    pose proof (loop_run_rounds w cfg _ _ _ _ Hloop) as Hrounds.
    destruct (loop_run_counts w cfg _ _ _ _ Hloop) as [Hcounts _].
    destruct (loop_run_finalizations w cfg _ _ _ _ Hloop) as [Hfin _].
    rewrite Hbudget in Hrounds. change (Graph.count_of st) with 0%Z in Hrounds, Hcounts.
    split.
    + intros st' a ->. split; [|by eapply Hfin].
      inversion Hloop; subst;
        rewrite ?reflected_counts_app, ?reflected_counts_round in *; simpl in *.
      * rewrite Hcounts. done.
      * destruct (Graph.reflected_counts events) as [|c cs]; [|simpl in Hrounds; lia].
        by rewrite Hcounts.
    + intros qs' Hq' Hne Hsearch Hreflect Hanswer.
      assert (qs' = qs) as -> by congruence. clear Hq'.
      unfold Graph.run in Hrun. rewrite Hq in Hrun.
      unfold Graph.round_budget in Hrun. fold (Graph.budget_of cfg st) in Hrun.
      rewrite Hbudget in Hrun. simpl Z.to_nat in Hrun.
      assert (Hsends : Graph.continue_to_web_research qs <> []).
      { destruct qs; [done|]. discriminate. }
      rewrite (research_loop_round w cfg _ _ _ Hsends) in Hrun.
      destruct (run_tasks_total w (Graph.continue_to_web_research qs)) as [us Hus].
      { intros s _ _. apply Hsearch. }
      rewrite Hus in Hrun. cbv zeta in Hrun.
      destruct (round_state w cfg st _ _ Hus) as (Hc & Hm & _).
      destruct (Graph.reflection w (fold_left Graph.apply_update us st)) as [e|r] eqn:Hrefl.
      { unfold Graph.reflection, Graph.bind in Hrefl.
        match type of Hrefl with
        | context [Graph.reflector w ?n ?t ?s] =>
            destruct (Hreflect n t s) as [v Hv]; rewrite Hv in Hrefl
        end.
        done. }
      destruct (reflection_inv w _ _ Hrefl) as (Hcount & _).
      assert (Heval : Graph.evaluate_research cfg
                        (Graph.handed_max_research_loops (fold_left Graph.apply_update us st)) r
                      = Graph.FinalizeAnswer).
      { apply evaluate_research_budget. right. rewrite Hcount, Hm, Hc, Hbudget.
        change (Graph.count_of st) with 0%Z. lia. }
      rewrite Heval in Hrun.
      unfold Graph.finalize_answer, Graph.bind in Hrun.
      match type of Hrun with
      | context [Graph.answerer w ?t ?s] => destruct (Hanswer t s) as [a Ha]; rewrite Ha in Hrun
      end.
      injection Hrun as <- _. by do 2 eexists.
Qed.

(** With maxRounds 3 and a model that always asks for one more query, the
    router sends the run on at the counters 1 and 2 and ends it at 3; a
    [max_research_loops] of 1 that the router finds in its state goes
    before the 3 of the configuration; and with maxRounds 0 the run makes
    its one round. *)
Lemma round_counter_and_stop_rule_witness :
  Graph.reflected_counts
    (Graph.run (Scenario.scenario_world Scenario.more) (Scenario.config 3) Scenario.start).2
  = [1; 2; 3]%Z /\
  Graph.evaluate_research (Scenario.config 3) None
    (Graph.mkReflectionState false "history of X" ["X origins"] 2 8)
  <> Graph.FinalizeAnswer /\
  Graph.evaluate_research (Scenario.config 3) None
    (Graph.mkReflectionState false "history of X" ["X origins"] 3 10)
  = Graph.FinalizeAnswer /\
  Graph.evaluate_research (Scenario.config 3) (Some 1%Z)
    (Graph.mkReflectionState false "history of X" ["X origins"] 1 4)
  = Graph.FinalizeAnswer /\
  Graph.reflected_counts
    (Graph.run (Scenario.scenario_world Scenario.stuck) (Scenario.config 0) Scenario.start).2
  = [1%Z] /\
  Graph.finalizations
    (Graph.run (Scenario.scenario_world Scenario.stuck) (Scenario.config 0) Scenario.start).2
  = 1.
Proof.
  destruct (round_counter_and_stop_rule (Scenario.scenario_world Scenario.more)
              (Scenario.config 3)) as (_ & Hcounts & Hrule & _ & _).
  destruct (round_counter_and_stop_rule (Scenario.scenario_world Scenario.stuck)
              (Scenario.config 0)) as (_ & _ & _ & _ & Hzero).
  split; [|split; [|split; [|split]]].
  - set (r := Graph.run (Scenario.scenario_world Scenario.more) (Scenario.config 3)
                Scenario.start).
    destruct (Hcounts [Utils.mkMessage Utils.HumanMessage Scenario.topic] None None r.1 r.2)
      as [Hseq _]; [apply surjective_pairing|].
    rewrite Hseq. by vm_compute.
  - intros [Hs|Hle]%Hrule; [done|simpl in Hle; lia].
  - apply Hrule. right. simpl. lia.
  - apply Hrule. right. simpl. lia.
  - set (r := Graph.run (Scenario.scenario_world Scenario.stuck) (Scenario.config 0)
                Scenario.start).
    destruct (Hzero [Utils.mkMessage Utils.HumanMessage Scenario.topic] None r.1 r.2)
      as [Hone Hfinishes]; [reflexivity|apply surjective_pairing|].
    destruct (Hfinishes [Scenario.q1; Scenario.q2]) as (st' & a & Hst').
    + reflexivity.
    + done.
    + intros a. unfold Scenario.scenario_world, Scenario.world, Scenario.search_with. simpl.
      destruct (String.eqb _ _); by eexists.
    + intros n t s. by eexists.
    + intros t s. by eexists.
    + by apply (Hone st' a).
Defined.

(** C5.  A fan-out over N queries spawns exactly 2N tasks; the first has
    the ordinals 0 .. 2N-1; a later one starts at the number of queries
    already run; and over a whole run the ordinals handed out are
    0, 1, 2, ... in order, so none is given twice. *)
Theorem fan_out_ordinals (w : Graph.Oracles) (cfg : Graph.Configuration) :
  (forall qs,
     length (Graph.continue_to_web_research qs) = 2 * length qs /\
     map Graph.send_id (Graph.continue_to_web_research qs) = zseq 0 (2 * length qs)) /\
  (forall found r sends,
     Graph.evaluate_research cfg found r = Graph.Dispatch sends ->
     length sends = 2 * length (Graph.follow_up_queries r) /\
     map Graph.send_id sends
     = zseq (Graph.number_of_ran_queries r) (2 * length (Graph.follow_up_queries r))) /\
  (forall st r,
     Graph.reflection w st = inr r ->
     Graph.number_of_ran_queries r = Z.of_nat (length (Graph.search_query st))) /\
  (forall msgs count max_loops o evs,
     Graph.run w cfg (Graph.initial_state msgs count max_loops) = (o, evs) ->
     Graph.spawned_ids evs = zseq 0 (length (Graph.spawned_ids evs)) /\
     NoDup (Graph.spawned_ids evs)).
Proof.
  split; [|split; [|split]].
  - intros qs. pose proof (continue_to_web_research_ids qs) as Hids.
    split; [|done]. by rewrite <- (length_map Graph.send_id), Hids, zseq_length.
  - intros found r sends Heval. pose proof (evaluate_research_ids cfg _ _ _ Heval) as Hids.
    split; [|done]. by rewrite <- (length_map Graph.send_id), Hids, zseq_length.
  - intros st r Hrefl. by destruct (reflection_inv w _ _ Hrefl) as (_ & ?).
  - intros msgs count max_loops o evs Hrun.
    assert (Hseq : Graph.spawned_ids evs = zseq 0 (length (Graph.spawned_ids evs))).
    { destruct (Graph.generate_query w cfg (Graph.initial_state msgs count max_loops))
        as [e|qs] eqn:Hq.
      { unfold Graph.run in Hrun. rewrite Hq in Hrun. by injection Hrun as <- <-. }
      pose proof (run_loop_run w cfg _ _ _ _ _ _ Hq Hrun) as Hloop.
      apply (loop_run_ids w cfg _ _ _ _ Hloop). simpl.
      rewrite continue_to_web_research_ids. f_equal.
      by rewrite <- (length_map Graph.send_id), continue_to_web_research_ids, zseq_length. }
    split; [done|]. rewrite Hseq. apply zseq_NoDup.
Qed.

Lemma fan_out_ordinals_witness :
  let r := Graph.run (Scenario.scenario_world Scenario.more) (Scenario.config 2) Scenario.start in
  length (Graph.continue_to_web_research [Scenario.q1; Scenario.q2]) = 4 /\
  Graph.spawned_ids r.2 = [0; 1; 2; 3; 4; 5]%Z /\
  NoDup (Graph.spawned_ids r.2).
Proof.
  intros r.
  destruct (fan_out_ordinals (Scenario.scenario_world Scenario.more) (Scenario.config 2))
    as (Hfirst & _ & _ & Hrun).
  split; [apply (Hfirst [Scenario.q1; Scenario.q2])|].
  destruct (Hrun [Utils.mkMessage Utils.HumanMessage Scenario.topic] None None r.1 r.2)
    as [Hseq Hnodup]; [apply surjective_pairing|].
  split; [|done]. rewrite Hseq. by vm_compute.
Defined.

Lemma loop_run_ends (w : Graph.Oracles) (cfg : Graph.Configuration)
    (st : Graph.OverallState) (sends : list Graph.Send) (o : Graph.Outcome)
    (evs : list Graph.Event) :
  Graph.loop_run w cfg st sends o evs -> o <> Graph.OutOfFuel.
Proof. induction 1; done. Qed.

(** A run from the entry point ends, and within a number of rounds that is
    the budget, or one when the budget is less. *)
Lemma run_terminates (w : Graph.Oracles) (cfg : Graph.Configuration)
    (msgs : list Utils.Message) (count max_loops : option Z) :
  let st := Graph.initial_state msgs count max_loops in
  (Graph.run w cfg st).1 <> Graph.OutOfFuel /\
  (Z.of_nat (length (Graph.reflected_counts (Graph.run w cfg st).2))
   <= Z.max 1 (Graph.budget_of cfg st))%Z.
Proof.
  intros st. destruct (Graph.run w cfg st) as [o evs] eqn:Hrun.
  destruct (Graph.generate_query w cfg st) as [e|qs] eqn:Hq.
  { unfold Graph.run in Hrun. rewrite Hq in Hrun. injection Hrun as <- <-. simpl. split; [done|lia]. }
  pose proof (run_loop_run w cfg _ _ _ _ _ _ Hq Hrun) as Hloop.
  pose proof (loop_run_rounds w cfg _ _ _ _ Hloop) as Hrounds.
  change (Graph.count_of (Graph.initial_state msgs count max_loops)) with 0%Z in Hrounds.
  rewrite Z.sub_0_r in Hrounds. split; [|exact Hrounds].
  simpl. by eapply loop_run_ends.
Qed.

(** Only a verdict that is not sufficient and names no follow-up query
    makes a run halt: when the reflection model never gives one, a run that
    starts with some task ends in [finalize_answer] or in an exception. *)
Lemma loop_run_never_halts (w : Graph.Oracles) (cfg : Graph.Configuration)
    (st : Graph.OverallState) (sends : list Graph.Send) (o : Graph.Outcome)
    (evs : list Graph.Event) :
  Graph.loop_run w cfg st sends o evs ->
  sends <> [] ->
  (forall n t s v, Graph.reflector w n t s = inr v ->
     Graph.r_is_sufficient v = false -> Graph.r_follow_up_queries v <> []) ->
  forall st', o <> Graph.Halted st'.
Proof.
  intros Hrun Hsends Hverdicts.
  induction Hrun as [st|st sends e Hne Htasks|st sends us e Hne Htasks Hrefl
                    |st sends us r e Hne Htasks Hrefl Heval Hfin
                    |st sends us r answer Hne Htasks Hrefl Heval Hfin
                    |st sends us r sends' o evs Hne Htasks Hrefl Heval Hrun IH];
    try done.
  apply IH. intros ->.
  unfold Graph.reflection, Graph.bind in Hrefl.
  destruct (Graph.reflector w _ _ _) as [e|v] eqn:Hv; [done|]. injection Hrefl as <-.
  unfold Graph.evaluate_research in Heval. simpl in Heval.
  destruct (Graph.r_is_sufficient v) eqn:Hsuff; [done|]. simpl in Heval.
  destruct (_ <=? _)%Z; [done|]. injection Heval as Heval.
  specialize (Hverdicts _ _ _ _ Hv Hsuff).
  destruct (Graph.r_follow_up_queries v); done.
Qed.

(** C3, at the failing input: with a budget of two rounds and a first
    verdict that is not sufficient and names no follow-up query, the router
    returns an empty list of tasks; the run ends after its first round
    without ever going through [finalize_answer]. *)
Theorem empty_follow_up_ends_without_finalizing :
  let r :=
    Graph.run
      (Scenario.world
         (Scenario.search_with [Scenario.hit Scenario.u1; Scenario.hit Scenario.u2]
            [Scenario.hit Scenario.u1; Scenario.hit Scenario.u3])
         Scenario.kb_timeout Scenario.stuck)
      (Scenario.config 2) Scenario.start in
  Scenario.halted r = true /\
  Scenario.finished r = false /\
  Graph.reflected_counts r.2 = [1%Z] /\
  Graph.finalizations r.2 = 0.
Proof. vm_compute. done. Qed.

(** C6 fails as stated: in the scenario the run ends with four source
    entries that carry two short identifiers, not three: the second results
    of the two queries, [u2] and [u3], both get the marker of position 1. *)
Lemma scenario_has_two_short_ids :
  let r :=
    Graph.run
      (Scenario.world
         (Scenario.search_with [Scenario.hit Scenario.u1; Scenario.hit Scenario.u2]
            [Scenario.hit Scenario.u1; Scenario.hit Scenario.u3])
         Scenario.kb_timeout Scenario.stuck)
      (Scenario.config 1) Scenario.start in
  Scenario.registry (Scenario.final_sources r)
  = [(Scenario.u1, "[0]"); (Scenario.u2, "[1]"); (Scenario.u1, "[0]"); (Scenario.u3, "[1]")] /\
  Scenario.short_ids (Scenario.final_sources r) = ["[0]"; "[1]"] /\
  length (Scenario.short_ids (Scenario.final_sources r)) <> 3.
Proof. vm_compute. repeat split; done. Qed.

(** C6, as the code has it.  In the scenario, whatever the order of each
    query's two results and whatever the verdict: the run finishes; its
    source list has four entries (one per result, [u1] twice) that carry
    exactly two short identifiers; the two knowledge-base findings are the
    timeout placeholder; the four tasks have the ordinals 0 to 3;
    reflection is called once, with the counter at 1; and the run goes
    straight to [finalize_answer]. *)
Theorem scenario_run (r1 r2 : list Graph.SearchItem) (verdict : Graph.Reflection)
    (H1 : Permutation [Scenario.hit Scenario.u1; Scenario.hit Scenario.u2] r1)
    (H2 : Permutation [Scenario.hit Scenario.u1; Scenario.hit Scenario.u3] r2) :
  let r :=
    Graph.run (Scenario.world (Scenario.search_with r1 r2) Scenario.kb_timeout verdict)
      (Scenario.config 1) Scenario.start in
  Scenario.finished r = true /\
  length (Scenario.final_sources r) = 4 /\
  Scenario.short_ids (Scenario.final_sources r) = ["[0]"; "[1]"] /\
  (exists web1 web2,
     Scenario.final_findings r
     = [web1; Scenario.kb_timeout_text; web2; Scenario.kb_timeout_text]) /\
  Graph.spawned_ids r.2 = [0; 1; 2; 3]%Z /\
  Graph.reflected_counts r.2 = [1%Z] /\
  Graph.finalizations r.2 = 1.
Proof.
  apply Permutation_length_2_inv in H1, H2.
  destruct verdict as [sufficient gap follow_ups].
  destruct H1 as [-> | ->], H2 as [-> | ->], sufficient;
    vm_compute; repeat split; try done; by do 2 eexists.
Qed.

Lemma scenario_run_witness :
  let r :=
    Graph.run
      (Scenario.world
         (Scenario.search_with [Scenario.hit Scenario.u1; Scenario.hit Scenario.u2]
            [Scenario.hit Scenario.u1; Scenario.hit Scenario.u3])
         Scenario.kb_timeout Scenario.stuck)
      (Scenario.config 1) Scenario.start in
  Scenario.finished r = true /\
  length (Scenario.final_sources r) = 4 /\
  Scenario.short_ids (Scenario.final_sources r) = ["[0]"; "[1]"] /\
  (exists web1 web2,
     Scenario.final_findings r
     = [web1; Scenario.kb_timeout_text; web2; Scenario.kb_timeout_text]) /\
  Graph.spawned_ids r.2 = [0; 1; 2; 3]%Z /\
  Graph.reflected_counts r.2 = [1%Z] /\
  Graph.finalizations r.2 = 1.
Proof.
  apply (scenario_run _ _ Scenario.stuck); apply Permutation_refl.
Defined.

(** ** Retrieval tasks *)

Section Retrieval.

Import Utils Graph.

Lemma enumerate_from_elem {A : Type} (l : list A) :
  forall (i idx : nat) (x : A),
    (idx, x) ∈ enumerate_from i l <-> exists k, idx = i + k /\ l !! k = Some x.
Proof.
  induction l as [|y l IH]; intros i idx x; simpl.
  - split; [by intros ?%elem_of_nil|by intros (k & _ & ?)].
  - rewrite elem_of_cons, IH. split.
    + intros [[= -> ->]|(k & -> & Hk)].
      * exists 0. split; [lia|done].
      * exists (S k). split; [lia|done].
    + intros ([|k] & -> & Hk).
      * left. injection Hk as <-. f_equal. lia.
      * right. exists k. split; [lia|done].
Qed.

(** The sources of the web loop do not depend on the text. *)
Lemma web_fold_sources (items : list SearchItem) :
  forall (i : nat) (srcs : list Source) (text : string),
    (fold_left web_item_step (enumerate_from i items) (srcs, text)).1
    = (srcs ++ web_sources_from i items)%list.
Proof.
  induction items as [|item items IH]; intros i srcs text; simpl.
  - by rewrite app_nil_r.
  - unfold web_sources_from. simpl. fold (web_sources_from (S i) items).
    destruct (link item) eqn:Hlink; simpl.
    + apply IH.
    + rewrite IH. by rewrite <- List.app_assoc.
Qed.

Lemma web_process_sources (items : list SearchItem) :
  (web_process items).1 = web_sources_from 0 items.
Proof. unfold web_process, enumerate. by rewrite web_fold_sources. Qed.

Lemma web_sources_elem (items : list SearchItem) (e : Source) :
  e ∈ web_sources_from 0 items <->
  exists idx item,
    items !! idx = Some item /\ link item <> EmptyString /\
    e = mkSource (link item) (web_marker idx) (web_label idx item).
Proof.
  unfold web_sources_from. rewrite list_elem_of_In, in_flat_map. split.
  - intros ([idx item] & Hin & He).
    apply list_elem_of_In, enumerate_from_elem in Hin as (k & -> & Hk).
    exists k, item. destruct (link item) eqn:Hlink; [done|].
    apply list_elem_of_In, list_elem_of_singleton in He. by subst e.
  - intros (idx & item & Hidx & Hlink & ->).
    exists (idx, item). split.
    + apply list_elem_of_In, enumerate_from_elem. by exists idx.
    + destruct (link item) eqn:Hl; [done|]. apply list_elem_of_In, list_elem_of_singleton. done.
Qed.

Lemma web_marker_inj (i j : nat) : web_marker i = web_marker j -> i = j.
Proof.
  unfold web_marker, Str.of_nat. intros H.
  by apply String.app_inj, str_app_inv_tail, pretty_nat_inj in H.
Qed.

Lemma kb_marker_inj (i j : nat) : kb_marker i = kb_marker j -> i = j.
Proof.
  unfold kb_marker, Str.of_nat. intros H.
  apply String.app_inj, str_app_inv_tail, pretty_nat_inj in H. lia.
Qed.

Lemma kb_fold_raised (entries : list (nat * Document)) (e : exn) :
  fold_left kb_doc_step entries (inl e) = inl e.
Proof. induction entries as [|[idx d] entries IH]; simpl; by rewrite ?IH. Qed.

(** A turn of the knowledge-base loop goes through for a document that
    can be read, and only for one. *)
Lemma kb_doc_step_inr (idx : nat) (d : Document) (text text' : string)
    (srcs srcs' : list Source) :
  kb_doc_step (inr (text, srcs)) (idx, d) = inr (text', srcs') ->
  exists score source content id,
    doc_score d = Some (inr score) /\ doc_source d = Some source /\
    doc_content d = Some (inr content) /\ doc_id d = Some id /\
    (forall e, doc_metadata d <> Some (inl e)) /\
    srcs' = (srcs ++ [mkSource source (kb_marker idx)
                        (default ("doc_" +:+ id) (doc_filename d))])%list /\
    text' = Str.replace content (Str.take 200 content +:+ "... " +:+ kb_marker idx)
              (text +:+ "Document " +:+ Str.of_nat (idx + 1)
                 +:+ " (Score: " +:+ score +:+ "):" +:+ Str.nl
                 +:+ "Source: " +:+ source +:+ Str.nl
                 +:+ "Content: " +:+ content +:+ Str.nl +:+ Str.nl).
Proof.
  unfold kb_doc_step, doc_filename. cbn [bind].
  destruct (doc_score d) as [[e|score]|]; cbn [getitem bind]; try done.
  destruct (doc_source d) as [source|]; cbn [getitem bind]; try done.
  destruct (doc_content d) as [[e|content]|]; cbn [getitem bind]; try done;
    (destruct (doc_metadata d) as [[e'|filename]|]; cbn [default from_option id bind]; try done;
     destruct (doc_id d) as [id|]; cbn [getitem bind]; try done).
  - intros [= <- <-]. exists score, source, content, id.
    repeat split; try done. by rewrite !str_app_assoc.
  - intros [= <- <-]. exists score, source, content, id.
    repeat split; try done. by rewrite !str_app_assoc.
Qed.

(** The sources of the knowledge-base loop, when it goes through. *)
Lemma kb_fold_sources (docs : list Document) :
  forall (i : nat) (text0 text : string) (srcs0 srcs : list Source),
    fold_left kb_doc_step (enumerate_from i docs) (inr (text0, srcs0)) = inr (text, srcs) ->
    exists new : list Source,
      srcs = (srcs0 ++ new)%list /\ length new = length docs /\
      forall k e, new !! k = Some e ->
        short_url e = kb_marker (i + k) /\
        exists d, docs !! k = Some d /\ doc_source d = Some (value e).
Proof.
  induction docs as [|d docs IH]; intros i text0 text srcs0 srcs; cbn [enumerate_from fold_left].
  - intros [= <- <-]. exists []. by rewrite app_nil_r.
  - destruct (kb_doc_step (inr (text0, srcs0)) (i, d)) as [e|[text1 srcs1]] eqn:Hstep.
    { by rewrite kb_fold_raised. }
    apply kb_doc_step_inr in Hstep
      as (score & source & content & id & _ & Hsource & _ & _ & _ & -> & _).
    intros Hfold. apply IH in Hfold as (new & -> & Hlen & Hnew).
    exists (mkSource source (kb_marker i) (default ("doc_" +:+ id) (doc_filename d)) :: new).
    split; [by rewrite <- List.app_assoc|]. split; [simpl; by rewrite Hlen|].
    intros [|k] e Hk; simpl in Hk.
    + injection Hk as <-. simpl. split; [by replace (i + 0) with i by lia|].
      exists d. by split.
    + destruct (Hnew k e Hk) as [Hmark Hdoc]. split; [|done].
      rewrite Hmark. f_equal. lia.
Qed.

Lemma kb_process_sources (docs : list Document) (text : string) (srcs : list Source) :
  kb_process docs = inr (text, srcs) ->
  length srcs = length docs /\
  forall k e, srcs !! k = Some e ->
    short_url e = kb_marker k /\
    exists d, docs !! k = Some d /\ doc_source d = Some (value e).
Proof.
  unfold kb_process, enumerate. intros H.
  apply kb_fold_sources in H as (new & -> & Hlen & Hnew). simpl. by split.
Qed.

(** Every way the knowledge base fails gives a placeholder. *)
Lemma kb_failure_placeholder (base : WebSearchState -> KbOutcome) (st : WebSearchState) :
  kb_failed (base st) ->
  exists text status progress,
    knowledge_base_research base st = kb_placeholder st text status progress.
Proof.
  unfold knowledge_base_research, kb_failed.
  destruct (base st) as [|[e|[err [|]|[|d docs]]]]; intros Hfail;
    try (by do 3 eexists).
  destruct Hfail as [e He]. rewrite He. by do 3 eexists.
Qed.

(** A round with a web task whose search raises fails as a whole. *)
Lemma run_tasks_web_raises (w : Oracles) (sends : list Send) (s : Send) (e : exn) :
  s ∈ sends -> target s = WebResearchNode -> search w (arg s) = inl e ->
  exists e', run_tasks w sends = inl e'.
Proof.
  induction sends as [|s' sends IH]; intros Hin Ht He; [by apply elem_of_nil in Hin|].
  simpl. unfold bind.
  destruct (run_task w s') as [e'|u] eqn:Hu; [by eexists|].
  apply elem_of_cons in Hin as [-> | Hin].
  - unfold run_task in Hu. rewrite Ht in Hu. unfold web_research in Hu. by rewrite He in Hu.
  - destruct (IH Hin Ht He) as [e' ->]. by eexists.
Qed.

End Retrieval.

(** C2 fails as stated: when the web search fails, [web_research] re-raises;
    the exception leaves the retrieval step and ends the run before any
    reflection. *)
Lemma web_failure_aborts_the_run :
  let r :=
    Graph.run (Scenario.world Scenario.search_down Scenario.kb_timeout Scenario.stuck)
      (Scenario.config 2) Scenario.start in
  r.1 = Graph.Raised "Search failed: quota exceeded" /\
  Graph.reflected_counts r.2 = [] /\
  Graph.finalizations r.2 = 0.
Proof. vm_compute. done. Qed.

(** C2, as the code has it.  Every failure of a knowledge-base retrieval
    (no tunnel, a timeout, an error answer, an exception, unreadable
    documents) is recovered in the task: it returns a placeholder finding
    with no sources.  A failure of a web retrieval is re-raised by
    [web_research]: the round fails with it and reflection is not reached.
    A round whose web searches all return goes on, with one finding per
    task, whatever the knowledge base did. *)
Theorem retrieval_failure_handling (w : Graph.Oracles) (cfg : Graph.Configuration) :
  (forall st,
     Graph.kb_failed (Graph.kb w st) ->
     Graph.upd_sources_gathered (Graph.knowledge_base_research (Graph.kb w) st) = [] /\
     Graph.upd_search_query (Graph.knowledge_base_research (Graph.kb w) st)
     = [Graph.ws_search_query st] /\
     exists text,
       Graph.upd_web_research_result (Graph.knowledge_base_research (Graph.kb w) st) = [text]) /\
  (forall st e,
     Graph.search w st = inl e -> Graph.web_research (Graph.search w) st = inl e) /\
  (forall sends s e fuel state,
     s ∈ sends -> Graph.target s = Graph.WebResearchNode -> Graph.search w (Graph.arg s) = inl e ->
     exists e',
       Graph.research_loop w cfg (S fuel) state sends = (Graph.Raised e', map Graph.Spawned sends)) /\
  (forall sends,
     (forall s, s ∈ sends -> Graph.target s = Graph.WebResearchNode ->
                exists items, Graph.search w (Graph.arg s) = inr items) ->
     exists updates,
       Graph.run_tasks w sends = inr updates /\ length updates = length sends /\
       Forall (fun u => length (Graph.upd_web_research_result u) = 1) updates).
Proof.
  split; [|split; [|split]].
  - intros st Hfail.
    destruct (kb_failure_placeholder _ _ Hfail) as (text & status & progress & ->).
    simpl. split; [done|]. split; [done|]. by eexists.
  - intros st e He. unfold Graph.web_research. by rewrite He.
  - intros sends s e fuel state Hin Ht He.
    destruct (run_tasks_web_raises w _ _ _ Hin Ht He) as [e' He'].
    exists e'. rewrite research_loop_round; [by rewrite He'|].
    intros ->. by apply elem_of_nil in Hin.
  - intros sends Hok. destruct (run_tasks_total w _ Hok) as [us Hus].
    exists us. split; [done|].
    destruct (run_tasks_shape w _ _ Hus) as [Hlen _]. split; [done|].
    clear Hok Hlen. revert us Hus.
    induction sends as [|s sends IH]; intros us; simpl.
    + by intros [= <-].
    + unfold Graph.bind. destruct (Graph.run_task w s) as [e|u] eqn:Hu; [done|].
      destruct (Graph.run_tasks w sends) as [e|us'] eqn:Hus'; [done|].
      intros [= <-]. constructor; [|by apply IH].
      unfold Graph.run_task in Hu. destruct (Graph.target s).
      * unfold Graph.web_research in Hu. destruct (Graph.search w _); [done|].
        destruct (Graph.web_process _). by injection Hu as <-.
      * injection Hu as <-. unfold Graph.knowledge_base_research.
        destruct (Graph.kb w _) as [|[e|[err [|]|[|d docs]]]]; try done.
        by destruct (Graph.kb_process _) as [e|[text srcs]].
Qed.

Lemma retrieval_failure_handling_witness :
  let state := Graph.mkWebSearchState Scenario.q1 1 in
  Graph.upd_sources_gathered (Graph.knowledge_base_research Scenario.kb_timeout state) = [] /\
  Graph.web_research Scenario.search_down state = inl "Search failed: quota exceeded".
Proof.
  intros state.
  destruct (retrieval_failure_handling
              (Scenario.world Scenario.search_down Scenario.kb_timeout Scenario.stuck)
              (Scenario.config 2)) as (Hkb & Hweb & _ & _).
  split.
  - by apply (Hkb state).
  - by apply (Hweb state).
Defined.

(** C1 fails as stated: in a run whose two queries return [u1] at
    different positions, the accumulated sources give [u1] two short
    identifiers. *)
Lemma same_source_two_short_ids :
  let r :=
    Graph.run
      (Scenario.world
         (Scenario.search_with [Scenario.hit Scenario.u1; Scenario.hit Scenario.u2]
            [Scenario.hit Scenario.u3; Scenario.hit Scenario.u1])
         Scenario.kb_timeout Scenario.stuck)
      (Scenario.config 1) Scenario.start in
  Scenario.registry (Scenario.final_sources r)
  = [(Scenario.u1, "[0]"); (Scenario.u2, "[1]"); (Scenario.u3, "[0]"); (Scenario.u1, "[1]")] /\
  ~ Scenario.one_short_id_per_value (Scenario.registry (Scenario.final_sources r)).
Proof.
  split; [by vm_compute|].
  intros Hone.
  assert (Heq : "[0]" = "[1]"); [|done].
  apply (Hone Scenario.u1); vm_compute; set_solver.
Qed.

(** C1, as the code has it.  A retrieval task names its sources by their
    position in its own result list: the web result at index [idx] with a
    link is recorded under the marker of [idx], and the knowledge-base
    document at index [idx] under the marker of [idx + 1].  The markers
    of different positions differ.  So two registrations of one canonical
    value get the same short identifier exactly when the value stands at the
    same position in both result lists; nothing is shared between tasks,
    queries or rounds. *)
Theorem short_ids_follow_positions :
  (forall items e,
     e ∈ (Graph.web_process items).1 <->
     exists idx item,
       items !! idx = Some item /\ Graph.link item <> EmptyString /\
       e = Graph.mkSource (Graph.link item) (Graph.web_marker idx) (Graph.web_label idx item)) /\
  (forall docs text srcs,
     Graph.kb_process docs = inr (text, srcs) ->
     length srcs = length docs /\
     forall idx e, srcs !! idx = Some e ->
       Graph.short_url e = Graph.kb_marker idx /\
       exists d, docs !! idx = Some d /\ Graph.doc_source d = Some (Graph.value e)) /\
  (forall i j, Graph.web_marker i = Graph.web_marker j <-> i = j) /\
  (forall i j, Graph.kb_marker i = Graph.kb_marker j <-> i = j).
Proof.
  split; [|split; [|split]].
  - intros items e. rewrite web_process_sources. apply web_sources_elem.
  - apply kb_process_sources.
  - intros i j. split; [apply web_marker_inj|by intros ->].
  - intros i j. split; [apply kb_marker_inj|by intros ->].
Qed.

Lemma short_ids_follow_positions_witness :
  let items := [Scenario.hit Scenario.u3; Scenario.hit Scenario.u1] in
  let docs :=
    [Graph.mkDocument (Some (inr "0.912")) (Some "/kb/a.md") (Some (inr "alpha")) (Some "17") None] in
  Graph.mkSource Scenario.u1 "[1]" "Source 2" ∈ (Graph.web_process items).1 /\
  (forall text srcs e,
     Graph.kb_process docs = inr (text, srcs) -> srcs !! 0 = Some e ->
     Graph.short_url e = "[KB-1]") /\
  Graph.web_marker 0 <> Graph.web_marker 1.
Proof.
  intros items docs.
  destruct short_ids_follow_positions as (Hweb & Hkb & Hinj & _).
  split; [|split].
  - apply Hweb. exists 1, (Scenario.hit Scenario.u1). by vm_compute.
  - intros text srcs e Hdocs He. destruct (Hkb docs text srcs Hdocs) as [_ Hsrc].
    by destruct (Hsrc 0 e He) as [-> _].
  - intros H. by apply Hinj in H.
Defined.

(** ** [insert_citation_markers] *)

Section Slices.

Lemma str_take_drop (n : nat) : forall s : string, Str.take n s +:+ Str.drop n s = s.
Proof.
  induction n as [|n IH]; intros [|c s]; try done.
  simpl. by rewrite str_app_cons, IH.
Qed.

Lemma str_take_length (n : nat) :
  forall s : string, n <= String.length s -> String.length (Str.take n s) = n.
Proof.
  induction n as [|n IH]; intros [|c s] Hn; simpl in *; try done; try lia.
  rewrite IH; lia.
Qed.

Lemma str_take_app (n : nat) :
  forall a b : string, n <= String.length a -> Str.take n (a +:+ b) = Str.take n a.
Proof.
  induction n as [|n IH]; intros [|c a] b Hn; simpl in *; try done; try lia.
  rewrite IH; [done|lia].
Qed.

Lemma str_drop_app (n : nat) :
  forall a b : string, n <= String.length a -> Str.drop n (a +:+ b) = Str.drop n a +:+ b.
Proof.
  induction n as [|n IH]; intros [|c a] b Hn; simpl in *; try done; try lia.
  apply IH. lia.
Qed.

Lemma slice_bound_in_range (len : nat) (i : Z) :
  (0 <= i <= Z.of_nat len)%Z -> Str.slice_bound len i = Z.to_nat i.
Proof.
  intros Hi. unfold Str.slice_bound.
  destruct (Z.ltb_spec i 0); lia.
Qed.

Lemma subseq_refl (s : string) : Str.subseq s s.
Proof. induction s; by constructor. Qed.

Lemma subseq_app_skip (m : string) : forall s t, Str.subseq s t -> Str.subseq s (m +:+ t).
Proof. induction m as [|c m IH]; intros s t H; [done|]. rewrite str_app_cons. constructor. by apply IH. Qed.

Lemma subseq_app (a a' b b' : string) :
  Str.subseq a a' -> Str.subseq b b' -> Str.subseq (a +:+ b) (a' +:+ b').
Proof.
  intros Ha Hb. induction Ha as [|c s t _ IH|c s t _ IH]; rewrite ?str_app_cons; try done;
    by constructor.
Qed.

Lemma subseq_trans (s t u : string) : Str.subseq s t -> Str.subseq t u -> Str.subseq s u.
Proof.
  intros Hst Htu. revert s Hst.
  induction Htu as [|c t u _ IH|c t u _ IH]; intros s Hst.
  - done.
  - inversion Hst; subst; constructor; by apply IH.
  - constructor. by apply IH.
Qed.

End Slices.

Section Citations.

Import Utils.

(** The inner loop writes one link for each segment, in their order. *)
Lemma marker_fold (l : list Segment) :
  forall acc : string,
    fold_left
      (fun acc segment =>
         acc +:+ " [" +:+ seg_label segment +:+ "](" +:+ render_opt (seg_short_url segment) +:+ ")")
      l acc
    = acc +:+ concat_lines (map link_text l).
Proof.
  induction l as [|x l IH]; intros acc; simpl.
  - by rewrite str_app_empty_r.
  - rewrite IH. unfold link_text, render_opt. by rewrite !str_app_assoc.
Qed.

Lemma marker_to_insert_links (c : Citation) : marker_to_insert c = citation_markers c.
Proof. unfold marker_to_insert, citation_markers. by rewrite marker_fold. Qed.

Lemma insert_step_in_range (text : string) (c : Citation) :
  in_range text c ->
  insert_step text c =
  Str.take (Z.to_nat (end_index c)) text +:+ marker_to_insert c
    +:+ Str.drop (Z.to_nat (end_index c)) text.
Proof.
  intros Hc. unfold insert_step, Str.slice_to, Str.slice_from.
  by rewrite (slice_bound_in_range _ _ Hc).
Qed.

Lemma insert_step_subseq (text : string) (c : Citation) :
  Str.subseq text (insert_step text c).
Proof.
  unfold insert_step, Str.slice_to, Str.slice_from.
  set (k := Str.slice_bound _ _).
  rewrite <- (str_take_drop k text) at 1.
  apply subseq_app; [apply subseq_refl|]. apply subseq_app_skip, subseq_refl.
Qed.

Lemma fold_insert_subseq (cs : list Citation) :
  forall text : string, Str.subseq text (fold_left insert_step cs text).
Proof.
  induction cs as [|c cs IH]; intros text; simpl; [apply subseq_refl|].
  eapply subseq_trans; [apply insert_step_subseq|apply IH].
Qed.

Lemma insert_step_length (text : string) (c : Citation) :
  String.length text <= String.length (insert_step text c).
Proof.
  unfold insert_step, Str.slice_to, Str.slice_from.
  set (k := Str.slice_bound _ _).
  rewrite <- (str_take_drop k text) at 1. rewrite !str_app_length. lia.
Qed.

(** An insertion within a prefix leaves what follows the prefix alone. *)
Lemma insert_step_app (a b : string) (c : Citation) :
  in_range a c -> insert_step (a +:+ b) c = insert_step a c +:+ b.
Proof.
  intros Hc.
  assert (Hab : in_range (a +:+ b) c).
  { unfold in_range in *. rewrite str_app_length. lia. }
  rewrite (insert_step_in_range _ _ Hc), (insert_step_in_range _ _ Hab).
  unfold in_range in Hc.
  rewrite str_take_app, str_drop_app by lia. by rewrite !str_app_assoc.
Qed.

Lemma fold_insert_app (cs : list Citation) :
  forall a b : string,
    Forall (in_range a) cs ->
    fold_left insert_step cs (a +:+ b) = fold_left insert_step cs a +:+ b.
Proof.
  induction cs as [|c cs IH]; intros a b Hall; simpl; [done|].
  inversion Hall as [|? ? Hc Hcs]; subst.
  rewrite (insert_step_app _ _ _ Hc). apply IH.
  eapply Forall_impl; [exact Hcs|].
  intros d Hd. unfold in_range in *. pose proof (insert_step_length a c). lia.
Qed.

(** *** The sort *)

Lemma insert_desc_elem (c : Citation) (l : list Citation) (d : Citation) :
  d ∈ insert_desc c l <-> d = c \/ d ∈ l.
Proof.
  induction l as [|x l IH]; simpl.
  - rewrite list_elem_of_singleton. split; [by left|]. intros [?|H]; [done|].
    by apply elem_of_nil in H.
  - destruct (key_ltb c x).
    + rewrite !elem_of_cons, IH. tauto.
    + rewrite !elem_of_cons. tauto.
Qed.

Lemma sorted_desc_elem (l : list Citation) (d : Citation) :
  d ∈ sorted_desc l <-> d ∈ l.
Proof.
  induction l as [|x l IH]; simpl; [done|].
  rewrite insert_desc_elem, IH, elem_of_cons. tauto.
Qed.

Lemma key_ltb_false (c d : Citation) : key_ltb c d = false -> ends_no_later c d.
Proof.
  unfold key_ltb, ends_no_later. intros H.
  apply orb_false_iff in H as [H _]. by apply Z.ltb_ge in H.
Qed.

Lemma key_ltb_true (c d : Citation) : key_ltb c d = true -> ends_no_later d c.
Proof.
  unfold key_ltb, ends_no_later. intros H.
  apply orb_true_iff in H as [H|H].
  - apply Z.ltb_lt in H. lia.
  - apply andb_true_iff in H as [H _]. apply Z.eqb_eq in H. lia.
Qed.

Lemma insert_desc_sorted (c : Citation) (l : list Citation) :
  StronglySorted ends_no_later l -> StronglySorted ends_no_later (insert_desc c l).
Proof.
  induction 1 as [|x l Hl IH Hx]; simpl; [by repeat constructor|].
  destruct (key_ltb c x) eqn:Hk.
  - constructor; [done|]. apply Forall_forall. intros d Hd.
    apply insert_desc_elem in Hd as [-> | Hd]; [by apply key_ltb_true|].
    by eapply Forall_forall in Hx.
  - apply key_ltb_false in Hk. constructor; [by constructor|].
    constructor; [done|]. eapply Forall_impl; [exact Hx|].
    intros d Hd. unfold ends_no_later in *. lia.
Qed.

Lemma sorted_desc_sorted (l : list Citation) : StronglySorted ends_no_later (sorted_desc l).
Proof. induction l as [|x l IH]; simpl; [constructor|by apply insert_desc_sorted]. Qed.

(** *** The weave *)

Lemma markers_at_app (cs ds : list Citation) (p : nat) :
  markers_at (cs ++ ds) p = markers_at cs p +:+ markers_at ds p.
Proof.
  induction cs as [|c cs IH]; simpl; [done|].
  destruct (end_index c =? Z.of_nat p)%Z; by rewrite IH, ?str_app_assoc.
Qed.

Lemma markers_at_none (cs : list Citation) (p : nat) :
  Forall (fun c => end_index c <> Z.of_nat p) cs -> markers_at cs p = EmptyString.
Proof.
  induction 1 as [|c cs Hc _ IH]; simpl; [done|].
  by destruct (Z.eqb_spec (end_index c) (Z.of_nat p)).
Qed.

(** Past every [end_index] the weave adds nothing. *)
Lemma weave_past (cs : list Citation) (s : string) :
  forall p : nat,
    Forall (fun c => (end_index c < Z.of_nat p)%Z) cs -> weave cs p s = s.
Proof.
  induction s as [|x s IH]; intros p Hall; simpl.
  - rewrite markers_at_none; [done|]. eapply Forall_impl; [exact Hall|]. simpl. lia.
  - rewrite markers_at_none, IH; [done| |].
    + eapply Forall_impl; [exact Hall|]. simpl. lia.
    + eapply Forall_impl; [exact Hall|]. simpl. lia.
Qed.

(** A citation that ends no earlier than the others and comes last in the
    list: its marker goes at its [end_index], and the others are woven into
    the text before it. *)
Lemma weave_last (cs : list Citation) (c : Citation) (s : string) :
  forall p k : nat,
    end_index c = Z.of_nat (p + k) ->
    k <= String.length s ->
    Forall (ends_no_later c) cs ->
    weave (cs ++ [c]) p s =
    weave cs p (Str.take k s) +:+ citation_markers c +:+ Str.drop k s.
Proof.
  induction s as [|x s IH]; intros p k Hend Hk Hall.
  - simpl in Hk. assert (k = 0) as -> by lia. simpl.
    rewrite markers_at_app. simpl.
    replace (p + 0) with p in Hend by lia. rewrite Hend, Z.eqb_refl.
    by rewrite !str_app_empty_r.
  - destruct k as [|k].
    + replace (p + 0) with p in Hend by lia.
      simpl. rewrite markers_at_app. simpl. rewrite Hend, Z.eqb_refl.
      rewrite weave_past.
      * by rewrite !str_app_empty_r, str_app_assoc.
      * apply Forall_app. split; [|constructor; [lia|constructor]].
        eapply Forall_impl; [exact Hall|]. unfold ends_no_later. simpl. lia.
    + simpl. rewrite markers_at_app. simpl.
      destruct (Z.eqb_spec (end_index c) (Z.of_nat p)) as [Heq|_]; [lia|].
      rewrite str_app_empty_r, (IH (S p) k); [|lia|simpl in Hk; lia|done].
      by rewrite !str_app_assoc.
Qed.

(** The loop over citations sorted by descending [end_index] weaves their
    markers into the text. *)
Lemma fold_insert_weave (cs : list Citation) :
  forall text : string,
    StronglySorted ends_no_later cs ->
    Forall (in_range text) cs ->
    fold_left insert_step cs text = weave (rev cs) 0 text.
Proof.
  induction cs as [|c cs IH]; intros text Hsorted Hall.
  - simpl. by rewrite weave_past.
  - inversion Hsorted as [|? ? Hcs Hc]; subst.
    inversion Hall as [|? ? Hrc Hrcs]; subst.
    simpl. rewrite (insert_step_in_range _ _ Hrc), marker_to_insert_links.
    set (k := Z.to_nat (end_index c)).
    assert (Hk : k <= String.length text) by (unfold in_range in Hrc; lia).
    assert (Hin : Forall (in_range (Str.take k text)) cs).
    { apply Forall_forall. intros d Hd. unfold in_range. rewrite str_take_length by done.
      eapply Forall_forall in Hc; [|exact Hd]. eapply Forall_forall in Hrcs; [|exact Hd].
      unfold ends_no_later, in_range in *. lia. }
    rewrite (fold_insert_app _ _ _ Hin), (IH _ Hcs Hin).
    rewrite (weave_last (rev cs) c text 0 k); [done| |done|].
    + unfold in_range in Hrc. lia.
    + apply Forall_forall. intros d Hd.
      apply list_elem_of_In, in_rev, list_elem_of_In in Hd.
      by eapply Forall_forall in Hc.
Qed.

Lemma weave_subseq (cs : list Citation) (s : string) :
  forall p : nat, Str.subseq s (weave cs p s).
Proof.
  induction s as [|x s IH]; intros p; simpl.
  - apply subseq_app_skip. constructor.
  - apply subseq_app_skip. constructor. apply IH.
Qed.

End Citations.

(** C9.  With no citation the text comes back unchanged.  When every
    [end_index] lies within the text, the result is the text with, at each
    position, the markers of the citations that end there (those of one
    position in the reverse of the order in which the loop takes them),
    the markers of a citation being one link [ [label](short_url)] for
    each of its segments; and so the text is a subsequence of the
    result. *)
Theorem insert_citation_markers_weaves (text : string) (cits : list Utils.Citation)
    (Hrange : Forall (Utils.in_range text) cits) :
  Utils.insert_citation_markers text [] = text /\
  Utils.insert_citation_markers text cits = Utils.text_with_markers text cits /\
  Str.subseq text (Utils.insert_citation_markers text cits).
Proof.
  split; [reflexivity|]. split; [|apply fold_insert_subseq].
  unfold Utils.insert_citation_markers, Utils.text_with_markers.
  apply fold_insert_weave; [apply sorted_desc_sorted|].
  apply Forall_forall. intros c Hc. apply (proj1 (sorted_desc_elem _ _)) in Hc.
  rewrite Forall_forall in Hrange. by apply Hrange.
Qed.

Lemma insert_citation_markers_weaves_witness :
  let text := "Rocq checks proofs." in
  let cits :=
    [Utils.mkCitation 0 4 [Utils.mkSegment "rocq" (Some "https://s/1-0") "https://rocq-prover.org"];
     Utils.mkCitation 5 18
       [Utils.mkSegment "kernel" None "https://k";
        Utils.mkSegment "checker" (Some "https://s/2-1") "https://c"];
     Utils.mkCitation 2 4 []] in
  Utils.text_with_markers text cits
  = "Rocq [rocq](https://s/1-0) checks proofs [kernel](None) [checker](https://s/2-1)." /\
  Utils.insert_citation_markers text cits
  = "Rocq [rocq](https://s/1-0) checks proofs [kernel](None) [checker](https://s/2-1)." /\
  Utils.insert_citation_markers text [] = text /\
  Str.subseq text (Utils.insert_citation_markers text cits).
Proof.
  intros text cits.
  assert (Hrange : Forall (Utils.in_range text) cits)
    by (repeat constructor; unfold Utils.in_range; simpl; lia).
  destruct (insert_citation_markers_weaves text cits Hrange) as (Hnone & Hweave & Hsub).
  split; [reflexivity|]. split; [|by split].
  rewrite Hweave. reflexivity.
Defined.

(** ** [str.replace] *)

Section Replace.

Lemma startswith_cons (a c : ascii) (p s : string) :
  Str.startswith (String a p) (String c s) = if Ascii.eqb a c then Str.startswith p s else false.
Proof. done. Qed.

Lemma startswith_app (p t : string) : Str.startswith p (p +:+ t) = true.
Proof.
  induction p as [|a p IH]; [done|]. rewrite str_app_cons. simpl.
  by rewrite Ascii.eqb_refl.
Qed.

Lemma startswith_split (p : string) :
  forall s : string, Str.startswith p s = true -> s = p +:+ Str.drop (String.length p) s.
Proof.
  induction p as [|a p IH]; intros [|c s] H; simpl in *; try done.
  destruct (Ascii.eqb_spec a c) as [->|]; [|done].
  rewrite str_app_cons. f_equal. by apply IH.
Qed.

Lemma occurs_cons (p : string) (c : ascii) (s : string) :
  Str.occurs p (String c s) = Str.startswith p (String c s) || Str.occurs p s.
Proof. done. Qed.

Lemma occurs_drop (p : string) (k : nat) :
  forall s : string, Str.occurs p s = false -> Str.occurs p (Str.drop k s) = false.
Proof.
  induction k as [|k IH]; intros [|c s] H; try done.
  simpl. apply IH. rewrite occurs_cons in H. by apply orb_false_iff in H as [_ H].
Qed.

(** An opening bracket does not occur in [s]: no character of [s] is one. *)
Lemma no_bracket_cons (c : ascii) (s : string) :
  Str.occurs "[" (String c s) = false <-> c <> "["%char /\ Str.occurs "[" s = false.
Proof.
  rewrite occurs_cons, startswith_cons.
  destruct (Ascii.eqb_spec "[" c) as [<-|Hne]; cbn [orb Str.startswith].
  - split; [done|]. by intros [? _].
  - split; [by intros ->|by intros [_ ->]].
Qed.

Section Scan.

Variables old new : string.
Hypothesis old_not_empty : old <> EmptyString.

Lemma replace_scan_skip :
  forall (s : string) (k : nat),
    Str.replace_scan old new k s = Str.replace_scan old new 0 (Str.drop k s).
Proof.
  induction s as [|c s IH]; intros [|k]; try done.
  simpl. apply IH.
Qed.

Lemma replace_empty : Str.replace old new EmptyString = EmptyString.
Proof. unfold Str.replace. by destruct old. Qed.

Lemma replace_miss (c : ascii) (s : string) :
  Str.startswith old (String c s) = false ->
  Str.replace old new (String c s) = String c (Str.replace old new s).
Proof.
  unfold Str.replace. destruct old as [|a o]; [done|].
  intros H. cbn [Str.replace_scan]. by rewrite H.
Qed.

Lemma replace_hit (s : string) :
  Str.startswith old s = true ->
  Str.replace old new s = new +:+ Str.replace old new (Str.drop (String.length old) s).
Proof.
  assert (Hunfold : forall t, Str.replace old new t = Str.replace_scan old new 0 t).
  { intros t. unfold Str.replace. by destruct old. }
  intros H. rewrite !Hunfold. destruct s as [|c s]; [by destruct old|].
  cbn [Str.replace_scan]. rewrite H. f_equal.
  rewrite replace_scan_skip. destruct old; [done|]. simpl. by rewrite Nat.sub_0_r.
Qed.

(** Induction along the scan. *)
Lemma replace_ind (P : string -> Prop) :
  P EmptyString ->
  (forall c s, Str.startswith old (String c s) = false -> P s -> P (String c s)) ->
  (forall s, Str.startswith old s = true -> P (Str.drop (String.length old) s) -> P s) ->
  forall s, P s.
Proof.
  intros Hnil Hmiss Hhit s.
  remember (String.length s) as n eqn:Hn. revert s Hn.
  induction n as [n IH] using lt_wf_ind. intros s Hn.
  destruct s as [|c s]; [done|].
  destruct (Str.startswith old (String c s)) eqn:Hs.
  - apply Hhit; [done|]. eapply IH; [|reflexivity]. subst n.
    rewrite (startswith_split _ _ Hs) at 2. rewrite str_app_length.
    destruct old; [done|]. simpl. lia.
  - apply Hmiss; [done|]. eapply IH; [|reflexivity]. subst n. simpl. lia.
Qed.

End Scan.

End Replace.

(** ** Markers in the text of a web finding *)

Section Markers.

Import Graph.

Lemma all_chars_impl (P Q : ascii -> bool) (s : string) :
  (forall c, P c = true -> Q c = true) -> Str.all_chars P s = true -> Str.all_chars Q s = true.
Proof.
  intros HPQ. induction s as [|c s IH]; simpl; [done|].
  intros [Hc Hs]%andb_true_iff. by rewrite (HPQ _ Hc), IH.
Qed.

Lemma all_chars_app (P : ascii -> bool) (s t : string) :
  Str.all_chars P (s +:+ t) = Str.all_chars P s && Str.all_chars P t.
Proof.
  induction s as [|c s IH]; [done|]. rewrite str_app_cons. simpl. by rewrite IH, andb_assoc.
Qed.

(** The decimal text of a number is made of digits. *)
Lemma pretty_N_go_digits (x : N) :
  forall s : string,
    Str.all_chars Str.is_digit s = true ->
    Str.all_chars Str.is_digit (pretty_N_go x s) = true.
Proof.
  induction (N.lt_wf_0 x) as [x _ IH]; intros s Hs.
  assert (x = 0 \/ 0 < x)%N as [->|Hx] by lia.
  - by rewrite pretty_N_go_0.
  - rewrite pretty_N_go_step by done. apply IH; [by apply N.div_lt|].
    simpl. rewrite Hs, andb_true_r.
    unfold pretty_N_char. by repeat case_match.
Qed.

Lemma of_nat_digits (n : nat) : Str.all_chars Str.is_digit (Str.of_nat n) = true.
Proof.
  unfold Str.of_nat, pretty, pretty_nat, pretty, pretty_N.
  case_decide; [done|]. by apply pretty_N_go_digits.
Qed.

Lemma web_marker_shape (idx : nat) :
  web_marker idx = String "[" (Str.of_nat idx +:+ "]").
Proof. done. Qed.

Lemma web_marker_chars (idx : nat) :
  Str.all_chars Str.marker_char (web_marker idx) = true.
Proof.
  assert (Hdigit : forall c, Str.is_digit c = true -> Str.marker_char c = true).
  { intros c Hc. unfold Str.marker_char. by rewrite Hc, orb_true_r. }
  rewrite web_marker_shape. cbn [Str.all_chars]. rewrite all_chars_app.
  by rewrite (all_chars_impl _ _ _ Hdigit (of_nat_digits idx)).
Qed.

(** *** The raw link disappears *)

(** A match of a bracket-free [p] at the head of a replaced text was
    already there before the replacement. *)
Lemma startswith_replace (old new' p : string) :
  old <> EmptyString ->
  Str.occurs "[" p = false ->
  forall s : string,
    Str.startswith p (Str.replace old (String "[" new') s) = true ->
    Str.startswith p s = true.
Proof.
  intros Hold. induction p as [|a p IH]; intros Hp s H; [done|].
  apply no_bracket_cons in Hp as [Ha Hp].
  destruct s as [|c s]; [by rewrite replace_empty in H|].
  destruct (Str.startswith old (String c s)) eqn:Hs.
  - rewrite (replace_hit _ _ Hold _ Hs), str_app_cons, startswith_cons in H.
    by destruct (Ascii.eqb_spec a "[").
  - rewrite (replace_miss _ _ Hold _ _ Hs) in H. rewrite startswith_cons in *.
    destruct (Ascii.eqb a c); [|done]. by apply IH.
Qed.

(** A text that begins with [a] does not begin inside a run of characters
    other than [a]. *)
Lemma occurs_past (a : ascii) (p m r : string) :
  Str.all_chars (fun x => negb (Ascii.eqb a x)) m = true ->
  Str.occurs (String a p) (m +:+ r) = Str.occurs (String a p) r.
Proof.
  induction m as [|x m IH]; [done|]. simpl Str.all_chars.
  intros [Hx Hm]%andb_true_iff. rewrite str_app_cons, occurs_cons, startswith_cons.
  apply negb_true_iff in Hx. rewrite Hx. by apply IH.
Qed.

Lemma occurs_past_marker (l : string) (idx : nat) (r : string) :
  plain_link l -> Str.occurs l (web_marker idx +:+ r) = Str.occurs l r.
Proof.
  intros [_ Hl]. destruct l as [|a l]; [done|].
  apply occurs_past.
  apply (all_chars_impl Str.marker_char); [|apply web_marker_chars].
  intros c Hc. apply negb_true_iff. destruct (Ascii.eqb_spec a c) as [->|]; [|done].
  congruence.
Qed.

Lemma plain_link_not_empty (l : string) : plain_link l -> l <> EmptyString.
Proof. intros [_ Hl] ->. done. Qed.

(** After its replacement a link occurs nowhere. *)
Lemma replace_removes (l : string) (idx : nat) (s : string) :
  plain_link l -> Str.occurs l (Str.replace l (web_marker idx) s) = false.
Proof.
  intros Hl. pose proof (plain_link_not_empty _ Hl) as Hne.
  induction s as [|c s Hmiss IH|s Hhit IH] using (replace_ind l Hne).
  - rewrite (replace_empty _ _ Hne). destruct l; done.
  - rewrite (replace_miss _ _ Hne _ _ Hmiss), occurs_cons, IH, orb_false_r.
    destruct (Str.startswith l (String c (Str.replace l (web_marker idx) s))) eqn:H; [|done].
    rewrite <- (replace_miss _ (web_marker idx) Hne _ _ Hmiss) in H.
    rewrite web_marker_shape in H.
    apply startswith_replace in H; [congruence|done|apply Hl].
  - by rewrite (replace_hit _ _ Hne _ Hhit), occurs_past_marker.
Qed.

(** A link that occurs nowhere still occurs nowhere after the replacement
    of another. *)
Lemma replace_keeps_removed (p l : string) (idx : nat) (s : string) :
  plain_link p -> l <> EmptyString ->
  Str.occurs p s = false ->
  Str.occurs p (Str.replace l (web_marker idx) s) = false.
Proof.
  intros Hp Hne.
  induction s as [|c s Hmiss IH|s Hhit IH] using (replace_ind l Hne); intros Hs.
  - by rewrite (replace_empty _ _ Hne).
  - rewrite occurs_cons in Hs. apply orb_false_iff in Hs as [Hhead Hs].
    rewrite (replace_miss _ _ Hne _ _ Hmiss), occurs_cons, (IH Hs), orb_false_r.
    destruct (Str.startswith p (String c (Str.replace l (web_marker idx) s))) eqn:H; [|done].
    rewrite <- (replace_miss _ (web_marker idx) Hne _ _ Hmiss) in H.
    rewrite web_marker_shape in H.
    apply startswith_replace in H; [congruence|done|apply Hp].
  - rewrite (replace_hit _ _ Hne _ Hhit), occurs_past_marker by done.
    apply IH. by apply occurs_drop.
Qed.

(** *** Every bracket begins a marker *)

Lemma no_bracket_all_chars (s : string) :
  Str.all_chars (fun c => negb (Ascii.eqb c "[")) s = true -> Str.occurs "[" s = false.
Proof.
  induction s as [|c s IH]; [done|]. simpl Str.all_chars.
  intros [Hc Hs]%andb_true_iff. apply no_bracket_cons. split; [|by apply IH].
  intros ->. by rewrite Ascii.eqb_refl in Hc.
Qed.

Lemma marker_tail_no_bracket (idx : nat) :
  Str.occurs "[" (Str.of_nat idx +:+ "]") = false.
Proof.
  assert (Hdigit : forall c, Str.is_digit c = true -> negb (Ascii.eqb c "[") = true).
  { intros c Hc. apply negb_true_iff. destruct (Ascii.eqb_spec c "[") as [->|]; done. }
  apply no_bracket_all_chars. rewrite all_chars_app.
  by rewrite (all_chars_impl _ _ _ Hdigit (of_nat_digits idx)).
Qed.

Lemma closed_no_bracket (srcs : list Source) (s : string) :
  Str.occurs "[" s = false -> closed srcs s.
Proof.
  induction s as [|c s IH]; [constructor|].
  intros [Hc Hs]%no_bracket_cons. constructor; [done|by apply IH].
Qed.

Lemma closed_mono (srcs srcs' : list Source) (s : string) :
  (forall e, e ∈ srcs -> e ∈ srcs') -> closed srcs s -> closed srcs' s.
Proof. intros Hsub. induction 1; constructor; auto. Qed.

(** Dropping a bracket-free head of a closed text leaves a closed text. *)
Lemma closed_drop (srcs : list Source) (p : string) :
  web_marked srcs ->
  Str.occurs "[" p = false ->
  forall s : string,
    Str.startswith p s = true -> closed srcs s ->
    closed srcs (Str.drop (String.length p) s).
Proof.
  intros Hmarked. induction p as [|a p IH]; intros Hp s Hs Hclosed; [by destruct s|].
  apply no_bracket_cons in Hp as [Ha Hp].
  destruct s as [|c s]; [done|]. rewrite startswith_cons in Hs.
  destruct (Ascii.eqb_spec a c) as [<-|]; [|done]. simpl.
  inversion Hclosed as [|c' s' Hc Hs' |e s' He Hs' Heq]; subst.
  - by apply IH.
  - destruct (Hmarked e He) as [idx Hidx].
    rewrite Hidx, web_marker_shape, str_app_cons in Heq. congruence.
Qed.

(** The scan passes over a run of characters that cannot begin a match. *)
Lemma replace_through (a : ascii) (l new m s : string) :
  Str.all_chars (fun x => negb (Ascii.eqb a x)) m = true ->
  Str.replace (String a l) new (m +:+ s) = m +:+ Str.replace (String a l) new s.
Proof.
  induction m as [|x m IH]; [done|]. simpl Str.all_chars.
  intros [Hx Hm]%andb_true_iff. apply negb_true_iff in Hx.
  rewrite !str_app_cons, replace_miss; [by rewrite IH|done|].
  by rewrite startswith_cons, Hx.
Qed.

Lemma replace_through_marker (l new : string) (idx : nat) (s : string) :
  plain_link l ->
  Str.replace l new (web_marker idx +:+ s) = web_marker idx +:+ Str.replace l new s.
Proof.
  intros [_ Hl]. destruct l as [|a l]; [done|].
  apply replace_through.
  apply (all_chars_impl Str.marker_char); [|apply web_marker_chars].
  intros c Hc. apply negb_true_iff. destruct (Ascii.eqb_spec a c) as [->|]; [|done].
  congruence.
Qed.

Lemma closed_replace (srcs : list Source) (l : string) (e_new : Source) :
  web_marked srcs -> plain_link l -> e_new ∈ srcs ->
  forall s : string, closed srcs s -> closed srcs (Str.replace l (short_url e_new) s).
Proof.
  intros Hmarked Hl Hnew. pose proof (plain_link_not_empty _ Hl) as Hne.
  intros s. remember (String.length s) as n eqn:Hn. revert s Hn.
  induction n as [n IH] using lt_wf_ind. intros s Hn Hclosed.
  inversion Hclosed as [|c s' Hc Hs' |e s' He Hs' Heq]; subst.
  - rewrite (replace_empty _ _ Hne). constructor.
  - destruct (Str.startswith l (String c s')) eqn:Hhit.
    + rewrite (replace_hit _ _ Hne _ Hhit). constructor; [done|].
      eapply IH; [|reflexivity|apply closed_drop; [done|apply Hl|done|done]].
      rewrite (startswith_split _ _ Hhit) at 2. rewrite str_app_length.
      destruct l; [done|]. simpl. lia.
    + rewrite (replace_miss _ _ Hne _ _ Hhit). constructor; [done|].
      eapply IH; [|reflexivity|done]. simpl. lia.
  - destruct (Hmarked e He) as [idx Hidx]. rewrite Hidx, replace_through_marker by done.
    rewrite <- Hidx. constructor; [done|].
    eapply IH; [|reflexivity|done]. rewrite str_app_length, Hidx, web_marker_shape. simpl. lia.
Qed.

Lemma split_no_bracket (m : string) :
  Str.occurs "[" m = false ->
  forall s pre post : string,
    m +:+ s = pre +:+ "[" +:+ post -> exists pre', s = pre' +:+ "[" +:+ post.
Proof.
  induction m as [|x m IH]; intros Hm s pre post Heq; [by exists pre|].
  apply no_bracket_cons in Hm as [Hx Hm].
  destruct pre as [|y pre]; rewrite !str_app_cons in Heq; injection Heq as -> Heq; [done|].
  by eapply IH.
Qed.

(** In a closed text every opening bracket begins the marker of a source. *)
Lemma closed_brackets (srcs : list Source) (s : string) :
  web_marked srcs -> closed srcs s ->
  forall pre post : string,
    s = pre +:+ "[" +:+ post ->
    exists e, e ∈ srcs /\ Str.startswith (short_url e) ("[" +:+ post) = true.
Proof.
  intros Hmarked. induction 1 as [|c s Hc Hs IH|e s He Hs IH]; intros pre post Heq.
  - by destruct pre.
  - destruct pre as [|y pre]; rewrite !str_app_cons in Heq; injection Heq as -> Heq; [done|].
    by eapply IH.
  - destruct (Hmarked e He) as [idx Hidx].
    destruct pre as [|y pre].
    + exists e. split; [done|]. rewrite str_app_nil_l in Heq. rewrite <- Heq. apply startswith_app.
    + rewrite Hidx, web_marker_shape, !str_app_cons in Heq. injection Heq as _ Heq.
      apply split_no_bracket in Heq as [pre' Heq]; [|apply marker_tail_no_bracket].
      by eapply IH.
Qed.

(** *** The loop of [web_research] *)

Lemma web_item_step_no_link (acc : list Source * string) (idx : nat) (item : SearchItem) :
  link item = EmptyString -> web_item_step acc (idx, item) = acc.
Proof. destruct acc. unfold web_item_step. by intros ->. Qed.

Lemma web_item_step_link (srcs : list Source) (text : string) (idx : nat) (item : SearchItem) :
  link item <> EmptyString ->
  web_item_step (srcs, text) (idx, item) =
  ((srcs ++ [mkSource (link item) (web_marker idx) (web_label idx item)])%list,
   Str.replace (link item) (web_marker idx) text).
Proof. unfold web_item_step. by destruct (link item). Qed.

Lemma web_fold_removed (items : list SearchItem) :
  links_plain items ->
  forall (i : nat) (srcs : list Source) (text : string),
    (forall e, e ∈ srcs -> plain_link (value e) /\ Str.occurs (value e) text = false) ->
    forall e, e ∈ (fold_left web_item_step (enumerate_from i items) (srcs, text)).1 ->
      plain_link (value e) /\
      Str.occurs (value e) (fold_left web_item_step (enumerate_from i items) (srcs, text)).2
      = false.
Proof.
  induction items as [|item items IH]; intros Hlinks i srcs text Hinv; [done|].
  assert (Hrest : links_plain items).
  { intros it Hit. apply Hlinks. by right. }
  cbn [enumerate_from fold_left].
  destruct (decide (link item = EmptyString)) as [Hlink|Hlink].
  { rewrite web_item_step_no_link by done. by apply IH. }
  assert (Hplain : plain_link (link item)).
  { apply Hlinks; [by left|done]. }
  rewrite web_item_step_link by done.
  apply IH; [done|]. intros e [He| ->%list_elem_of_singleton]%elem_of_app.
  - destruct (Hinv e He) as [Hp Ho]. split; [done|].
    by apply replace_keeps_removed.
  - split; [done|]. by apply replace_removes.
Qed.

Lemma web_fold_closed (items : list SearchItem) :
  links_plain items ->
  forall (i : nat) (srcs : list Source) (text : string),
    web_marked srcs -> closed srcs text ->
    web_marked (fold_left web_item_step (enumerate_from i items) (srcs, text)).1 /\
    closed (fold_left web_item_step (enumerate_from i items) (srcs, text)).1
      (fold_left web_item_step (enumerate_from i items) (srcs, text)).2.
Proof.
  induction items as [|item items IH]; intros Hlinks i srcs text Hmarked Hclosed; [done|].
  assert (Hrest : links_plain items).
  { intros it Hit. apply Hlinks. by right. }
  cbn [enumerate_from fold_left].
  destruct (decide (link item = EmptyString)) as [Hlink|Hlink].
  { rewrite web_item_step_no_link by done. by apply IH. }
  assert (Hplain : plain_link (link item)).
  { apply Hlinks; [by left|done]. }
  rewrite web_item_step_link by done.
  set (e_new := mkSource (link item) (web_marker i) (web_label i item)).
  assert (Hmarked' : web_marked (srcs ++ [e_new])).
  { intros e [He| ->%list_elem_of_singleton]%elem_of_app; [by apply Hmarked|by exists i]. }
  apply IH; [done|done|].
  change (web_marker i) with (short_url e_new).
  apply closed_replace; [done|done|apply elem_of_app; right; by left|].
  eapply closed_mono; [|exact Hclosed]. intros e He. apply elem_of_app. by left.
Qed.

(** *** Reading the source list backwards *)

Lemma str_drop_all (a b : string) : Str.drop (String.length a) (a +:+ b) = b.
Proof. induction a as [|c a IH]; [by destruct b|]. by rewrite str_app_cons. Qed.

(** Two runs of digits closed by a bracket: one begins where the other
    does only if they are the same run. *)
Lemma digits_bracket_prefix (d1 : string) :
  forall d2 rest : string,
    Str.all_chars Str.is_digit d1 = true ->
    Str.all_chars Str.is_digit d2 = true ->
    Str.startswith (d1 +:+ "]") (d2 +:+ "]" +:+ rest) = true ->
    d1 = d2.
Proof.
  induction d1 as [|a d1 IH]; intros [|c d2] rest H1 H2 H; [done|..].
  - rewrite str_app_nil_l, str_app_cons, startswith_cons in H.
    destruct (Ascii.eqb_spec "]" c) as [<-|]; done.
  - rewrite str_app_nil_l, !str_app_cons, startswith_cons in H.
    destruct (Ascii.eqb_spec a "]") as [->|]; done.
  - rewrite !str_app_cons, startswith_cons in H.
    destruct (Ascii.eqb_spec a c) as [->|]; [|done].
    cbn [Str.all_chars] in H1, H2.
    apply andb_true_iff in H1 as [_ H1]. apply andb_true_iff in H2 as [_ H2].
    f_equal. by eapply IH.
Qed.

(** The marker of one index does not begin where that of another does. *)
Lemma startswith_other_marker (i j : nat) (rest : string) :
  i <> j -> Str.startswith (web_marker i) (web_marker j +:+ rest) = false.
Proof.
  intros Hij. destruct (Str.startswith _ _) eqn:H; [|done].
  rewrite !web_marker_shape, str_app_cons, startswith_cons, Ascii.eqb_refl, str_app_assoc in H.
  apply digits_bracket_prefix in H; [|apply of_nat_digits..].
  by apply pretty_nat_inj in H.
Qed.

(** Putting a link back for its marker passes over the marker of another
    index. *)
Lemma replace_marker_through (i j : nat) (l rest : string) :
  i <> j ->
  Str.replace (web_marker i) l (web_marker j +:+ rest)
  = web_marker j +:+ Str.replace (web_marker i) l rest.
Proof.
  intros Hij. pose proof (startswith_other_marker i j rest Hij) as Hmiss.
  rewrite (web_marker_shape j), str_app_cons in *.
  rewrite replace_miss; [|done|done].
  rewrite str_app_cons. f_equal. rewrite (web_marker_shape i). apply replace_through.
  assert (Hdigit : forall c, Str.is_digit c = true -> negb (Ascii.eqb "[" c) = true).
  { intros c Hc. apply negb_true_iff. destruct (Ascii.eqb_spec "[" c) as [<-|]; done. }
  rewrite all_chars_app.
  by rewrite (all_chars_impl _ _ _ Hdigit (of_nat_digits j)).
Qed.

(** Replacing a link by a marker that the text does not hold yet, and the
    marker by the link again, gives the text back. *)
Lemma replace_undo (srcs : list Source) (l : string) (idx : nat) :
  plain_link l -> web_marked srcs ->
  (forall e, e ∈ srcs -> short_url e <> web_marker idx) ->
  forall s : string,
    closed srcs s ->
    Str.replace (web_marker idx) l (Str.replace l (web_marker idx) s) = s.
Proof.
  intros Hl Hmarked Hother. pose proof (plain_link_not_empty _ Hl) as Hne.
  assert (Hm : web_marker idx <> EmptyString) by done.
  intros s. remember (String.length s) as n eqn:Hn. revert s Hn.
  induction n as [n IH] using lt_wf_ind. intros s Hn Hclosed.
  inversion Hclosed as [|c s' Hc Hs' |e s' He Hs' Heq]; subst.
  - by rewrite (replace_empty _ _ Hne), (replace_empty _ _ Hm).
  - destruct (Str.startswith l (String c s')) eqn:Hhit.
    + rewrite (replace_hit _ _ Hne _ Hhit).
      rewrite (replace_hit _ _ Hm); [|apply startswith_app].
      rewrite str_drop_all.
      rewrite (IH (String.length (Str.drop (String.length l) (String c s')))).
      * symmetry. by apply startswith_split.
      * rewrite (startswith_split _ _ Hhit) at 2. rewrite str_app_length.
        destruct l; [done|]. simpl. lia.
      * reflexivity.
      * apply closed_drop; [done|apply Hl|done|done].
    + rewrite (replace_miss _ _ Hne _ _ Hhit).
      rewrite replace_miss; [|done|].
      * f_equal. eapply IH; [|reflexivity|done]. simpl. lia.
      * rewrite web_marker_shape, startswith_cons.
        destruct (Ascii.eqb_spec "[" c) as [<-|]; done.
  - destruct (Hmarked e He) as [j Hj]. rewrite Hj.
    rewrite replace_through_marker by done.
    rewrite replace_marker_through.
    + f_equal. eapply IH; [|reflexivity|done].
      rewrite str_app_length, Hj, web_marker_shape. simpl. lia.
    + intros ->. by apply (Hother e He).
Qed.

Lemma web_sources_from_cons (i : nat) (item : SearchItem) (items : list SearchItem) :
  web_sources_from i (item :: items)
  = (match link item with
     | EmptyString => []
     | lnk => [mkSource lnk (web_marker i) (web_label i item)]
     end ++ web_sources_from (S i) items)%list.
Proof. reflexivity. Qed.

(** The text of the web loop is the text it began with, the links of the
    sources it appends replaced one source after the other. *)
Lemma web_fold_text (items : list SearchItem) :
  forall (i : nat) (srcs : list Source) (text : string),
    (fold_left web_item_step (enumerate_from i items) (srcs, text)).2
    = substitute_markers (web_sources_from i items) text.
Proof.
  induction items as [|item items IH]; intros i srcs text; [done|].
  cbn [enumerate_from fold_left]. rewrite web_sources_from_cons.
  destruct (decide (link item = EmptyString)) as [Hlink|Hlink].
  - rewrite web_item_step_no_link by done. rewrite IH. by rewrite Hlink.
  - rewrite web_item_step_link by done. rewrite IH.
    by destruct (link item).
Qed.

(** Read backwards, the sources of the loop give the text back. *)
Lemma web_sources_expand (items : list SearchItem) :
  links_plain items ->
  forall (i : nat) (srcs : list Source) (text : string),
    (forall e, e ∈ srcs -> exists j, j < i /\ short_url e = web_marker j) ->
    closed srcs text ->
    expand_markers (web_sources_from i items)
      (substitute_markers (web_sources_from i items) text) = text.
Proof.
  induction items as [|item items IH]; intros Hlinks i srcs text Hbelow Hclosed; [done|].
  assert (Hrest : links_plain items).
  { intros it Hit. apply Hlinks. by right. }
  assert (Hmarked : web_marked srcs).
  { intros e He. destruct (Hbelow e He) as (j & _ & Hj). by exists j. }
  rewrite web_sources_from_cons.
  destruct (decide (link item = EmptyString)) as [Hlink|Hlink].
  { rewrite Hlink. cbn [app]. apply (IH Hrest (S i) srcs); [|done].
    intros e He. destruct (Hbelow e He) as (j & Hlt & Hj). exists j. split; [lia|done]. }
  assert (Hplain : plain_link (link item)).
  { apply Hlinks; [by left|done]. }
  set (e_new := mkSource (link item) (web_marker i) (web_label i item)).
  assert (Hsrc : (match link item with
                  | EmptyString => []
                  | lnk => [mkSource lnk (web_marker i) (web_label i item)]
                  end) = [e_new]).
  { unfold e_new. by destruct (link item). }
  rewrite Hsrc. cbn [app]. unfold substitute_markers, expand_markers.
  cbn [fold_left fold_right].
  fold (substitute_markers (web_sources_from (S i) items)
          (Str.replace (value e_new) (short_url e_new) text)).
  fold (expand_markers (web_sources_from (S i) items)
          (substitute_markers (web_sources_from (S i) items)
             (Str.replace (value e_new) (short_url e_new) text))).
  rewrite (IH Hrest (S i) (srcs ++ [e_new])%list).
  - apply (replace_undo srcs); [done|done| |done].
    intros e He Heq. destruct (Hbelow e He) as (j & Hlt & Hj).
    rewrite Hj in Heq. apply web_marker_inj in Heq. lia.
  - intros e [He| ->%list_elem_of_singleton]%elem_of_app.
    + destruct (Hbelow e He) as (j & Hlt & Hj). exists j. split; [lia|done].
    + exists i. split; [lia|done].
  - apply closed_replace; [|done|apply elem_of_app; right; by left|].
    + intros e [He| ->%list_elem_of_singleton]%elem_of_app; [by apply Hmarked|by exists i].
    + eapply closed_mono; [|exact Hclosed]. intros e He. apply elem_of_app. by left.
Qed.

End Markers.

(** C7 fails as stated.  (1) When one link is the beginning of another,
    the occurrence of the longer one is overwritten by the marker of the
    shorter one and its own marker never appears.  (2) A marker that a
    snippet already contains stays in the text without a source.  (3) A
    knowledge-base finding keeps the raw document path. *)
Lemma raw_links_and_orphan_markers :
  (let items :=
     [Graph.mkSearchItem "Docs are at http://a.com/page" "http://a.com" "A";
      Graph.mkSearchItem "The page" "http://a.com/page" "Page"] in
   Str.occurs "http://a.com/page" (Graph.web_snippets items) = true /\
   Scenario.registry (Graph.web_process items).1
   = [("http://a.com", "[0]"); ("http://a.com/page", "[1]")] /\
   (Graph.web_process items).2 = "Docs are at [0]/page" +:+ Str.nl +:+ "The page" /\
   Str.occurs "[1]" (Graph.web_process items).2 = false) /\
  (let items := [Graph.mkSearchItem "X was first described in 1999 [7]" "http://b.org/x" "B"] in
   Str.occurs "[7]" (Graph.web_process items).2 = true /\
   Scenario.registry (Graph.web_process items).1 = [("http://b.org/x", "[0]")]) /\
  (let docs :=
     [Graph.mkDocument (Some (inr "0.912")) (Some "/kb/a.md") (Some (inr "alpha")) (Some "17") None] in
   exists text srcs,
     Graph.kb_process docs = inr (text, srcs) /\
     Scenario.registry srcs = [("/kb/a.md", "[KB-1]")] /\
     Str.occurs "/kb/a.md" text = true).
Proof.
  split; [|split].
  - by vm_compute.
  - by vm_compute.
  - do 2 eexists. split; [by vm_compute|]. by vm_compute.
Qed.

(** C7, as the code has it, for a web retrieval task that succeeds.  The
    sources are the items that have a link, each with its link as value and
    [[idx]], the index of the item, as marker.  The text of the finding is
    the joined snippets in which, source by source in the order of the
    list, every occurrence of the source's raw link in the text as it then
    stands is replaced by that source's marker.  When the links have no
    opening bracket and do not begin with a digit or a bracket: no
    source's raw link occurs in the text any more; and if moreover the
    snippets have no opening bracket, every opening bracket of the text
    begins the marker of an entry of the source list, and putting the raw
    links back for the markers, last source first, gives the joined
    snippets again. *)
Theorem web_finding_markers (search : Graph.WebSearchState -> Graph.exn + list Graph.SearchItem)
    (state : Graph.WebSearchState) (items : list Graph.SearchItem)
    (Hsearch : search state = inr items) :
  exists sources text,
    Graph.web_research search state
    = inr (Graph.mkUpdate sources [Graph.ws_search_query state] [text] None None) /\
    (forall e, e ∈ sources ->
       exists idx item,
         items !! idx = Some item /\ Graph.link item <> EmptyString /\
         Graph.value e = Graph.link item /\
         Graph.short_url e = "[" +:+ Str.of_nat idx +:+ "]") /\
    (forall idx item,
       items !! idx = Some item -> Graph.link item <> EmptyString ->
       exists e, e ∈ sources /\ Graph.value e = Graph.link item /\
                 Graph.short_url e = "[" +:+ Str.of_nat idx +:+ "]") /\
    text = Graph.substitute_markers sources (Graph.web_snippets items) /\
    (Graph.links_plain items ->
     (forall e, e ∈ sources -> Str.occurs (Graph.value e) text = false) /\
     (Str.occurs "[" (Graph.web_snippets items) = false ->
      (forall pre post : string,
         text = pre +:+ "[" +:+ post ->
         exists e, e ∈ sources /\ Str.startswith (Graph.short_url e) ("[" +:+ post) = true) /\
      Graph.expand_markers sources text = Graph.web_snippets items)).
Proof.
  exists (Graph.web_process items).1, (Graph.web_process items).2.
  split; [|split; [|split; [|split]]].
  - unfold Graph.web_research. rewrite Hsearch. by destruct (Graph.web_process items).
  - intros e He. rewrite web_process_sources in He.
    apply web_sources_elem in He as (idx & item & Hidx & Hlink & ->).
    by exists idx, item.
  - intros idx item Hidx Hlink.
    exists (Graph.mkSource (Graph.link item) (Graph.web_marker idx) (Graph.web_label idx item)).
    split; [|done]. rewrite web_process_sources. apply web_sources_elem. by exists idx, item.
  - rewrite web_process_sources. unfold Graph.web_process, enumerate. apply web_fold_text.
  - intros Hlinks. split.
    + intros e He. unfold Graph.web_process, enumerate in *.
      by eapply (web_fold_removed items Hlinks 0 [] _); [intros ? ?%elem_of_nil|].
    + intros Hsnippets. split.
      * intros pre post Htext. unfold Graph.web_process, enumerate in *.
        destruct (web_fold_closed items Hlinks 0 [] (Graph.web_snippets items))
          as [Hmarked Hclosed].
        -- by intros ? ?%elem_of_nil.
        -- by apply closed_no_bracket.
        -- by eapply closed_brackets.
      * rewrite web_process_sources. unfold Graph.web_process, enumerate.
        rewrite web_fold_text.
        apply (web_sources_expand items Hlinks 0 []).
        -- by intros ? ?%elem_of_nil.
        -- by apply closed_no_bracket.
Qed.

Lemma web_finding_markers_witness :
  let items :=
    [Graph.mkSearchItem "Docs are at http://a.com/page" "http://a.com" "A";
     Graph.mkSearchItem "The page, see also http://c.org and http://c.org" "http://a.com/page" "Page";
     Graph.mkSearchItem "No link here" "" "None";
     Graph.mkSearchItem "Third" "http://c.org" ""] in
  let state := Graph.mkWebSearchState "docs" 0 in
  exists sources text,
    Graph.web_research (fun _ => inr items) state
    = inr (Graph.mkUpdate sources ["docs"] [text] None None) /\
    Scenario.registry sources
    = [("http://a.com", "[0]"); ("http://a.com/page", "[1]"); ("http://c.org", "[3]")] /\
    text = "Docs are at [0]/page" +:+ Str.nl +:+ "The page, see also [3] and [3]" +:+ Str.nl
           +:+ "No link here" +:+ Str.nl +:+ "Third" /\
    (forall e, e ∈ sources -> Str.occurs (Graph.value e) text = false) /\
    Graph.expand_markers sources text
    = "Docs are at http://a.com/page" +:+ Str.nl
      +:+ "The page, see also http://c.org and http://c.org" +:+ Str.nl
      +:+ "No link here" +:+ Str.nl +:+ "Third".
Proof.
  intros items state.
  destruct (web_finding_markers (fun _ => inr items) state items eq_refl)
    as (sources & text & Hupdate & _ & _ & Htext & Hplain).
  assert (Hlinks : Graph.links_plain items).
  { intros item Hin Hne. unfold Graph.plain_link.
    repeat (apply elem_of_cons in Hin as [-> | Hin]; [by vm_compute|]).
    by apply elem_of_nil in Hin. }
  destruct (Hplain Hlinks) as [Hgone Hsnippets].
  destruct (Hsnippets eq_refl) as [_ Hexpand].
  exists sources, text. split; [done|].
  vm_compute in Hupdate. injection Hupdate as Hsources Htext'.
  split; [by rewrite <- Hsources|]. split; [by rewrite <- Htext'|]. split; [done|].
  by rewrite Hexpand.
Defined.

(** * Further properties of the code *)

(** ** [resolve_urls] and [insert_citation_markers] *)

(** X1.  The short address of an address does not change when more sites
    are appended to the list: [resolve_urls] on a longer list agrees with
    [resolve_urls] on the shorter one for every address of the shorter
    one. *)
Theorem resolve_urls_append (sites more : list Utils.Site) (id : Z) (u : string)
    (Hin : u ∈ map (fun site => Utils.uri (Utils.web site)) sites) :
  Utils.resolve_urls (sites ++ more) id !! u = Utils.resolve_urls sites id !! u.
Proof.
  rewrite !resolve_urls_lookup, map_app.
  destruct (list_find_elem_of (fun x => x = u) _ u Hin eq_refl) as [[k x] Hfind].
  by rewrite (list_find_app_l _ _ _ _ _ Hfind), Hfind.
Qed.

Lemma resolve_urls_append_witness :
  let sites := [Utils.mkSite (Utils.mkWeb "https://a.example"); Utils.mkSite (Utils.mkWeb "https://b.example")] in
  let more := [Utils.mkSite (Utils.mkWeb "https://c.example"); Utils.mkSite (Utils.mkWeb "https://b.example")] in
  Utils.resolve_urls (sites ++ more) 3 !! "https://b.example"
  = Utils.resolve_urls sites 3 !! "https://b.example".
Proof.
  apply resolve_urls_append. simpl. right. by left.
Defined.

Section MarkerLength.

Import Utils.

Lemma insert_step_adds (text : string) (c : Citation) :
  String.length (insert_step text c) = String.length text + String.length (marker_to_insert c).
Proof.
  unfold insert_step, Str.slice_to, Str.slice_from.
  set (k := Str.slice_bound _ _).
  rewrite <- (str_take_drop k text) at 3. rewrite !str_app_length. lia.
Qed.

Lemma fold_insert_adds (cs : list Citation) :
  forall text : string,
    String.length (fold_left insert_step cs text)
    = String.length text + Extra.markers_length cs.
Proof.
  induction cs as [|c cs IH]; intros text; simpl; [lia|].
  rewrite IH, insert_step_adds. lia.
Qed.

Lemma insert_desc_markers_length (c : Citation) (l : list Citation) :
  Extra.markers_length (insert_desc c l)
  = String.length (marker_to_insert c) + Extra.markers_length l.
Proof.
  induction l as [|d l IH]; simpl; [done|].
  destruct (key_ltb c d); simpl; [rewrite IH|]; lia.
Qed.

Lemma sorted_desc_markers_length (l : list Citation) :
  Extra.markers_length (sorted_desc l) = Extra.markers_length l.
Proof.
  induction l as [|c l IH]; simpl; [done|].
  by rewrite insert_desc_markers_length, IH.
Qed.

End MarkerLength.

(** X2.  Whatever the indices of the citations (negative or past the end
    of the text as well), [insert_citation_markers] lengthens the text by
    exactly the markers of all the citations, and the text is a subsequence
    of the result: every marker goes in once and no character is lost. *)
Theorem insert_citation_markers_adds_markers (text : string) (cits : list Utils.Citation) :
  String.length (Utils.insert_citation_markers text cits)
  = String.length text + Extra.markers_length cits /\
  Str.subseq text (Utils.insert_citation_markers text cits).
Proof.
  unfold Utils.insert_citation_markers. split.
  - by rewrite fold_insert_adds, sorted_desc_markers_length.
  - apply fold_insert_subseq.
Qed.

(** ** The documents of [knowledge_base_research] *)

Section Documents.

Import Graph.

Lemma kb_doc_step_readable (idx : nat) (d : Document) (text : string) (srcs : list Source) :
  Extra.readable d ->
  exists text' srcs', kb_doc_step (inr (text, srcs)) (idx, d) = inr (text', srcs').
Proof.
  intros ([score Hscore] & [source Hsource] & [content Hcontent] & [ident Hid] & Hmeta).
  unfold kb_doc_step. cbn [bind]. rewrite Hscore, Hsource, Hcontent, Hid. cbn [getitem bind].
  destruct (doc_metadata d) as [[e|filename]|]; [by destruct (Hmeta e)|..];
    cbn [default from_option id bind]; by do 2 eexists.
Qed.

Lemma kb_doc_step_unreadable (idx : nat) (d : Document) (text : string) (srcs : list Source) :
  ~ Extra.readable d -> exists e, kb_doc_step (inr (text, srcs)) (idx, d) = inl e.
Proof.
  intros Hd.
  destruct (kb_doc_step (inr (text, srcs)) (idx, d)) as [e|[text' srcs']] eqn:Hstep;
    [by eexists|].
  apply kb_doc_step_inr in Hstep
    as (score & source & content & id & Hscore & Hsource & Hcontent & Hid & Hmeta & _).
  destruct Hd. unfold Extra.readable. rewrite Hscore, Hsource, Hcontent, Hid.
  repeat split; by eauto.
Qed.

Lemma kb_fold_readable (docs : list Document) :
  forall (i : nat) (text : string) (srcs : list Source),
    (exists text' srcs',
       fold_left kb_doc_step (enumerate_from i docs) (inr (text, srcs)) = inr (text', srcs'))
    <-> Forall Extra.readable docs.
Proof.
  induction docs as [|d docs IH]; intros i text srcs; cbn [enumerate_from fold_left].
  - split; [constructor|]. intros _. by do 2 eexists.
  - destruct (kb_doc_step (inr (text, srcs)) (i, d)) as [e|[text1 srcs1]] eqn:Hstep.
    + rewrite kb_fold_raised. split; [by intros (? & ? & ?)|].
      intros [Hd _]%Forall_cons.
      destruct (kb_doc_step_readable i d text srcs Hd) as (? & ? & ?). congruence.
    + rewrite IH. split; [|by intros [_ ?]%Forall_cons].
      intros Hdocs. constructor; [|done].
      apply kb_doc_step_inr in Hstep
        as (score & source & content & id & Hscore & Hsource & Hcontent & Hid & Hmeta & _).
      unfold Extra.readable. rewrite Hscore, Hsource, Hcontent, Hid.
      repeat split; by eauto.
Qed.

End Documents.

(** X3.  The formatting loop of [knowledge_base_research] goes through
    exactly when every document can be read: it has its [score], [source],
    [content] and [id] keys (the [id] also when the metadata name a file),
    the score is a number, the content is a string, and the metadata, when
    there are any, are a dict.  When one document cannot be read, the task
    keeps none of the documents: it returns a placeholder finding with no
    sources and the status [error]. *)
Theorem kb_documents_must_be_readable (base : Graph.WebSearchState -> Graph.KbOutcome)
    (state : Graph.WebSearchState) (docs : list Graph.Document)
    (Hdocs : base state = Graph.Queried (inr (Graph.QueryDocuments docs))) :
  ((exists text srcs, Graph.kb_process docs = inr (text, srcs))
   <-> Forall Extra.readable docs) /\
  (~ Forall Extra.readable docs ->
   Graph.upd_sources_gathered (Graph.knowledge_base_research base state) = [] /\
   Graph.upd_kb_search_status (Graph.knowledge_base_research base state) = Some "error").
Proof.
  split; [apply kb_fold_readable|].
  intros Hunreadable.
  assert (Hfail : exists e, Graph.kb_process docs = inl e).
  { destruct (Graph.kb_process docs) as [e|[text srcs]] eqn:Hp; [by eexists|].
    destruct Hunreadable. apply (kb_fold_readable docs 0 (Graph.kb_header docs) []).
    by do 2 eexists. }
  destruct Hfail as [e He].
  unfold Graph.knowledge_base_research. rewrite Hdocs.
  destruct docs as [|d docs]; [by destruct Hunreadable|].
  by rewrite He.
Qed.

(** A document with all four keys, whose metadata are null, is enough to
    lose the documents of the task. *)
Lemma kb_documents_must_be_readable_witness :
  let docs :=
    [Graph.mkDocument (Some (inr "0.912")) (Some "/kb/a.md") (Some (inr "alpha")) (Some "17") None;
     Graph.mkDocument (Some (inr "0.800")) (Some "/kb/b.md") (Some (inr "beta")) (Some "18")
       (Some (inl "'NoneType' object has no attribute 'get'"))] in
  let base := fun _ : Graph.WebSearchState => Graph.Queried (inr (Graph.QueryDocuments docs)) in
  let state := Graph.mkWebSearchState "q" 1 in
  Graph.upd_sources_gathered (Graph.knowledge_base_research base state) = [] /\
  Graph.upd_kb_search_status (Graph.knowledge_base_research base state) = Some "error".
Proof.
  intros docs base state.
  apply (kb_documents_must_be_readable base state docs eq_refl).
  intros Hall. apply Forall_cons in Hall as [_ Hall]. apply Forall_cons in Hall as [Hb _].
  destruct Hb as (_ & _ & _ & _ & Hmeta). by eapply Hmeta.
Defined.

(** ** PubMed references *)

Section Pubmed.

Import Report.

Lemma span_spec (P : ascii -> bool) (s : string) :
  s = (Text.span P s).1 +:+ (Text.span P s).2 /\
  Str.all_chars P (Text.span P s).1 = true.
Proof.
  induction s as [|x s [IH1 IH2]]; [done|]. simpl.
  destruct (P x) eqn:Hx; [|done].
  destruct (Text.span P s) as [a b]. simpl in *.
  rewrite str_app_cons, <- IH1, Hx. done.
Qed.

Lemma span_run (P : ascii -> bool) (d r : string) :
  Str.all_chars P d = true ->
  match r with EmptyString => True | String c _ => P c = false end ->
  Text.span P (d +:+ r) = (d, r).
Proof.
  intros Hd Hr. induction d as [|x d IH].
  - rewrite str_app_nil_l. destruct r as [|c r]; [done|]. simpl. by rewrite Hr.
  - simpl in Hd. apply andb_true_iff in Hd as [Hx Hd].
    rewrite str_app_cons. simpl. by rewrite Hx, (IH Hd).
Qed.

Lemma nonempty_spec (s : string) : nonempty s = true <-> s <> EmptyString.
Proof. by destruct s. Qed.

Lemma at_end_spec (e : string) : Text.at_end e = true -> e = EmptyString \/ e = Str.nl.
Proof.
  unfold Text.at_end. intros [H|H]%orb_true_iff; apply String.eqb_eq in H; auto.
Qed.

(** What a match of the first pattern looks like. *)
Lemma match_auto_spec (t id : string) :
  match_auto t = Some id ->
  exists n e,
    t = "_" +:+ id +:+ "_auto_" +:+ n +:+ ".md" +:+ e /\
    Str.all_chars Str.is_digit id = true /\ id <> EmptyString /\
    Str.all_chars Str.is_digit n = true /\ (e = EmptyString \/ e = Str.nl).
Proof.
  unfold match_auto. destruct t as [|c t]; [done|].
  destruct (Ascii.eqb_spec c "_") as [->|]; [|done].
  destruct (span_spec Str.is_digit t) as [Ht Hid].
  destruct (Text.span Str.is_digit t) as [d r1]. cbn [fst snd] in Ht, Hid.
  destruct (nonempty d) eqn:Hd; [|done]. cbn [andb].
  destruct (Str.startswith "_auto_" r1) eqn:Hauto; [|done]. cbn [andb].
  apply startswith_split in Hauto. simpl String.length in Hauto.
  destruct (span_spec Str.is_digit (Str.drop 6 r1)) as [Hr Hn].
  destruct (Text.span Str.is_digit (Str.drop 6 r1)) as [n r2]. cbn [fst snd] in Hr, Hn.
  destruct (nonempty n) eqn:Hnn; [|done]. cbn [andb].
  destruct (Str.startswith ".md" r2) eqn:Hmd; [|done]. cbn [andb].
  apply startswith_split in Hmd. simpl String.length in Hmd.
  destruct (Text.at_end (Str.drop 3 r2)) eqn:He; [|done].
  intros [= <-]. exists n, (Str.drop 3 r2).
  split; [|by repeat split; [..|apply at_end_spec]; try apply nonempty_spec].
  rewrite <- Hmd, <- Hr, <- Hauto, <- Ht. done.
Qed.

Lemma match_plain_spec (t id : string) :
  match_plain t = Some id ->
  exists e,
    t = "_" +:+ id +:+ ".md" +:+ e /\
    Str.all_chars Str.is_digit id = true /\ id <> EmptyString /\
    (e = EmptyString \/ e = Str.nl).
Proof.
  unfold match_plain. destruct t as [|c t]; [done|].
  destruct (Ascii.eqb_spec c "_") as [->|]; [|done].
  destruct (span_spec Str.is_digit t) as [Ht Hid].
  destruct (Text.span Str.is_digit t) as [d r1]. cbn [fst snd] in Ht, Hid.
  destruct (nonempty d) eqn:Hd; [|done]. cbn [andb].
  destruct (Str.startswith ".md" r1) eqn:Hmd; [|done]. cbn [andb].
  apply startswith_split in Hmd. simpl String.length in Hmd.
  destruct (Text.at_end (Str.drop 3 r1)) eqn:He; [|done].
  intros [= <-]. exists (Str.drop 3 r1).
  split; [|by repeat split; [..|apply at_end_spec]; try apply nonempty_spec].
  rewrite <- Hmd, <- Ht. done.
Qed.

Lemma match_auto_underscore (t1 : string) :
  match_auto (String "_" t1) =
  let '(id, r1) := Text.span Str.is_digit t1 in
  if nonempty id && Str.startswith "_auto_" r1 then
    let '(n, r2) := Text.span Str.is_digit (Str.drop 6 r1) in
    if nonempty n && Str.startswith ".md" r2 && Text.at_end (Str.drop 3 r2)
    then Some id else None
  else None.
Proof. reflexivity. Qed.

Lemma match_plain_underscore (t1 : string) :
  match_plain (String "_" t1) =
  let '(id, r1) := Text.span Str.is_digit t1 in
  if nonempty id && Str.startswith ".md" r1 && Text.at_end (Str.drop 3 r1)
  then Some id else None.
Proof. reflexivity. Qed.

Lemma match_auto_here (id n : string) :
  Str.all_chars Str.is_digit id = true -> id <> EmptyString ->
  Str.all_chars Str.is_digit n = true -> n <> EmptyString ->
  match_auto ("_" +:+ id +:+ "_auto_" +:+ n +:+ ".md") = Some id.
Proof.
  intros Hid Hid' Hn Hn'.
  change ("_" +:+ id +:+ "_auto_" +:+ n +:+ ".md")
    with (String "_" (id +:+ "_auto_" +:+ n +:+ ".md")).
  rewrite match_auto_underscore, span_run by done.
  apply nonempty_spec in Hid' as ->. cbn [andb].
  rewrite startswith_app. cbn [andb].
  change (Str.drop 6 ("_auto_" +:+ n +:+ ".md")) with (n +:+ ".md").
  rewrite span_run by done.
  apply nonempty_spec in Hn' as ->. done.
Qed.

Lemma match_plain_here (id : string) :
  Str.all_chars Str.is_digit id = true -> id <> EmptyString ->
  match_plain ("_" +:+ id +:+ ".md") = Some id.
Proof.
  intros Hid Hid'.
  change ("_" +:+ id +:+ ".md") with (String "_" (id +:+ ".md")).
  rewrite match_plain_underscore, span_run by done.
  apply nonempty_spec in Hid' as ->. done.
Qed.

(** *** The leftmost search *)

Lemma first_match_Some {A : Type} (f : string -> option A) (s : string) (a : A) :
  Text.first_match f s = Some a -> exists pre t, s = pre +:+ t /\ f t = Some a.
Proof.
  induction s as [|c s IH]; simpl.
  - destruct (f EmptyString) eqn:Hf; [|done]. intros [= <-]. by exists EmptyString, EmptyString.
  - destruct (f (String c s)) eqn:Hf.
    + intros [= <-]. by exists EmptyString, (String c s).
    + intros (pre & t & -> & Ht)%IH. by exists (String c pre), t.
Qed.

Lemma first_match_finds {A : Type} (f : string -> option A) (pre t : string) (a : A) :
  f t = Some a -> is_Some (Text.first_match f (pre +:+ t)).
Proof.
  intros Ht. induction pre as [|c pre IH].
  - rewrite str_app_nil_l. destruct t; simpl; rewrite Ht; by eexists.
  - rewrite str_app_cons. simpl. destruct (f (String c (pre +:+ t))); [by eexists|done].
Qed.

Lemma first_match_None {A : Type} (f : string -> option A) (s : string) :
  (forall pre t, s = pre +:+ t -> f t = None) -> Text.first_match f s = None.
Proof.
  intros Hnone. destruct (Text.first_match f s) as [a|] eqn:Hm; [|done].
  apply first_match_Some in Hm as (pre & t & Hs & Ht).
  by rewrite (Hnone pre t Hs) in Ht.
Qed.

(** *** Where a run of digits begins *)

Lemma digits_no_underscore (a d : string) :
  Str.all_chars Str.is_digit (a +:+ "_" +:+ d) = false.
Proof.
  rewrite all_chars_app. change ("_" +:+ d) with (String "_" d). simpl.
  by rewrite andb_false_r.
Qed.

(** A text that ends with an underscore and a run of digits does so in
    one way. *)
Lemma last_run_unique (d n : string) :
  Str.all_chars Str.is_digit d = true -> Str.all_chars Str.is_digit n = true ->
  forall a b : string, a +:+ "_" +:+ d = b +:+ "_" +:+ n -> a = b /\ d = n.
Proof.
  intros Hd Hn. induction a as [|x a IH]; intros [|y b] H.
  - change (String "_" d = String "_" n) in H. injection H as H. by subst.
  - change (String "_" d = String y (b +:+ "_" +:+ n)) in H. injection H as Hy H.
    subst d. by rewrite digits_no_underscore in Hd.
  - change (String x (a +:+ "_" +:+ d) = String "_" n) in H. injection H as Hx H.
    subst n. by rewrite digits_no_underscore in Hn.
  - rewrite !str_app_cons in H. injection H as Hxy H. subst y.
    by destruct (IH b H) as [-> ->].
Qed.

Lemma app_inv_last (s t : string) (c c' : ascii) :
  s +:+ String c EmptyString = t +:+ String c' EmptyString -> s = t /\ c = c'.
Proof.
  revert t. induction s as [|x s IH]; intros [|y t] H.
  - change (String c EmptyString = String c' EmptyString) in H. injection H as H. by subst.
  - change (String c EmptyString = String y (t +:+ String c' EmptyString)) in H.
    injection H as _ H. by destruct t.
  - change (String x (s +:+ String c EmptyString) = String c' EmptyString) in H.
    injection H as _ H. by destruct s.
  - rewrite !str_app_cons in H. injection H as Hxy H. subst y.
    by destruct (IH t H) as [-> ->].
Qed.

(** A text that ends in [.md] does not end in a newline. *)
Lemma md_end (a b e : string) :
  a +:+ ".md" +:+ e = b +:+ ".md" -> e = EmptyString \/ e = Str.nl -> a = b /\ e = EmptyString.
Proof.
  intros H [-> | ->].
  - rewrite str_app_empty_r in H. split; [|done]. by eapply str_app_inv_tail.
  - exfalso.
    assert (H' : (a +:+ ".md") +:+ Str.nl = (b +:+ ".m") +:+ "d")
      by (by rewrite !str_app_assoc).
    by apply app_inv_last in H' as [_ ?].
Qed.

(** Two file names of the first shape that agree, agree on the id. *)
Lemma auto_shape_unique (a b d1 d2 n1 n2 e : string) :
  Str.all_chars Str.is_digit d1 = true -> Str.all_chars Str.is_digit d2 = true ->
  Str.all_chars Str.is_digit n1 = true -> Str.all_chars Str.is_digit n2 = true ->
  e = EmptyString \/ e = Str.nl ->
  a +:+ "_" +:+ d1 +:+ "_auto_" +:+ n1 +:+ ".md" +:+ e
    = b +:+ "_" +:+ d2 +:+ "_auto_" +:+ n2 +:+ ".md" ->
  a = b /\ d1 = d2.
Proof.
  intros Hd1 Hd2 Hn1 Hn2 He H.
  assert (H1 : (a +:+ "_" +:+ d1 +:+ "_auto_" +:+ n1) +:+ ".md" +:+ e
               = (b +:+ "_" +:+ d2 +:+ "_auto_" +:+ n2) +:+ ".md")
    by (by rewrite !str_app_assoc).
  apply md_end in H1 as [H1 _]; [|done].
  change ("_auto_" +:+ n1) with ("_auto" +:+ "_" +:+ n1) in H1.
  change ("_auto_" +:+ n2) with ("_auto" +:+ "_" +:+ n2) in H1.
  assert (H2 : ((a +:+ "_" +:+ d1) +:+ "_auto") +:+ "_" +:+ n1
               = ((b +:+ "_" +:+ d2) +:+ "_auto") +:+ "_" +:+ n2)
    by (by rewrite !str_app_assoc).
  apply last_run_unique in H2 as [H2 _]; [|done..].
  apply str_app_inv_tail in H2.
  by apply last_run_unique in H2.
Qed.

Lemma plain_shape_unique (a b d1 d2 e : string) :
  Str.all_chars Str.is_digit d1 = true -> Str.all_chars Str.is_digit d2 = true ->
  e = EmptyString \/ e = Str.nl ->
  a +:+ "_" +:+ d1 +:+ ".md" +:+ e = b +:+ "_" +:+ d2 +:+ ".md" ->
  a = b /\ d1 = d2.
Proof.
  intros Hd1 Hd2 He H.
  assert (H1 : (a +:+ "_" +:+ d1) +:+ ".md" +:+ e = (b +:+ "_" +:+ d2) +:+ ".md")
    by (by rewrite !str_app_assoc).
  apply md_end in H1 as [H1 _]; [|done].
  by apply last_run_unique in H1.
Qed.

(** *** The file name of a path *)

Lemma has_char_app (c : ascii) (s t : string) :
  Text.has_char c (s +:+ t) = Text.has_char c s || Text.has_char c t.
Proof.
  induction s as [|x s IH]; [done|]. rewrite str_app_cons. cbn [Text.has_char].
  by rewrite IH, orb_assoc.
Qed.

Lemma after_last_none (c : ascii) (s : string) :
  Text.has_char c s = false -> Text.after_last c s = s.
Proof.
  destruct s as [|x s]; [done|]. cbn [Text.has_char Text.after_last].
  intros [Hx Hs]%orb_false_iff. by rewrite Hs, Hx.
Qed.

Lemma after_last_app (c : ascii) (dir name : string) :
  Text.has_char c name = false -> Text.after_last c (dir +:+ String c name) = name.
Proof.
  intros Hname. induction dir as [|x dir IH].
  - rewrite str_app_nil_l. cbn [Text.after_last]. by rewrite Hname, Ascii.eqb_refl.
  - rewrite str_app_cons. cbn [Text.after_last].
    rewrite has_char_app. cbn [Text.has_char]. by rewrite Ascii.eqb_refl, orb_true_r.
Qed.

Lemma after_last_keeps_none (c x : ascii) (s : string) :
  Text.has_char x s = false -> Text.has_char x (Text.after_last c s) = false.
Proof.
  induction s as [|y s IH]; [done|]. cbn [Text.has_char Text.after_last].
  intros [Hy Hs]%orb_false_iff.
  destruct (Text.has_char c s); [by apply IH|].
  destruct (Ascii.eqb y c); [done|]. cbn [Text.has_char]. by rewrite Hy, Hs.
Qed.

Lemma digits_no_slash (s : string) :
  Str.all_chars Str.is_digit s = true -> Text.has_char "/" s = false.
Proof.
  induction s as [|x s IH]; [done|]. cbn [Str.all_chars Text.has_char].
  intros [Hx Hs]%andb_true_iff. rewrite (IH Hs), orb_false_r.
  destruct (Ascii.eqb_spec x "/") as [->|]; done.
Qed.

Lemma ends_with_app (p a : string) : Extra.ends_with p (a +:+ p) = true.
Proof.
  unfold Extra.ends_with. rewrite str_app_length.
  replace (String.length a + String.length p - String.length p) with (String.length a) by lia.
  rewrite str_drop_app by lia.
  replace (Str.drop (String.length a) a) with EmptyString.
  - rewrite str_app_nil_l, String.eqb_refl, andb_true_r. apply Nat.leb_le. lia.
  - clear. induction a as [|x a IH]; [done|]. by simpl.
Qed.

(** The first pattern matches a file name of its shape, and only with the
    id of that shape. *)
Lemma first_match_auto (stem id n : string) :
  Str.all_chars Str.is_digit id = true -> id <> EmptyString ->
  Str.all_chars Str.is_digit n = true -> n <> EmptyString ->
  Text.first_match match_auto (stem +:+ "_" +:+ id +:+ "_auto_" +:+ n +:+ ".md") = Some id.
Proof.
  intros Hid Hid' Hn Hn'.
  destruct (first_match_finds match_auto stem _ id (match_auto_here id n Hid Hid' Hn Hn'))
    as [id' Hm].
  rewrite Hm. f_equal.
  apply first_match_Some in Hm as (pre & t & Hname & Ht).
  apply match_auto_spec in Ht as (n' & e & -> & Hd' & _ & Hn'' & He).
  symmetry in Hname. by apply auto_shape_unique in Hname as [_ ?].
Qed.

(** The first pattern matches no file name of the second shape, unless
    the stem ends in [_auto]. *)
Lemma first_match_auto_none (stem id : string) :
  Str.all_chars Str.is_digit id = true ->
  Extra.ends_with "_auto" stem = false ->
  Text.first_match match_auto (stem +:+ "_" +:+ id +:+ ".md") = None.
Proof.
  intros Hid Hstem. apply first_match_None. intros pre t Hname.
  destruct (match_auto t) as [id'|] eqn:Ht; [exfalso|done].
  apply match_auto_spec in Ht as (n' & e & -> & Hd' & _ & Hn' & He).
  assert (H1 : (pre +:+ "_" +:+ id' +:+ "_auto_" +:+ n') +:+ ".md" +:+ e
               = (stem +:+ "_" +:+ id) +:+ ".md")
    by (by rewrite !str_app_assoc).
  apply md_end in H1 as [H1 _]; [|done].
  change ("_auto_" +:+ n') with ("_auto" +:+ "_" +:+ n') in H1.
  assert (H2 : ((pre +:+ "_" +:+ id') +:+ "_auto") +:+ "_" +:+ n' = stem +:+ "_" +:+ id)
    by (by rewrite !str_app_assoc).
  apply last_run_unique in H2 as [H2 _]; [|done..].
  by rewrite <- H2, ends_with_app in Hstem.
Qed.

Lemma first_match_plain (stem id : string) :
  Str.all_chars Str.is_digit id = true -> id <> EmptyString ->
  Text.first_match match_plain (stem +:+ "_" +:+ id +:+ ".md") = Some id.
Proof.
  intros Hid Hid'.
  destruct (first_match_finds match_plain stem _ id (match_plain_here id Hid Hid'))
    as [id' Hm].
  rewrite Hm. f_equal.
  apply first_match_Some in Hm as (pre & t & Hname & Ht).
  apply match_plain_spec in Ht as (e & -> & Hd' & _ & He).
  symmetry in Hname. by apply plain_shape_unique in Hname as [_ ?].
Qed.

(** What the function returns is a run of digits. *)
Lemma extract_digits (kb_path : string) :
  Str.all_chars Str.is_digit (extract_pubmed_id_from_kb_path kb_path) = true.
Proof.
  unfold extract_pubmed_id_from_kb_path.
  destruct (Text.first_match match_auto _) as [id|] eqn:Hauto.
  - apply first_match_Some in Hauto as (pre & t & _ & Ht).
    by apply match_auto_spec in Ht as (n & e & _ & Hd & _).
  - destruct (Text.first_match match_plain _) as [id|] eqn:Hplain; [|done].
    apply first_match_Some in Hplain as (pre & t & _ & Ht).
    by apply match_plain_spec in Ht as (e & _ & Hd & _).
Qed.

Lemma match_needs_underscore {A : Type} (f : string -> option A) (s : string) :
  (forall t, is_Some (f t) -> exists t', t = String "_" t') ->
  Text.has_char "_" s = false -> Text.first_match f s = None.
Proof.
  intros Hf Hs. apply first_match_None. intros pre t ->.
  destruct (f t) as [a|] eqn:Ht; [exfalso|done].
  destruct (Hf t) as [t' ->]; [by rewrite Ht|].
  rewrite has_char_app in Hs. cbn [Text.has_char] in Hs.
  rewrite Ascii.eqb_refl in Hs. by rewrite orb_true_r in Hs.
Qed.

Lemma file_name_of_path (dir name : string) :
  Text.has_char "/" name = false -> Text.after_last "/" (dir +:+ "/" +:+ name) = name.
Proof. intros H. by apply (after_last_app "/" dir name). Qed.

(** X4.  A path whose file name is [<stem>_<id>_auto_<n>.md], with [id] and
    [n] runs of digits that are not empty, gives [id] as PubMed id whatever
    the stem is, and is rendered as the PubMed address of [id]. *)
Theorem pubmed_id_of_auto_path (dir stem id n label kb_path : string)
    (Hstem : Text.has_char "/" stem = false)
    (Hid : Str.all_chars Str.is_digit id = true) (Hid' : id <> EmptyString)
    (Hn : Str.all_chars Str.is_digit n = true) (Hn' : n <> EmptyString)
    (Hpath : kb_path = dir +:+ "/" +:+ stem +:+ "_" +:+ id +:+ "_auto_" +:+ n +:+ ".md") :
  extract_pubmed_id_from_kb_path kb_path = id /\
  format_kb_reference kb_path label = "https://pubmed.ncbi.nlm.nih.gov/" +:+ id +:+ "/".
Proof.
  assert (Hextract : extract_pubmed_id_from_kb_path kb_path = id).
  { subst kb_path. unfold extract_pubmed_id_from_kb_path.
    rewrite file_name_of_path, first_match_auto; [done..|].
    rewrite !has_char_app, Hstem, (digits_no_slash id Hid), (digits_no_slash n Hn). done. }
  split; [done|]. unfold format_kb_reference. rewrite Hextract.
  by apply nonempty_spec in Hid' as ->.
Qed.

Lemma pubmed_id_of_auto_path_witness :
  extract_pubmed_id_from_kb_path
    "/root/autodl-fs/asd_firsts/extracted_markdown_files/markdown_batch_1749466568_22284798_auto_22284798.md"
    = "22284798" /\
  format_kb_reference
    "/root/autodl-fs/asd_firsts/extracted_markdown_files/markdown_batch_1749466568_22284798_auto_22284798.md"
    "paper" = "https://pubmed.ncbi.nlm.nih.gov/22284798/".
Proof.
  apply (pubmed_id_of_auto_path "/root/autodl-fs/asd_firsts/extracted_markdown_files"
           "markdown_batch_1749466568" "22284798" "22284798" "paper"); done.
Defined.

(** X5.  A path whose file name is [<stem>_<id>.md], with [id] a run of
    digits that is not empty and a stem that does not end in [_auto], is
    left to the second pattern, which gives [id]. *)
Theorem pubmed_id_of_plain_path (dir stem id label kb_path : string)
    (Hstem : Text.has_char "/" stem = false)
    (Hauto : Extra.ends_with "_auto" stem = false)
    (Hid : Str.all_chars Str.is_digit id = true) (Hid' : id <> EmptyString)
    (Hpath : kb_path = dir +:+ "/" +:+ stem +:+ "_" +:+ id +:+ ".md") :
  Text.first_match match_auto (Text.after_last "/" kb_path) = None /\
  extract_pubmed_id_from_kb_path kb_path = id /\
  format_kb_reference kb_path label = "https://pubmed.ncbi.nlm.nih.gov/" +:+ id +:+ "/".
Proof.
  assert (Hname : Text.after_last "/" kb_path = stem +:+ "_" +:+ id +:+ ".md").
  { subst kb_path. rewrite file_name_of_path; [done|].
    rewrite !has_char_app, Hstem, (digits_no_slash id Hid). done. }
  assert (Hnone : Text.first_match match_auto (Text.after_last "/" kb_path) = None)
    by (rewrite Hname; by apply first_match_auto_none).
  assert (Hextract : extract_pubmed_id_from_kb_path kb_path = id).
  { unfold extract_pubmed_id_from_kb_path. rewrite Hnone, Hname.
    by rewrite first_match_plain. }
  split; [done|]. split; [done|]. unfold format_kb_reference. rewrite Hextract.
  by apply nonempty_spec in Hid' as ->.
Qed.

Lemma pubmed_id_of_plain_path_witness :
  Text.first_match match_auto (Text.after_last "/" "/data/papers/autism_review_22284798.md") = None /\
  extract_pubmed_id_from_kb_path "/data/papers/autism_review_22284798.md" = "22284798" /\
  format_kb_reference "/data/papers/autism_review_22284798.md" "paper"
    = "https://pubmed.ncbi.nlm.nih.gov/22284798/".
Proof.
  apply (pubmed_id_of_plain_path "/data/papers" "autism_review" "22284798" "paper"); done.
Defined.

(** X6.  For a path of ASCII characters, [format_kb_reference] gives
    either the path as it came, when no id is found, or a PubMed address
    whose id is a run of the digits 0 to 9 that is not empty: the label has
    no part in it, and nothing of the path but digits reaches the
    address. *)
Theorem format_kb_reference_cases (kb_path label : string)
    (Hascii : Str.all_chars Text.is_ascii kb_path = true) :
  format_kb_reference kb_path label = kb_path /\
    extract_pubmed_id_from_kb_path kb_path = EmptyString
  \/ exists id,
      id <> EmptyString /\ Str.all_chars Str.is_digit id = true /\
      extract_pubmed_id_from_kb_path kb_path = id /\
      format_kb_reference kb_path label = "https://pubmed.ncbi.nlm.nih.gov/" +:+ id +:+ "/".
Proof.
  unfold format_kb_reference.
  pose proof (extract_digits kb_path) as Hd.
  destruct (extract_pubmed_id_from_kb_path kb_path) as [|c id]; [by left|].
  right. by exists (String c id).
Qed.

Lemma format_kb_reference_cases_witness :
  let kb_path := "/data/md/markdown_batch_1749466568_22284798_auto_22284798.md" in
  Str.all_chars Text.is_ascii kb_path = true /\
  extract_pubmed_id_from_kb_path kb_path = "22284798" /\
  format_kb_reference kb_path "Autism review" = "https://pubmed.ncbi.nlm.nih.gov/22284798/" /\
  format_kb_reference "/data/md/notes.md" "Notes" = "/data/md/notes.md".
Proof.
  intros kb_path.
  assert (Hascii : Str.all_chars Text.is_ascii kb_path = true) by reflexivity.
  split; [done|].
  destruct (format_kb_reference_cases kb_path "Autism review" Hascii)
    as [[_ Hnone]|(id & _ & _ & Hid & Hurl)].
  - by vm_compute in Hnone.
  - assert (Hvalue : extract_pubmed_id_from_kb_path kb_path = "22284798") by reflexivity.
    rewrite Hvalue in Hid. subst id. split; [done|]. split; [done|].
    by destruct (format_kb_reference_cases "/data/md/notes.md" "Notes" eq_refl)
      as [[Hsame _]|(id & Hne & _ & Hid & _)]; [|vm_compute in Hid; subst id].
Defined.

(** X7.  A path without an underscore has no PubMed id: both patterns
    begin with one, so the path is given back as it came. *)
Theorem path_without_underscore (kb_path label : string)
    (Hno : Text.has_char "_" kb_path = false) :
  extract_pubmed_id_from_kb_path kb_path = EmptyString /\
  format_kb_reference kb_path label = kb_path.
Proof.
  assert (Hextract : extract_pubmed_id_from_kb_path kb_path = EmptyString).
  { unfold extract_pubmed_id_from_kb_path.
    pose proof (after_last_keeps_none "/" "_" kb_path Hno) as Hname.
    rewrite !match_needs_underscore; [done|..|done]; try done.
    - intros [|c t] [id Ht]; [done|]. cbn [match_plain] in Ht.
      destruct (Ascii.eqb_spec c "_") as [->|]; [by eexists|done].
    - intros [|c t] [id Ht]; [done|]. cbn [match_auto] in Ht.
      destruct (Ascii.eqb_spec c "_") as [->|]; [by eexists|done]. }
  split; [done|]. unfold format_kb_reference. by rewrite Hextract.
Qed.

Lemma path_without_underscore_witness :
  extract_pubmed_id_from_kb_path "/data/papers/22284798.md" = EmptyString /\
  format_kb_reference "/data/papers/22284798.md" "paper" = "/data/papers/22284798.md".
Proof. apply (path_without_underscore "/data/papers/22284798.md" "paper"). done. Defined.

End Pubmed.

(** ** The reference list and the source list of the prompt *)

Section References.

Import Graph Report.

Lemma is_kb_web_marker (i : nat) (v l : string) :
  is_kb (of_source (mkSource v (web_marker i) l)) = false.
Proof.
  change (Str.startswith "[KB-" (web_marker i) = false).
  rewrite web_marker_shape.
  pose proof (of_nat_digits i) as Hd.
  destruct (Str.of_nat i) as [|c s]; [done|].
  cbn [Str.all_chars] in Hd. apply andb_true_iff in Hd as [Hc _].
  rewrite str_app_cons, startswith_cons, Ascii.eqb_refl, startswith_cons.
  destruct (Ascii.eqb_spec "K" c) as [<-|]; [by vm_compute in Hc|done].
Qed.

Lemma is_kb_kb_marker (i : nat) (v l : string) :
  is_kb (of_source (mkSource v (kb_marker i) l)) = true.
Proof.
  change (Str.startswith "[KB-" ("[KB-" +:+ Str.of_nat (i + 1) +:+ "]") = true).
  apply startswith_app.
Qed.

Lemma enumerate_from_lookup {A : Type} (l : list A) :
  forall i k : nat, enumerate_from i l !! k = (fun x => (i + k, x)) <$> l !! k.
Proof.
  induction l as [|y l IH]; intros i [|k]; cbn [enumerate_from]; try done.
  - cbn. by rewrite Nat.add_0_r.
  - cbn [lookup list_lookup]. rewrite IH. destruct (l !! k); [|done]. cbn. do 2 f_equal. lia.
Qed.

Lemma references_lookup (sources : list SourceDict) (k : nat) (s : SourceDict) :
  sources !! k = Some s -> references sources !! k = Some (reference_text k s).
Proof.
  intros Hk. unfold references, enumerate.
  by rewrite list_lookup_fmap, enumerate_from_lookup, Hk.
Qed.

Lemma before_last_app (c : ascii) (stem ext : string) :
  Text.has_char c ext = false -> Text.before_last c (stem +:+ String c ext) = stem.
Proof.
  intros Hext. induction stem as [|x stem IH].
  - rewrite str_app_nil_l. cbn [Text.before_last]. by rewrite Hext, Ascii.eqb_refl.
  - rewrite str_app_cons. cbn [Text.before_last].
    rewrite has_char_app. cbn [Text.has_char].
    by rewrite Ascii.eqb_refl, orb_true_r, IH.
Qed.

(** X8.  In the reference list a source stands at its position, counted
    from 1.  A source gathered by the web search, whose marker is [[i]], is
    listed with its link as it is; a source of the knowledge base, whose
    marker is [[KB-i]], goes through [format_kb_reference]. *)
Theorem references_of_gathered_sources (srcs : list Source) (k i : nat) (e : Source)
    (Hk : srcs !! k = Some e) :
  (short_url e = web_marker i ->
   references (of_source <$> srcs) !! k
     = Some ("[" +:+ Str.of_nat (k + 1) +:+ "] " +:+ value e)) /\
  (short_url e = kb_marker i ->
   references (of_source <$> srcs) !! k
     = Some ("[" +:+ Str.of_nat (k + 1) +:+ "] " +:+ format_kb_reference (value e) (label e))).
Proof.
  assert (Hlook : references (of_source <$> srcs) !! k = Some (reference_text k (of_source e)))
    by (apply references_lookup; by rewrite list_lookup_fmap, Hk).
  destruct e as [v u l]. cbn [short_url value label].
  split; intros ->; rewrite Hlook; unfold reference_text.
  - by rewrite is_kb_web_marker.
  - by rewrite is_kb_kb_marker.
Qed.

Lemma references_of_gathered_sources_witness :
  references (of_source <$> [mkSource "https://a.org/x" (web_marker 0) "A";
                             mkSource "/kb/p_12_auto_12.md" (kb_marker 0) "p.md"]) !! 1
    = Some ("[" +:+ Str.of_nat 2 +:+ "] " +:+ format_kb_reference "/kb/p_12_auto_12.md" "p.md").
Proof.
  apply (references_of_gathered_sources
           [mkSource "https://a.org/x" (web_marker 0) "A";
            mkSource "/kb/p_12_auto_12.md" (kb_marker 0) "p.md"] 1 0
           (mkSource "/kb/p_12_auto_12.md" (kb_marker 0) "p.md")); done.
Defined.

(** The entries of the knowledge-base loop, when it goes through. *)
Lemma kb_fold_entries (docs : list Document) :
  forall (i : nat) (text0 text : string) (srcs0 srcs : list Source),
    fold_left kb_doc_step (enumerate_from i docs) (inr (text0, srcs0)) = inr (text, srcs) ->
    exists new : list Source,
      srcs = (srcs0 ++ new)%list /\
      forall k e, new !! k = Some e ->
        exists d source id,
          docs !! k = Some d /\ doc_source d = Some source /\ doc_id d = Some id /\
          e = mkSource source (kb_marker (i + k)) (default ("doc_" +:+ id) (doc_filename d)).
Proof.
  induction docs as [|d docs IH]; intros i text0 text srcs0 srcs; cbn [enumerate_from fold_left].
  - intros [= <- <-]. exists []. by rewrite app_nil_r.
  - destruct (kb_doc_step (inr (text0, srcs0)) (i, d)) as [e|[text1 srcs1]] eqn:Hstep.
    { by rewrite kb_fold_raised. }
    apply kb_doc_step_inr in Hstep
      as (score & source & content & ident & _ & Hsource & _ & Hid & _ & -> & _).
    intros Hfold. apply IH in Hfold as (new & -> & Hnew).
    exists (mkSource source (kb_marker i) (default ("doc_" +:+ ident) (doc_filename d)) :: new).
    split; [by rewrite <- List.app_assoc|].
    intros [|k] e Hk; cbn in Hk.
    + injection Hk as <-. exists d, source, ident. by rewrite Nat.add_0_r.
    + destruct (Hnew k e Hk) as (d' & source' & id' & Hd' & Hs' & Hi' & ->).
      exists d', source', id'. repeat split; try done. do 2 f_equal. lia.
Qed.

(** X9.  How the source list of the prompt describes a source that
    [knowledge_base_research] built from a document: a document without
    file name is described by its path, since the label it gets begins with
    [doc_]; a document whose file name is [<stem>.<ext>], with no dot in
    [ext], and does not begin with [doc_], is described by [stem]. *)
Theorem kb_source_description (docs : list Document) (text : string) (srcs : list Source)
    (k : nat) (e : Source) (d : Document)
    (Hrun : kb_process docs = inr (text, srcs))
    (He : srcs !! k = Some e) (Hd : docs !! k = Some d) :
  (doc_filename d = None ->
   source_desc (of_source e) = "Knowledge Base: " +:+ value e) /\
  (forall stem ext : string,
     doc_filename d = Some (stem +:+ "." +:+ ext) ->
     Text.has_char "." ext = false ->
     Str.startswith "doc_" (stem +:+ "." +:+ ext) = false ->
     source_desc (of_source e) = "Knowledge Base Document: " +:+ stem).
Proof.
  unfold kb_process, enumerate in Hrun.
  apply kb_fold_entries in Hrun as (new & -> & Hnew). rewrite app_nil_l in He.
  destruct (Hnew k e He) as (d' & source & id & Hd' & _ & _ & ->).
  assert (d' = d) as -> by congruence. clear Hnew He Hd Hd'.
  unfold source_desc. rewrite !is_kb_kb_marker. split.
  - intros ->.
    change (get (d_label (of_source (mkSource source (kb_marker (0 + k)) (default ("doc_" +:+ id) None)))))
      with ("doc_" +:+ id).
    by rewrite startswith_app, andb_false_r.
  - intros stem ext -> Hext Hdoc.
    change (get (d_label (of_source
        (mkSource source (kb_marker (0 + k)) (default ("doc_" +:+ id) (Some (stem +:+ "." +:+ ext)))))))
      with (stem +:+ "." +:+ ext).
    rewrite Hdoc. change ("." +:+ ext) with (String "." ext).
    rewrite has_char_app, before_last_app by done. cbn [Text.has_char negb].
    rewrite Ascii.eqb_refl. cbn [orb]. rewrite orb_true_r, andb_true_r.
    by destruct stem.
Qed.

Lemma kb_source_description_witness :
  source_desc (of_source (mkSource "/kb/p_12.md" (kb_marker 0) "doc_7"))
    = "Knowledge Base: " +:+ "/kb/p_12.md".
Proof.
  pose (d := mkDocument (Some (inr "0.9")) (Some "/kb/p_12.md") (Some (inr "text")) (Some "7") None).
  pose (run := match kb_process [d] with inr p => p | inl _ => (EmptyString, []) end).
  apply (proj1 (kb_source_description [d] run.1 run.2 0
                  (mkSource "/kb/p_12.md" (kb_marker 0) "doc_7") d
                  eq_refl eq_refl eq_refl)).
  reflexivity.
Defined.

End References.

(** ** Traced content *)

Section Tracing.

Import Report Prompt.

Lemma find_spec (p : string) :
  forall (s : string) (k : nat),
    Text.find p s = Some k ->
    s = Str.take k s +:+ p +:+ Str.drop (k + String.length p) s /\
    k + String.length p <= String.length s.
Proof.
  induction s as [|c s IH]; intros k; cbn [Text.find].
  - destruct (Str.startswith p EmptyString) eqn:Hp; [|done]. intros [= <-].
    destruct p; [done|by cbn in Hp].
  - destruct (Str.startswith p (String c s)) eqn:Hp.
    + intros [= <-]. cbn [Str.take Nat.add]. rewrite str_app_nil_l.
      pose proof (startswith_split _ _ Hp) as Hs. split; [done|].
      apply (f_equal String.length) in Hs. rewrite str_app_length in Hs. lia.
    + destruct (Text.find p s) as [j|] eqn:Hf; [|done]. cbn. intros [= <-].
      destruct (IH j eq_refl) as [Hs Hlen]. split; [|lia].
      cbn [Str.take Str.drop Nat.add]. rewrite str_app_cons. by f_equal.
Qed.

Lemma occurs_find (p : string) :
  forall s : string, Str.occurs p s = true -> is_Some (Text.find p s).
Proof.
  induction s as [|c s IH]; cbn [Str.occurs Text.find].
  - rewrite orb_false_r. by intros ->.
  - destruct (Str.startswith p (String c s)); [done|]. cbn [orb].
    intros [k Hk]%IH. rewrite Hk. by eexists.
Qed.

Lemma subseq_app_r (s m : string) : Str.subseq s (s +:+ m).
Proof.
  rewrite <- (str_app_empty_r s) at 1.
  apply subseq_app; [apply subseq_refl|].
  rewrite <- (str_app_empty_r m). apply subseq_app_skip. constructor.
Qed.

(** A turn of the loop keeps [Extra.traced]. *)
Lemma trace_step_traced (sources : list SourceDict) (content : string)
    (acc : string * string) (item : string * Z) :
  Extra.traced content acc -> Extra.traced content (trace_step sources acc item).
Proof.
  destruct acc as [traced remaining], item as [snippet idx].
  intros (consumed & Hcontent & Hsub). cbn [fst snd] in *. unfold trace_step.
  destruct (Str.occurs snippet remaining) eqn:Hocc; cbn [andb]; [|by exists consumed].
  destruct (index_ok sources idx); [|by exists consumed].
  destruct (sources !! Z.to_nat idx) as [source|]; [|by exists consumed].
  destruct (occurs_find _ _ Hocc) as [k Hk].
  destruct (find_spec _ _ _ Hk) as [Hsplit Hlen].
  unfold Text.find_index. rewrite Hk.
  unfold Str.slice_to, Str.slice_from.
  rewrite !slice_bound_in_range by lia.
  replace (Z.to_nat (Z.of_nat k + Z.of_nat (String.length snippet)))
    with (k + String.length snippet) by lia.
  rewrite Nat2Z.id.
  exists (consumed +:+ Str.take k remaining +:+ snippet). cbn [fst snd]. split.
  - rewrite Hcontent. rewrite Hsplit at 1. by rewrite !str_app_assoc.
  - assert (Hpre : Str.subseq (consumed +:+ Str.take k remaining)
                     (if (0 <? Z.of_nat k)%Z then traced +:+ Str.take k remaining else traced)).
    { destruct (Z.ltb_spec 0 (Z.of_nat k)).
      - apply subseq_app; [done|apply subseq_refl].
      - replace k with 0 by lia. destruct remaining; cbn [Str.take];
          by rewrite str_app_empty_r. }
    rewrite <- (str_app_assoc consumed).
    apply subseq_app; [done|]. apply subseq_app_r.
Qed.

Lemma trace_fold_traced (sources : list SourceDict) (content : string)
    (items : list (string * Z)) :
  forall acc : string * string,
    Extra.traced content acc ->
    Extra.traced content (fold_left (trace_step sources) items acc).
Proof.
  induction items as [|item items IH]; intros acc Hacc; [done|].
  cbn [fold_left]. by apply IH, trace_step_traced.
Qed.

(** X10.  [create_traced_content_segments] only adds text: whatever the
    mapping and the sources are, the content is a subsequence of the
    result. *)
Theorem traced_content_keeps_content (content : string)
    (source_mapping : list (string * Z)) (sources_gathered : list SourceDict) :
  Str.subseq content (create_traced_content_segments content source_mapping sources_gathered).
Proof.
  unfold create_traced_content_segments.
  destruct (_ || _); [apply subseq_refl|].
  set (items := sorted_by _ _).
  pose proof (trace_fold_traced sources_gathered content items (EmptyString, content)) as H.
  destruct (fold_left _ _ _) as [traced remaining].
  destruct H as (consumed & -> & Hsub).
  - exists EmptyString. split; [done|constructor].
  - cbn [fst snd] in *. apply subseq_app; [done|apply subseq_refl].
Qed.

Lemma insert_by_Forall {A : Type} (key : A -> Z) (P : A -> Prop) (x : A) (l : list A) :
  P x -> Forall P l -> Forall P (insert_by key x l).
Proof.
  intros Hx Hl. induction Hl as [|y l Hy Hl IH]; cbn [insert_by]; [by repeat constructor|].
  destruct (key y <? key x)%Z; by repeat constructor.
Qed.

Lemma sorted_by_Forall {A : Type} (key : A -> Z) (P : A -> Prop) (l : list A) :
  Forall P l -> Forall P (sorted_by key l).
Proof.
  induction 1 as [|x l Hx Hl IH]; [constructor|]. cbn. by apply insert_by_Forall.
Qed.

Lemma trace_fold_idle (sources : list SourceDict) (content : string)
    (items : list (string * Z)) :
  Forall (Extra.idle content sources) items ->
  fold_left (trace_step sources) items (EmptyString, content) = (EmptyString, content).
Proof.
  induction 1 as [|[snippet idx] items Hitem _ IH]; [done|].
  cbn [fold_left]. unfold trace_step at 2.
  destruct Hitem as [H|H]; cbn [fst snd] in H; rewrite H, ?andb_false_r; done.
Qed.

(** X11.  A mapping none of whose items applies to the content, because
    the snippet does not occur in it or the index is not one of a source
    (a negative index is none), leaves the content as it is. *)
Theorem traced_content_unchanged (content : string)
    (source_mapping : list (string * Z)) (sources_gathered : list SourceDict)
    (Hidle : Forall (Extra.idle content sources_gathered) source_mapping) :
  create_traced_content_segments content source_mapping sources_gathered = content.
Proof.
  unfold create_traced_content_segments.
  destruct (_ || _); [done|].
  rewrite trace_fold_idle; [done|]. by apply sorted_by_Forall.
Qed.

Lemma traced_content_unchanged_witness :
  create_traced_content_segments "abc" [("zz", 0%Z); ("bc", 5%Z); ("c", (-1)%Z)]
    [mkSourceDict (Some "http://a") (Some "[0]") (Some "A")] = "abc".
Proof.
  apply traced_content_unchanged.
  apply List.Forall_cons; [by left|]. apply List.Forall_cons; [by right|].
  apply List.Forall_cons; [by right|]. apply List.Forall_nil.
Defined.

End Tracing.

(** ** Citations from grounding metadata *)

Section Citations.

Import Grounding.

Lemma link_fold_raised (md : GroundingMetadata) (m : gmap string string) (inds : list Z)
    (e : PyError) :
  fold_left (link_step md m) inds (inl e) = inl e.
Proof. induction inds as [|ind inds IH]; [done|]. by cbn. Qed.

Lemma support_fold_raised (md : GroundingMetadata) (m : gmap string string)
    (supports : list Support) (e : PyError) :
  fold_left (support_step md m) supports (inl e) = inl e.
Proof. induction supports as [|s supports IH]; [done|]. by cbn. Qed.

Lemma link_step_inr (md : GroundingMetadata) (m : gmap string string) (links : list Link)
    (ind : Z) :
  link_step md m (inr links) ind =
  match chunk_link md m ind with
  | inr link => inr (links ++ [link])%list
  | inl TypeError => inl TypeError
  | inl _ => inr links
  end.
Proof. reflexivity. Qed.

(** The inner loop raises a [TypeError] or goes through. *)
Lemma link_fold_cases (md : GroundingMetadata) (m : gmap string string) (inds : list Z) :
  forall links : list Link,
    fold_left (link_step md m) inds (inr links) = inl TypeError \/
    exists links', fold_left (link_step md m) inds (inr links) = inr links'.
Proof.
  induction inds as [|ind inds IH]; intros links; cbn [fold_left]; [by right; eexists|].
  rewrite link_step_inr.
  destruct (chunk_link md m ind) as [[]|link]; try apply IH.
  left. apply link_fold_raised.
Qed.

(** With chunks that are not [None], the body of the [try] raises no
    [TypeError], and the inner loop goes through. *)
Lemma chunk_link_no_TypeError (md : GroundingMetadata) (m : gmap string string) (ind : Z) :
  grounding_chunks md <> IsNone -> chunk_link md m ind <> inl TypeError.
Proof.
  intros Hmd. unfold chunk_link.
  destruct (grounding_chunks md) as [| |chunks]; cbn [getattr bind]; try done.
  destruct (index chunks ind) as [e|chunk] eqn:Hindex; cbn [bind].
  { unfold index in Hindex. repeat case_match; congruence. }
  destruct (c_web chunk) as [| |w]; cbn [getattr bind]; try done.
  destruct (w_uri w); cbn [getattr bind]; try done;
    destruct (w_title w); cbn [getattr bind]; try done; by case_match.
Qed.

Lemma link_fold_returns (md : GroundingMetadata) (m : gmap string string) (inds : list Z) :
  grounding_chunks md <> IsNone ->
  forall links : list Link,
    exists links', fold_left (link_step md m) inds (inr links) = inr links'.
Proof.
  intros Hmd. induction inds as [|ind inds IH]; intros links; cbn [fold_left]; [by eexists|].
  rewrite link_step_inr.
  pose proof (chunk_link_no_TypeError md m ind Hmd) as Hno.
  destruct (chunk_link md m ind) as [[]|link]; try apply IH. done.
Qed.

(** One turn of the outer loop raises an [AttributeError] or a
    [TypeError], or goes through. *)
Lemma support_step_cases (md : GroundingMetadata) (m : gmap string string)
    (citations : list Citation) (support : Support) :
  support_step md m (inr citations) support <> inl IndexError.
Proof.
  unfold support_step. cbn [bind].
  destruct (segment support) as [| |seg]; try done.
  destruct (s_start_index seg); cbn [getattr bind]; try done;
    destruct (s_end_index seg); cbn [getattr bind]; try done;
    (destruct (grounding_chunk_indices support) as [| |[|ind inds]]; cbn [bind]; try done;
     destruct (link_fold_cases md m (ind :: inds) []) as [->|[links' ->]]; by cbn [bind]).
Qed.

Lemma support_fold_no_IndexError (md : GroundingMetadata) (m : gmap string string)
    (supports : list Support) :
  forall citations : list Citation,
    fold_left (support_step md m) supports (inr citations) <> inl IndexError.
Proof.
  induction supports as [|s supports IH]; intros citations; cbn [fold_left]; [done|].
  pose proof (support_step_cases md m citations s) as Hs.
  destruct (support_step md m (inr citations) s) as [e|citations']; [|apply IH].
  rewrite support_fold_raised. congruence.
Qed.

(** X12.  [get_citations] never raises an [IndexError]: a chunk index out
    of range, or a title without a dot, only drops that link. *)
Theorem get_citations_no_IndexError (response : option Response) (m : gmap string string) :
  get_citations response m <> inl IndexError.
Proof.
  unfold get_citations. destruct response as [response|]; [|done].
  destruct (candidates response) as [| |[|candidate rest]]; cbn [getattr bind]; try done.
  destruct (grounding_metadata candidate) as [| |md]; try done.
  destruct (grounding_supports md) as [| |supports]; try done.
  apply support_fold_no_IndexError.
Qed.

Lemma support_step_inr (md : GroundingMetadata) (m : gmap string string)
    (citations : list Citation) (support : Support) :
  support_step md m (inr citations) support =
  match segment support with
  | Missing | IsNone => inr citations
  | Has seg =>
      let? start := getattr (s_start_index seg) in
      let? end_index := getattr (s_end_index seg) in
      match end_index with
      | None => inr citations
      | Some end_index =>
          let? links :=
            match grounding_chunk_indices support with
            | Has (ind :: inds) => fold_left (link_step md m) (ind :: inds) (inr [])
            | _ => inr []
            end in
          inr (citations ++ [mkCitation (default 0%Z start) end_index links])%list
      end
  end.
Proof. reflexivity. Qed.

(** With chunks that are not [None] and a support that has its index
    attributes, a turn of the outer loop goes through, and adds a citation
    exactly for a support that [Extra.span_of] takes. *)
Lemma support_step_returns (md : GroundingMetadata) (m : gmap string string)
    (citations : list Citation) (support : Support) :
  grounding_chunks md <> IsNone -> Extra.has_indices support ->
  exists citations',
    support_step md m (inr citations) support = inr citations' /\
    map (fun c => (cit_start_index c, cit_end_index c)) citations' =
    (map (fun c => (cit_start_index c, cit_end_index c)) citations
       ++ option_list (Extra.span_of support))%list.
Proof.
  intros Hmd Hs. rewrite support_step_inr. unfold Extra.span_of, Extra.has_indices in *.
  destruct (segment support) as [| |seg];
    try (exists citations; by rewrite app_nil_r).
  destruct (Hs seg eq_refl) as [Hstart Hend].
  destruct (s_start_index seg) as [| |b]; [done|..];
    (destruct (s_end_index seg) as [| |e]; [done|..]; cbn [getattr bind];
     [exists citations; by rewrite app_nil_r|]);
    (assert (Hlinks : exists links,
               match grounding_chunk_indices support with
               | Has (ind :: inds) => fold_left (link_step md m) (ind :: inds) (inr [])
               | _ => inr []
               end = inr links)
       by (destruct (grounding_chunk_indices support) as [| |[|ind inds]];
           try (by eexists); by apply link_fold_returns);
     destruct Hlinks as [links ->]; cbn [bind];
     eexists; split; [done|]; by rewrite map_app).
Qed.

Lemma support_fold_returns (md : GroundingMetadata) (m : gmap string string)
    (supports : list Support) :
  grounding_chunks md <> IsNone -> Forall Extra.has_indices supports ->
  forall citations : list Citation,
    exists citations',
      fold_left (support_step md m) supports (inr citations) = inr citations' /\
      map (fun c => (cit_start_index c, cit_end_index c)) citations' =
      (map (fun c => (cit_start_index c, cit_end_index c)) citations
         ++ omap Extra.span_of supports)%list.
Proof.
  intros Hmd Hall. induction Hall as [|s supports Hs _ IH]; intros citations.
  - exists citations. by rewrite app_nil_r.
  - cbn [fold_left].
    destruct (support_step_returns md m citations s Hmd Hs) as (c1 & -> & Hc1).
    destruct (IH c1) as (c2 & -> & Hc2). exists c2. split; [done|].
    rewrite Hc2, Hc1, <- List.app_assoc. f_equal. cbn [omap list_omap].
    by destruct (Extra.span_of s).
Qed.

(** X13.  When [get_citations] returns and what: for a response whose
    first candidate has grounding metadata with a list of supports, chunks
    that are not [None], and supports whose segments have their two index
    attributes, it raises nothing, and the citations are, in order, those
    of the supports that have a segment with an [end_index]; a missing
    [start_index] counts as 0.  No chunk index and no chunk can make it
    raise. *)
Theorem get_citations_returns (response : Response) (md : GroundingMetadata)
    (rest : list Candidate) (supports : list Support) (m : gmap string string)
    (Hcand : candidates response = Has (mkCandidate (Has md) :: rest))
    (Hsupports : grounding_supports md = Has supports)
    (Hchunks : grounding_chunks md <> IsNone)
    (Hindices : Forall Extra.has_indices supports) :
  exists cits : list Citation,
    get_citations (Some response) m = inr cits /\
    map (fun c => (cit_start_index c, cit_end_index c)) cits = omap Extra.span_of supports.
Proof.
  unfold get_citations. rewrite Hcand. cbn [getattr bind grounding_metadata].
  rewrite Hsupports.
  destruct (support_fold_returns md m supports Hchunks Hindices []) as (cits & -> & Hspans).
  by exists cits.
Qed.

Lemma get_citations_returns_witness :
  exists cits : list Citation,
    get_citations (Some (Sample.response Sample.chunks)) ∅ = inr cits /\
    map (fun c => (cit_start_index c, cit_end_index c)) cits = [(0, 5); (6, 11)]%Z.
Proof.
  apply (get_citations_returns (Sample.response Sample.chunks) (Sample.metadata Sample.chunks)
           [] Sample.supports ∅ eq_refl eq_refl); [done|].
  repeat apply List.Forall_cons; try apply List.Forall_nil;
    intros seg [= <-]; by split.
Defined.

(** *** What the links are *)

Lemma index_inr {A : Type} (l : list A) (i : Z) (x : A) :
  index l i = inr x -> exists j : nat, l !! j = Some x.
Proof.
  unfold index. destruct (_ <? 0)%Z; [done|].
  destruct (l !! Z.to_nat _) eqn:Hl; [|done]. intros [= <-]. by eexists.
Qed.

(** A link comes from a chunk of the list that has a [web] with a [uri]
    attribute and a title with a dot. *)
Lemma chunk_link_inr (md : GroundingMetadata) (m : gmap string string) (ind : Z)
    (link : Link) :
  chunk_link md m ind = inr link ->
  exists (chunks : list Chunk) (j : nat) (chunk : Chunk) (w : WebInfo) (title : string),
    grounding_chunks md = Has chunks /\ chunks !! j = Some chunk /\
    c_web chunk = Has w /\ w_title w = Has title /\ Text.has_char "." title = true /\
    exists uri : option string,
      getattr (w_uri w) = inr uri /\
      link = mkLink (Text.before_first "." title) (uri ≫= (fun u => m !! u)) uri.
Proof.
  unfold chunk_link.
  destruct (grounding_chunks md) as [| |chunks]; cbn [getattr bind]; try done.
  destruct (index chunks ind) as [e|chunk] eqn:Hindex; cbn [bind]; [done|].
  apply index_inr in Hindex as [j Hj].
  destruct (c_web chunk) as [| |w] eqn:Hw; cbn [getattr bind]; try done.
  destruct (getattr (w_uri w)) as [e|uri] eqn:Huri; cbn [bind]; [done|].
  destruct (w_title w) as [| |title] eqn:Htitle; cbn [getattr bind]; try done.
  destruct (Text.has_char "." title) eqn:Hdot; [|done].
  intros [= <-]. exists chunks, j, chunk, w, title. repeat split; try done.
  by exists uri.
Qed.

Section LinkInvariant.

Variable P : Link -> Prop.
Variable md : GroundingMetadata.
Variable m : gmap string string.
Hypothesis HP : forall (ind : Z) (link : Link), chunk_link md m ind = inr link -> P link.

Lemma link_fold_Forall (inds : list Z) :
  forall links links' : list Link,
    Forall P links ->
    fold_left (link_step md m) inds (inr links) = inr links' -> Forall P links'.
Proof.
  induction inds as [|ind inds IH]; intros links links' Hlinks; cbn [fold_left].
  - by intros [= <-].
  - rewrite link_step_inr.
    destruct (chunk_link md m ind) as [[]|link] eqn:Hlink; try by apply IH.
    + by rewrite link_fold_raised.
    + apply IH, Forall_app. split; [done|]. constructor; [by eapply HP|constructor].
Qed.

Lemma support_step_Forall (citations citations' : list Citation) (support : Support) :
  Forall (fun c => Forall P (cit_segments c)) citations ->
  support_step md m (inr citations) support = inr citations' ->
  Forall (fun c => Forall P (cit_segments c)) citations'.
Proof.
  intros Hc. rewrite support_step_inr.
  destruct (segment support) as [| |seg]; try by intros [= <-].
  destruct (getattr (s_start_index seg)) as [e|start]; cbn [bind]; [done|].
  destruct (getattr (s_end_index seg)) as [e|[e|]]; cbn [bind]; [done| |by intros [= <-]].
  destruct (grounding_chunk_indices support) as [| |[|ind inds]]; cbn [bind];
    try (intros [= <-]; apply Forall_app; split; [done|]; by repeat constructor).
  destruct (fold_left _ _ _) as [e'|links] eqn:Hfold; cbn [bind]; [done|].
  intros [= <-]. apply Forall_app. split; [done|]. constructor; [|constructor].
  cbn [cit_segments]. by eapply link_fold_Forall.
Qed.

Lemma support_fold_Forall (supports : list Support) :
  forall citations citations' : list Citation,
    Forall (fun c => Forall P (cit_segments c)) citations ->
    fold_left (support_step md m) supports (inr citations) = inr citations' ->
    Forall (fun c => Forall P (cit_segments c)) citations'.
Proof.
  induction supports as [|s supports IH]; intros citations citations' Hc; cbn [fold_left].
  - by intros [= <-].
  - destruct (support_step md m (inr citations) s) as [e|c1] eqn:Hstep.
    + by rewrite support_fold_raised.
    + apply IH. by eapply support_step_Forall.
Qed.

Lemma get_citations_Forall (response : Response) (rest : list Candidate)
    (cits : list Citation) :
  candidates response = Has (mkCandidate (Has md) :: rest) ->
  get_citations (Some response) m = inr cits ->
  Forall (fun c => Forall P (cit_segments c)) cits.
Proof.
  unfold get_citations. intros ->. cbn [getattr bind grounding_metadata].
  destruct (grounding_supports md) as [| |supports]; try done.
  - by intros [= <-].
  - by apply support_fold_Forall.
Qed.

End LinkInvariant.

(** X14.  [get_citations] on the map that [resolve_urls] builds from the
    chunks of the response: every link of every citation has the address
    of a chunk as its value and a short address that is not [None], the
    one of the first chunk with that address. *)
Theorem citations_resolved (response : Response) (md : GroundingMetadata)
    (rest : list Candidate) (chunks : list Chunk) (sites : list Utils.Site) (id : Z)
    (cits : list Citation) (c : Citation) (link : Link)
    (Hcand : candidates response = Has (mkCandidate (Has md) :: rest))
    (Hchunks : grounding_chunks md = Has chunks)
    (Hsites : Forall2 Extra.reads_as chunks sites)
    (Hrun : get_citations (Some response) (Utils.resolve_urls sites id) = inr cits)
    (Hc : c ∈ cits) (Hlink : link ∈ cit_segments c) :
  exists (k : nat) (site : Utils.Site),
    sites !! k = Some site /\
    l_value link = Some (Utils.uri (Utils.web site)) /\
    l_short_url link = Some (Utils.short_url_of id k) /\
    forall (j : nat) (site' : Utils.Site),
      sites !! j = Some site' -> j < k ->
      Utils.uri (Utils.web site') <> Utils.uri (Utils.web site).
Proof.
  assert (Hall : Forall (fun c => Forall
    (fun link => exists (k : nat) (site : Utils.Site),
       sites !! k = Some site /\
       l_value link = Some (Utils.uri (Utils.web site)) /\
       l_short_url link = Some (Utils.short_url_of id k) /\
       forall (j : nat) (site' : Utils.Site),
         sites !! j = Some site' -> j < k ->
         Utils.uri (Utils.web site') <> Utils.uri (Utils.web site))
    (cit_segments c)) cits); last first.
  { rewrite Forall_forall in Hall. specialize (Hall c Hc).
    rewrite Forall_forall in Hall. exact (Hall link Hlink). }
  eapply get_citations_Forall; [|exact Hcand|exact Hrun].
  clear c Hc link Hlink cits Hrun. intros ind link Hlinked.
  apply chunk_link_inr in Hlinked
    as (chunks' & j & chunk & w & title & Hmd & Hj & Hw & _ & _ & uri & Huri & ->).
  assert (chunks' = chunks) as -> by congruence.
  destruct (Forall2_lookup_l _ _ _ _ _ Hsites Hj) as (site & Hsite & w' & Hw' & Hu).
  assert (w' = w) as -> by congruence.
  rewrite Hu in Huri. injection Huri as <-.
  cbn [l_value l_short_url mbind option_bind].
  rewrite resolve_urls_lookup.
  set (urls := map (fun site => Utils.uri (Utils.web site)) sites).
  assert (Hin : urls !! j = Some (Utils.uri (Utils.web site)))
    by (unfold urls; by rewrite list_lookup_fmap, Hsite).
  destruct (list_find (fun x => x = Utils.uri (Utils.web site)) urls) as [[k x]|] eqn:Hfind.
  - apply list_find_Some in Hfind as (Hk & -> & Hfirst).
    unfold urls in Hk. rewrite list_lookup_fmap in Hk.
    destruct (sites !! k) as [site0|] eqn:Hsite0; [|done]. injection Hk as Hk.
    exists k, site0. rewrite Hk. repeat split; try done.
    intros j' site' Hj' Hlt Heq.
    apply (Hfirst j' (Utils.uri (Utils.web site'))); [|done|done].
    unfold urls. by rewrite list_lookup_fmap, Hj'.
  - apply list_find_None in Hfind. rewrite Forall_forall in Hfind.
    destruct (Hfind (Utils.uri (Utils.web site))); [|done].
    by eapply list_elem_of_lookup_2.
Qed.

Lemma citations_resolved_witness :
  exists cits : list Citation,
    get_citations (Some (Sample.response Sample.chunks)) (Utils.resolve_urls Sample.sites 7)
      = inr cits /\
    forall (c : Citation) (link : Link),
      c ∈ cits -> link ∈ cit_segments c ->
      exists (k : nat) (site : Utils.Site),
        Sample.sites !! k = Some site /\
        l_value link = Some (Utils.uri (Utils.web site)) /\
        l_short_url link = Some (Utils.short_url_of 7 k) /\
        forall (j : nat) (site' : Utils.Site),
          Sample.sites !! j = Some site' -> j < k ->
          Utils.uri (Utils.web site') <> Utils.uri (Utils.web site).
Proof.
  destruct (get_citations (Some (Sample.response Sample.chunks))
              (Utils.resolve_urls Sample.sites 7)) as [e|cits] eqn:Hrun.
  { by vm_compute in Hrun. }
  exists cits. split; [done|]. intros c link.
  apply (citations_resolved (Sample.response Sample.chunks) (Sample.metadata Sample.chunks)
           [] Sample.chunks Sample.sites 7 cits c link eq_refl eq_refl); [|done].
  repeat apply List.Forall2_cons; try apply List.Forall2_nil; by eexists.
Defined.

(** X15.  When no title of a chunk has a dot, no citation has a link:
    the label is the text before the first dot of the title, and a title
    without a dot skips the chunk. *)
Theorem dotless_titles_give_no_links (response : Response) (md : GroundingMetadata)
    (rest : list Candidate) (chunks : list Chunk) (m : gmap string string)
    (cits : list Citation) (c : Citation)
    (Hcand : candidates response = Has (mkCandidate (Has md) :: rest))
    (Hchunks : grounding_chunks md = Has chunks)
    (Hdotless : Forall Extra.dotless chunks)
    (Hrun : get_citations (Some response) m = inr cits)
    (Hc : c ∈ cits) :
  cit_segments c = [].
Proof.
  assert (Hall : Forall (fun c => Forall (fun _ => False) (cit_segments c)) cits); last first.
  { rewrite Forall_forall in Hall. specialize (Hall c Hc). by destruct Hall. }
  eapply get_citations_Forall; [|exact Hcand|exact Hrun].
  intros ind link Hlinked.
  apply chunk_link_inr in Hlinked
    as (chunks' & j & chunk & w & title & Hmd & Hj & Hw & Htitle & Hdot & _).
  assert (chunks' = chunks) as -> by congruence.
  rewrite Forall_forall in Hdotless.
  rewrite (Hdotless chunk (list_elem_of_lookup_2 _ _ _ Hj) w title Hw Htitle) in Hdot. done.
Qed.

Lemma dotless_titles_give_no_links_witness :
  exists cits : list Citation,
    get_citations (Some (Sample.response Sample.plain_chunks)) ∅ = inr cits /\
    length cits = 2 /\
    forall c : Citation, c ∈ cits -> cit_segments c = [].
Proof.
  destruct (get_citations (Some (Sample.response Sample.plain_chunks)) ∅)
    as [e|cits] eqn:Hrun.
  { by vm_compute in Hrun. }
  exists cits. split; [done|]. split.
  { vm_compute in Hrun. by injection Hrun as <-. }
  intros c.
  apply (dotless_titles_give_no_links (Sample.response Sample.plain_chunks)
           (Sample.metadata Sample.plain_chunks) [] Sample.plain_chunks ∅ cits c
           eq_refl eq_refl); [|done].
  repeat apply List.Forall_cons; try apply List.Forall_nil;
    intros w title [= <-] [= <-]; done.
Defined.

End Citations.

(** ** Content with citation markers *)

Section Prepare.

Import Report Prompt.

Lemma marker_fold_filter (sources : list SourceDict) (idxs : list Z) :
  forall markers : list string,
    fold_left (marker_step sources) (List.filter (index_ok sources) idxs) markers
    = fold_left (marker_step sources) idxs markers.
Proof.
  induction idxs as [|idx idxs IH]; intros markers; [done|].
  cbn [List.filter fold_left]. unfold marker_step at 3.
  destruct (index_ok sources idx) eqn:Hok; [|apply IH].
  cbn [fold_left]. unfold marker_step at 2. rewrite Hok. apply IH.
Qed.

Lemma prepare_step_valid (sources : list SourceDict) (formatted : string)
    (segment : ContentSegment) :
  prepare_step sources formatted (Extra.with_valid_indices sources segment)
  = prepare_step sources formatted segment.
Proof.
  unfold prepare_step, Extra.with_valid_indices. cbn [cs_content cs_source_indices].
  destruct (nonempty (get (cs_content segment))); [|done].
  destruct (cs_source_indices segment) as [idxs|]; [|done].
  cbn [fmap option_fmap option_map default from_option].
  change (id ?x) with x.
  pose proof (marker_fold_filter sources idxs []) as Hfold.
  destruct (List.filter (index_ok sources) idxs) as [|i l] eqn:Hfilter.
  - cbn [fold_left] in Hfold. rewrite <- Hfold.
    by destruct idxs.
  - rewrite Hfold. destruct idxs as [|i' l']; [done|]. done.
Qed.

(** X16.  [prepare_content_with_citations] passes over an index that is
    not the index of a source, a negative one included: the result is the
    one for the segments without these indices, and a segment left with no
    index is written like one that had none, without the space that goes
    before markers. *)
Theorem prepare_content_ignores_bad_indices (content_segments : list ContentSegment)
    (sources_gathered : list SourceDict) :
  prepare_content_with_citations content_segments sources_gathered
  = prepare_content_with_citations
      (map (Extra.with_valid_indices sources_gathered) content_segments) sources_gathered.
Proof.
  unfold prepare_content_with_citations.
  replace (nonempty_list (map (Extra.with_valid_indices sources_gathered) content_segments))
    with (nonempty_list content_segments) by (by destruct content_segments).
  destruct (_ || _); [done|].
  generalize EmptyString.
  induction content_segments as [|segment segments IH]; intros formatted; [done|].
  cbn [map fold_left]. by rewrite prepare_step_valid, IH.
Qed.

End Prepare.

(** ** Validation of citations *)

Section Validation.

Import Graph Report Validate.

Lemma pretty_N_go_nonempty (x : N) :
  forall s : string, s <> EmptyString -> pretty_N_go x s <> EmptyString.
Proof.
  induction (N.lt_wf_0 x) as [x _ IH]; intros s Hs.
  assert (x = 0 \/ 0 < x)%N as [->|Hx] by lia.
  - by rewrite pretty_N_go_0.
  - rewrite pretty_N_go_step by done. apply IH; [by apply N.div_lt|done].
Qed.

Lemma of_nat_nonempty (n : nat) : Str.of_nat n <> EmptyString.
Proof.
  unfold Str.of_nat, pretty, pretty_nat, pretty, pretty_N.
  case_decide; [done|]. rewrite pretty_N_go_step by lia. by apply pretty_N_go_nonempty.
Qed.

Lemma match_citation_bracket (t1 : string) :
  match_citation (String "[" t1) =
  let '(prefix, t2) :=
    if Str.startswith "KB-" t1 then ("KB-", Str.drop 3 t1)
    else if Str.startswith "#" t1 then ("#", Str.drop 1 t1)
    else (EmptyString, t1) in
  let '(digits, t3) := Text.span Str.is_digit t2 in
  if nonempty digits && Str.startswith "]" t3
  then Some ("[" +:+ prefix +:+ digits +:+ "]")
  else None.
Proof. reflexivity. Qed.

Lemma match_citation_other (c : ascii) (t1 : string) :
  c <> "["%char -> match_citation (String c t1) = None.
Proof.
  intros Hc. cbn [match_citation]. by destruct (Ascii.eqb_spec c "[").
Qed.

(** The run of digits of a citation, up to the closing bracket. *)
Lemma span_to_bracket (d post : string) :
  Str.all_chars Str.is_digit d = true ->
  Text.span Str.is_digit (d +:+ "]" +:+ post) = (d, "]" +:+ post).
Proof. intros Hd. by apply span_run. Qed.

Lemma startswith_digits (a : ascii) (p d rest : string) :
  Str.is_digit a = false ->
  Str.all_chars Str.is_digit d = true -> d <> EmptyString ->
  Str.startswith (String a p) (d +:+ rest) = false.
Proof.
  intros Ha Hd Hne. destruct d as [|c d]; [done|]. cbn [Str.all_chars] in Hd.
  apply andb_true_iff in Hd as [Hc _]. rewrite str_app_cons, startswith_cons.
  destruct (Ascii.eqb_spec a c) as [<-|_]; [congruence|done].
Qed.

(** A number between brackets is matched as it stands. *)
Lemma match_citation_number (d post : string) :
  Str.all_chars Str.is_digit d = true -> d <> EmptyString ->
  match_citation ("[" +:+ d +:+ "]" +:+ post) = Some ("[" +:+ d +:+ "]").
Proof.
  intros Hd Hne.
  change ("[" +:+ d +:+ "]" +:+ post) with (String "[" (d +:+ "]" +:+ post)).
  rewrite match_citation_bracket.
  rewrite (startswith_digits "K") by done. rewrite (startswith_digits "#") by done.
  rewrite span_to_bracket by done. by apply nonempty_spec in Hne as ->.
Qed.

Lemma match_citation_kb (d post : string) :
  Str.all_chars Str.is_digit d = true -> d <> EmptyString ->
  match_citation ("[KB-" +:+ d +:+ "]" +:+ post) = Some ("[KB-" +:+ d +:+ "]").
Proof.
  intros Hd Hne.
  change ("[KB-" +:+ d +:+ "]" +:+ post) with (String "[" ("KB-" +:+ d +:+ "]" +:+ post)).
  rewrite match_citation_bracket, startswith_app.
  change (Str.drop 3 ("KB-" +:+ d +:+ "]" +:+ post)) with (d +:+ "]" +:+ post).
  rewrite span_to_bracket by done. by apply nonempty_spec in Hne as ->.
Qed.

Lemma match_citation_web_marker (i : nat) (post : string) :
  match_citation (web_marker i +:+ post) = Some (web_marker i).
Proof.
  unfold web_marker. rewrite !str_app_assoc.
  apply match_citation_number; [apply of_nat_digits|apply of_nat_nonempty].
Qed.

Lemma match_citation_kb_marker (i : nat) (post : string) :
  match_citation (kb_marker i +:+ post) = Some (kb_marker i).
Proof.
  unfold kb_marker. rewrite !str_app_assoc.
  apply match_citation_kb; [apply of_nat_digits|apply of_nat_nonempty].
Qed.

(** *** The scan *)

Lemma findall_scan_skip (m : string) :
  forall s : string, findall_scan (String.length m) (m +:+ s) = findall_scan 0 s.
Proof.
  induction m as [|c m IH]; intros s; [done|].
  rewrite str_app_cons. cbn [String.length findall_scan]. apply IH.
Qed.

Lemma findall_plain (pre : string) :
  Str.occurs "[" pre = false ->
  forall t : string, findall_scan 0 (pre +:+ t) = findall_scan 0 t.
Proof.
  induction pre as [|c pre IH]; intros Hpre t; [done|].
  apply no_bracket_cons in Hpre as [Hc Hpre].
  rewrite str_app_cons. cbn [findall_scan].
  rewrite match_citation_other by done. by apply IH.
Qed.

Lemma findall_match (m post : string) :
  match_citation (m +:+ post) = Some m ->
  findall_scan 0 (m +:+ post) = m :: findall_scan 0 post.
Proof.
  intros Hm. destruct m as [|c m].
  { rewrite str_app_nil_l in *. destruct post as [|c post]; [done|].
    cbn [match_citation] in Hm. destruct (Ascii.eqb c "["); [|done].
    repeat case_match; done. }
  revert Hm. rewrite str_app_cons. intros Hm.
  cbn [findall_scan]. rewrite Hm. f_equal.
  replace (String.length (String c m) - 1) with (String.length m)
    by (cbn [String.length]; lia).
  apply findall_scan_skip.
Qed.

Lemma findall_after (pre m post : string) :
  Str.occurs "[" pre = false ->
  match_citation (m +:+ post) = Some m ->
  findall (pre +:+ m +:+ post) = m :: findall post.
Proof.
  intros Hpre Hm. unfold findall. by rewrite findall_plain, findall_match.
Qed.

(** What is found begins with an opening bracket. *)
Lemma match_citation_shape (t m : string) :
  match_citation t = Some m -> exists rest, m = String "[" rest.
Proof.
  destruct t as [|c t]; [done|]. cbn [match_citation].
  destruct (Ascii.eqb c "["); [|done].
  repeat case_match; try done; intros [= <-]; by eexists.
Qed.

Lemma findall_scan_shape (s : string) :
  forall (k : nat) (m : string),
    m ∈ findall_scan k s -> exists rest, m = String "[" rest.
Proof.
  induction s as [|c s IH]; intros k m; cbn [findall_scan].
  - by intros ?%elem_of_nil.
  - destruct k as [|k]; [|apply IH].
    destruct (match_citation (String c s)) as [m'|] eqn:Hm'; [|apply IH].
    intros [->|Hin]%elem_of_cons; [by eapply match_citation_shape|by eapply IH].
Qed.

(** *** The markers of the sources and the two lists *)

Lemma available_fold_elem (sources : list SourceDict) :
  forall (A : gset string) (m : string),
    m ∈ fold_left available_step sources A <->
    m ∈ A \/ (m <> EmptyString /\ exists s, s ∈ sources /\ get (d_short_url s) = m).
Proof.
  induction sources as [|s sources IH]; intros A m; cbn [fold_left].
  - split; [by left|]. intros [?|(_ & s & Hs%elem_of_nil & _)]; done.
  - rewrite IH. unfold available_step. split.
    + intros [Hin|(Hne & s' & Hs' & Hget)].
      * destruct (nonempty (get (d_short_url s))) eqn:Hs; [|by left].
        apply elem_of_union in Hin as [->%elem_of_singleton|Hin]; [|by left].
        right. split; [by apply nonempty_spec|]. exists s. split; [left|done].
      * right. split; [done|]. exists s'. split; [by right|done].
    + intros [Hin|(Hne & s' & Hs' & Hget)].
      * left. destruct (nonempty _); [|done]. apply elem_of_union. by right.
      * apply elem_of_cons in Hs' as [->|Hs'].
        -- left. subst m. apply nonempty_spec in Hne as ->.
           apply elem_of_union. left. by apply elem_of_singleton.
        -- right. split; [done|]. by exists s'.
Qed.

Lemma validate_fold (A : gset string) (found : list string) :
  forall valid invalid : list string,
    fold_left (validate_step A) found (valid, invalid) =
    ((valid ++ List.filter (fun c => bool_decide (c ∈ A)) found)%list,
     (invalid ++ List.filter (fun c => negb (bool_decide (c ∈ A))) found)%list).
Proof.
  induction found as [|c found IH]; intros valid invalid; cbn [fold_left List.filter].
  - by rewrite !app_nil_r.
  - unfold validate_step at 2. destruct (bool_decide (c ∈ A)); cbn [negb];
      rewrite IH, <- ?List.app_assoc; done.
Qed.

Lemma validate_unfold (content : string) (sources : list SourceDict) :
  validate_citations_in_content content sources =
  let A := fold_left available_step sources ∅ in
  mkValidation
    (List.filter (fun c => bool_decide (c ∈ A)) (findall content))
    (List.filter (fun c => negb (bool_decide (c ∈ A))) (findall content))
    (filter (fun marker => marker ∉ (list_to_set (findall content) : gset string)) A)
    (length (List.filter (fun c => bool_decide (c ∈ A)) (findall content)), size A).
Proof.
  unfold validate_citations_in_content. by rewrite validate_fold.
Qed.

(** X17.  The markers that the research nodes write are citations for
    [validate_citations_in_content]: behind a text without an opening
    bracket, the marker [[i]] of [web_research] or [[KB-i]] of
    [knowledge_base_research] is the first citation found, and the search
    goes on behind it. *)
Theorem findall_finds_markers (pre post : string) (i : nat)
    (Hpre : Str.occurs "[" pre = false) :
  findall (pre +:+ web_marker i +:+ post) = web_marker i :: findall post /\
  findall (pre +:+ kb_marker i +:+ post) = kb_marker i :: findall post.
Proof.
  split; apply findall_after; try done.
  - apply match_citation_web_marker.
  - apply match_citation_kb_marker.
Qed.

Lemma findall_finds_markers_witness :
  findall ("Autism is heritable " +:+ web_marker 0 +:+ " and common [KB-3].")
    = web_marker 0 :: findall " and common [KB-3]." /\
  findall ("Autism is heritable " +:+ kb_marker 0 +:+ " and common [KB-3].")
    = kb_marker 0 :: findall " and common [KB-3].".
Proof. apply (findall_finds_markers "Autism is heritable " " and common [KB-3]." 0). done. Defined.

Lemma findall_none (post : string) : Str.occurs "[" post = false -> findall post = [].
Proof.
  intros Hpost. unfold findall.
  rewrite <- (str_app_empty_r post). by rewrite findall_plain.
Qed.

(** A marker of the research nodes is no citation with a hash. *)
Lemma research_marker_no_hash (i : nat) (d : string) :
  web_marker i <> "[#" +:+ d +:+ "]" /\ kb_marker i <> "[#" +:+ d +:+ "]".
Proof.
  split.
  - rewrite web_marker_shape. change ("[#" +:+ d +:+ "]") with (String "[" (String "#" (d +:+ "]"))).
    intros [= H]. pose proof (of_nat_digits i) as Hd. pose proof (of_nat_nonempty i) as Hne.
    destruct (Str.of_nat i) as [|c r]; [done|].
    rewrite str_app_cons in H. injection H as -> _. by vm_compute in Hd.
  - unfold kb_marker. by intros [= ].
Qed.

(** X18.  The source list of the prompt asks for the notation [[#N]],
    and the pattern of [validate_citations_in_content] finds such
    citations; but with sources that carry the markers of the research
    nodes, [[i]] and [[KB-i]], every citation with a hash is counted as
    invalid and none as valid. *)
Theorem hash_citations_are_invalid (content : string) (sources : list SourceDict)
    (d : string)
    (Hsources : Forall Extra.research_marked sources)
    (Hfound : "[#" +:+ d +:+ "]" ∈ findall content) :
  "[#" +:+ d +:+ "]" ∈ invalid_citations (validate_citations_in_content content sources) /\
  "[#" +:+ d +:+ "]" ∉ valid_citations (validate_citations_in_content content sources).
Proof.
  rewrite validate_unfold. cbn [invalid_citations valid_citations].
  assert (Hout : "[#" +:+ d +:+ "]" ∉ fold_left available_step sources ∅).
  { intros [Hin|(_ & s & Hs & Hget)]%available_fold_elem; [by apply elem_of_empty in Hin|].
    rewrite Forall_forall in Hsources.
    destruct (Hsources s Hs) as [i [Hi|Hi]]; rewrite Hi in Hget; cbn in Hget;
      by destruct (research_marker_no_hash i d). }
  split.
  - apply list_elem_of_In, filter_In. split; [by apply list_elem_of_In|].
    by rewrite bool_decide_eq_false_2.
  - intros [_ Hin]%list_elem_of_In%filter_In. by apply bool_decide_eq_true_1 in Hin.
Qed.

Lemma hash_citations_are_invalid_witness :
  "[#" +:+ "1" +:+ "]" ∈ invalid_citations (validate_citations_in_content "Heritable [#1]."
     [mkSourceDict (Some "https://a.example") (Some "[0]") (Some "A")]) /\
  "[#" +:+ "1" +:+ "]" ∉ valid_citations (validate_citations_in_content "Heritable [#1]."
     [mkSourceDict (Some "https://a.example") (Some "[0]") (Some "A")]).
Proof.
  apply (hash_citations_are_invalid "Heritable [#1]."
           [mkSourceDict (Some "https://a.example") (Some "[0]") (Some "A")] "1").
  - apply List.Forall_cons; [|apply List.Forall_nil]. exists 0. by left.
  - assert (findall "Heritable [#1]." = ["[#1]"]) as -> by reflexivity. apply list_elem_of_here.
Defined.

(** X19.  A source whose marker does not begin with an opening bracket,
    such as a short address made by [resolve_urls], is reported as missing
    whatever the content is, and is never counted as validly cited: the
    pattern only finds bracketed citations. *)
Theorem unbracketed_marker_is_missing (content : string) (sources : list SourceDict)
    (source : SourceDict) (marker : string)
    (Hsource : source ∈ sources)
    (Hmarker : d_short_url source = Some marker)
    (Hne : marker <> EmptyString)
    (Hshape : Str.startswith "[" marker = false) :
  marker ∈ missing_sources (validate_citations_in_content content sources) /\
  marker ∉ valid_citations (validate_citations_in_content content sources).
Proof.
  rewrite validate_unfold. cbn [missing_sources valid_citations].
  assert (Hnot : marker ∉ findall content).
  { intros [rest ->]%findall_scan_shape. by rewrite startswith_cons in Hshape. }
  split.
  - apply elem_of_filter. split; [by rewrite elem_of_list_to_set|].
    apply available_fold_elem. right. split; [done|]. exists source. split; [done|].
    by rewrite Hmarker.
  - by intros [Hin%list_elem_of_In _]%list_elem_of_In%filter_In.
Qed.

Lemma unbracketed_marker_is_missing_witness :
  Utils.short_url_of 3 0 ∈ missing_sources (validate_citations_in_content
     "Heritable [0] (https://vertexaisearch.cloud.google.com/id/3-0)."
     [mkSourceDict (Some "https://a.example") (Some (Utils.short_url_of 3 0)) (Some "A")]) /\
  Utils.short_url_of 3 0 ∉ valid_citations (validate_citations_in_content
     "Heritable [0] (https://vertexaisearch.cloud.google.com/id/3-0)."
     [mkSourceDict (Some "https://a.example") (Some (Utils.short_url_of 3 0)) (Some "A")]).
Proof.
  apply (unbracketed_marker_is_missing _ _
           (mkSourceDict (Some "https://a.example") (Some (Utils.short_url_of 3 0)) (Some "A")));
    [apply list_elem_of_here|done..].
Defined.

(** X20.  [citation_coverage] counts every valid citation, a repeated
    one each time, against the number of distinct markers: a text that
    cites its only source twice has the coverage 2 / 1, both citations
    valid and no source missing. *)
Theorem coverage_counts_repeats (pre mid post : string) (i : nat) (source : SourceDict)
    (Hpre : Str.occurs "[" pre = false) (Hmid : Str.occurs "[" mid = false)
    (Hpost : Str.occurs "[" post = false)
    (Hsource : d_short_url source = Some (web_marker i)) :
  validate_citations_in_content
    (pre +:+ web_marker i +:+ mid +:+ web_marker i +:+ post) [source]
  = mkValidation [web_marker i; web_marker i] [] ∅ (2, 1).
Proof.
  rewrite validate_unfold.
  rewrite (findall_after pre) by (done || apply match_citation_web_marker).
  rewrite (findall_after mid) by (done || apply match_citation_web_marker).
  rewrite (findall_none post) by done.
  assert (HA : fold_left available_step [source] ∅ = ({[ web_marker i ]} : gset string)).
  { cbn [fold_left]. unfold available_step. rewrite Hsource.
    change (get (Some (web_marker i))) with (web_marker i).
    rewrite web_marker_shape. cbn [nonempty]. by rewrite union_empty_r_L. }
  rewrite HA. cbv zeta. cbn [List.filter].
  rewrite !bool_decide_eq_true_2 by (by apply elem_of_singleton).
  cbn [negb length]. rewrite size_singleton. f_equal.
  apply set_eq. intros x. rewrite elem_of_filter, elem_of_singleton.
  split; [|by intros ?%elem_of_empty]. intros [Hx ->]. destruct Hx.
  apply elem_of_list_to_set. apply list_elem_of_here.
Qed.

Lemma coverage_counts_repeats_witness :
  validate_citations_in_content
    ("Heritable " +:+ web_marker 0 +:+ " and common " +:+ web_marker 0 +:+ ".")
    [mkSourceDict (Some "https://a.example") (Some "[0]") (Some "A")]
  = mkValidation [web_marker 0; web_marker 0] [] ∅ (2, 1).
Proof.
  by apply (coverage_counts_repeats "Heritable " " and common " "." 0
              (mkSourceDict (Some "https://a.example") (Some "[0]") (Some "A"))).
Defined.

End Validation.

(** ** Research summaries for the prompt *)

Section Summaries.

Import Report Prompt.

Lemma occurs_startswith (p s : string) : Str.startswith p s = true -> Str.occurs p s = true.
Proof. intros H. destruct s; cbn [Str.occurs]; by rewrite H. Qed.

Lemma occurs_app_skip (p a : string) :
  forall s : string, Str.occurs p s = true -> Str.occurs p (a +:+ s) = true.
Proof.
  induction a as [|c a IH]; intros s H; [done|].
  rewrite str_app_cons, occurs_cons, (IH s H). apply orb_true_r.
Qed.

Lemma startswith_app_r (p : string) :
  forall s b : string, Str.startswith p s = true -> Str.startswith p (s +:+ b) = true.
Proof.
  induction p as [|a p IH]; intros [|c s] b H; try done.
  rewrite str_app_cons, startswith_cons. rewrite startswith_cons in H.
  destruct (Ascii.eqb a c); [by apply IH|done].
Qed.

Lemma occurs_app_r (p b : string) :
  forall s : string, Str.occurs p s = true -> Str.occurs p (s +:+ b) = true.
Proof.
  induction s as [|c s IH]; intros H.
  - cbn [Str.occurs] in H. rewrite orb_false_r in H.
    apply occurs_startswith. by apply (startswith_app_r p EmptyString b).
  - rewrite occurs_cons in H. rewrite str_app_cons, occurs_cons.
    apply orb_true_iff in H as [H|H].
    + rewrite <- str_app_cons, (startswith_app_r _ _ b H). done.
    + rewrite (IH H). apply orb_true_r.
Qed.

Lemma occurs_refl (p : string) : Str.occurs p p = true.
Proof.
  apply occurs_startswith. rewrite <- (str_app_empty_r p) at 2. apply startswith_app.
Qed.

Lemma join_occurs (sep s : string) (parts : list string) :
  s ∈ parts -> Str.occurs s (Str.join sep parts) = true.
Proof.
  induction parts as [|p parts IH]; [by intros ?%elem_of_nil|].
  intros Hs. destruct parts as [|q parts].
  - apply list_elem_of_singleton in Hs as ->. apply occurs_refl.
  - change (Str.join sep (p :: q :: parts)) with (p +:+ sep +:+ Str.join sep (q :: parts)).
    apply elem_of_cons in Hs as [->|Hs].
    + apply occurs_app_r, occurs_refl.
    + by apply occurs_app_skip, occurs_app_skip, IH.
Qed.

(** X21.  [enhance_research_summaries_with_citations] keeps every
    summary as it is, its citation markers included: each summary occurs
    in the result, which begins with the summaries joined by the
    separator; the source list and the guidance only come behind them. *)
Theorem enhance_keeps_summaries (summaries : list string) (sources_gathered : list SourceDict)
    (s : string) (Hs : s ∈ summaries) :
  Str.occurs s (enhance_research_summaries_with_citations summaries sources_gathered) = true /\
  Str.startswith (Str.join summary_separator summaries)
    (enhance_research_summaries_with_citations summaries sources_gathered) = true.
Proof.
  pose proof (join_occurs summary_separator s summaries Hs) as Hjoin.
  unfold enhance_research_summaries_with_citations.
  destruct summaries as [|s0 summaries]; [by apply elem_of_nil in Hs|].
  destruct (nonempty (format_research_citations sources_gathered)).
  - split; [by apply occurs_app_r|apply startswith_app].
  - split; [done|]. rewrite <- (str_app_empty_r (Str.join _ _)) at 2. apply startswith_app.
Qed.

Lemma enhance_keeps_summaries_witness :
  Str.occurs "Common [KB-1]."
    (enhance_research_summaries_with_citations ["Heritable [0]."; "Common [KB-1]."]
       [mkSourceDict (Some "https://a.example") (Some "[0]") (Some "A")]) = true /\
  Str.startswith (Str.join summary_separator ["Heritable [0]."; "Common [KB-1]."])
    (enhance_research_summaries_with_citations ["Heritable [0]."; "Common [KB-1]."]
       [mkSourceDict (Some "https://a.example") (Some "[0]") (Some "A")]) = true.
Proof.
  apply (enhance_keeps_summaries ["Heritable [0]."; "Common [KB-1]."]
           [mkSourceDict (Some "https://a.example") (Some "[0]") (Some "A")] "Common [KB-1].").
  apply list_elem_of_further, list_elem_of_here.
Defined.

End Summaries.

(** ** A document without content *)

Section EmptyContent.

Import Graph.

Lemma intersperse_length (new s : string) :
  String.length (Str.intersperse new s)
  = String.length s + (String.length s + 1) * String.length new.
Proof.
  induction s as [|c s IH]; cbn [Str.intersperse String.length].
  - lia.
  - rewrite str_app_length. cbn [String.length]. rewrite IH. lia.
Qed.

(** X22.  A document whose content is the empty string: the replacement
    that should shorten the content puts the dots and the marker before
    every character of the finding written so far, and at its end.  For
    the only document of an answer, the finding is the header and the
    lines of the document with the marker text between all characters; its
    length is [n + (n + 1) * m] for [n] characters and a marker text of [m]
    characters. *)
Theorem empty_content_scatters_marker (base : WebSearchState -> KbOutcome)
    (state : WebSearchState) (d : Document) (score source id : string)
    (Hdocs : base state = Queried (inr (QueryDocuments [d])))
    (Hscore : doc_score d = Some (inr score)) (Hsource : doc_source d = Some source)
    (Hcontent : doc_content d = Some (inr EmptyString)) (Hid : doc_id d = Some id)
    (Hmetadata : forall e, doc_metadata d <> Some (inl e)) :
  let lines :=
    kb_header [d] +:+ "Document " +:+ Str.of_nat 1 +:+ " (Score: " +:+ score +:+ "):" +:+ Str.nl
      +:+ "Source: " +:+ source +:+ Str.nl +:+ "Content: " +:+ Str.nl +:+ Str.nl in
  upd_web_research_result (knowledge_base_research base state)
    = [Str.intersperse ("... " +:+ kb_marker 0) lines] /\
  String.length (Str.intersperse ("... " +:+ kb_marker 0) lines)
    = String.length lines + (String.length lines + 1) * String.length ("... " +:+ kb_marker 0).
Proof.
  intros lines. split; [|apply intersperse_length].
  unfold knowledge_base_research. rewrite Hdocs.
  unfold kb_process, enumerate. cbn [enumerate_from fold_left].
  unfold kb_doc_step. cbn [bind]. rewrite Hscore, Hsource, Hcontent, Hid. cbn [getitem bind].
  assert (Hmeta : exists filename, default (inr None) (doc_metadata d) = inr filename).
  { destruct (doc_metadata d) as [[e|filename]|]; [by destruct (Hmetadata e)|..]; by eexists. }
  destruct Hmeta as [filename ->]. cbn [bind upd_web_research_result]. f_equal.
  unfold lines. cbn [Str.take Str.replace]. rewrite str_app_nil_l.
  by rewrite !str_app_assoc.
Qed.

Lemma empty_content_scatters_marker_witness :
  upd_web_research_result
    (knowledge_base_research
       (fun _ => Queried (inr (QueryDocuments
          [mkDocument (Some (inr "0.912")) (Some "/kb/p_12.md") (Some (inr EmptyString))
             (Some "7") None])))
       (mkWebSearchState "autism" 0))
  = [Str.intersperse ("... " +:+ kb_marker 0)
       (kb_header [mkDocument (Some (inr "0.912")) (Some "/kb/p_12.md") (Some (inr EmptyString))
                     (Some "7") None]
          +:+ "Document " +:+ Str.of_nat 1 +:+ " (Score: " +:+ "0.912" +:+ "):" +:+ Str.nl
          +:+ "Source: " +:+ "/kb/p_12.md" +:+ Str.nl +:+ "Content: " +:+ Str.nl +:+ Str.nl)].
Proof.
  assert (Hmetadata : forall e : exn, @None (exn + option string) <> Some (inl e)) by done.
  apply (proj1 (empty_content_scatters_marker
                  (fun _ => Queried (inr (QueryDocuments
                     [mkDocument (Some (inr "0.912")) (Some "/kb/p_12.md") (Some (inr EmptyString))
                        (Some "7") None])))
                  (mkWebSearchState "autism" 0)
                  (mkDocument (Some (inr "0.912")) (Some "/kb/p_12.md") (Some (inr EmptyString))
                     (Some "7") None)
                  "0.912" "/kb/p_12.md" "7" eq_refl eq_refl eq_refl eq_refl eq_refl Hmetadata)).
Defined.

End EmptyContent.
